(** * Verification of the request router (src/utils/router.ts)

    The development embeds the four functions of the router module
    ([calculateTokenCount], [collectProviderTargets], [getUseModel] and
    [router]) and settles the properties the design document states
    about them.

    Modelling conventions.
    - JavaScript values that arrive from the request body are JSON
      trees ([jval]); numbers are modelled as integers (token counts and
      thresholds), strings as strings over the ASCII range. Fields the
      type declarations fix ([req.body.model], the names and models of
      a provider, the identifiers of the router policy) carry that
      type, with [None] for an absent field.
    - A thrown exception is [Throw msg]; [msg] stands for the [message]
      of the thrown [Error].
    - Provider objects are shared and mutated in place, so they live in
      a heap indexed by location; the configuration lists hold
      locations.
    - External collaborators (tokenizer, JSON serialiser, file system,
      custom router module, session cache, provider service) are
      section variables or fields of the records [Imports] and
      [Context]. *)

From Stdlib Require Import ZArith String Ascii List Lia Bool DecimalString.
From stdpp Require Import base option gmap strings list fin_maps.

Open Scope string_scope.
Open Scope list_scope.

(** ** Outcomes: normal completion or a thrown exception *)

Inductive outcome (A : Type) : Type :=
| Ok (a : A)
| Throw (msg : string).
Arguments Ok {A} a.
Arguments Throw {A} msg.

#[global] Instance outcome_ret : MRet outcome := fun A a => Ok a.
#[global] Instance outcome_bind : MBind outcome := fun A B f m =>
  match m with
  | Ok a => f a
  | Throw e => Throw e
  end.

Definition isOk {A} (o : outcome A) : bool :=
  match o with Ok _ => true | Throw _ => false end.

(** ** Strings: the methods of [String.prototype] the router calls *)

Module JsString.

Definition isUpper (c : ascii) : bool :=
  (65 <=? nat_of_ascii c)%nat && (nat_of_ascii c <=? 90)%nat.

Definition lowerChar (c : ascii) : ascii :=
  if isUpper c then ascii_of_nat (nat_of_ascii c + 32) else c.

(** [s.toLowerCase()] *)
Fixpoint toLowerCase (s : string) : string :=
  match s with
  | EmptyString => EmptyString
  | String c s' => String (lowerChar c) (toLowerCase s')
  end.

(** White space and line terminators of the ASCII range: TAB, LF, VT,
    FF, CR and SPACE. *)
Definition isWhite (c : ascii) : bool :=
  let n := nat_of_ascii c in
  ((9 <=? n)%nat && (n <=? 13)%nat) || (n =? 32)%nat.

Fixpoint trimStart (s : string) : string :=
  match s with
  | EmptyString => EmptyString
  | String c s' => if isWhite c then trimStart s' else s
  end.

Fixpoint trimEnd (s : string) : string :=
  match s with
  | EmptyString => EmptyString
  | String c s' =>
      match trimEnd s' with
      | EmptyString => if isWhite c then EmptyString else String c EmptyString
      | r => String c r
      end
  end.

(** [s.trim()] *)
Definition trim (s : string) : string := trimEnd (trimStart s).

(** [s.startsWith(p)] *)
Fixpoint startsWith (p s : string) : bool :=
  match p, s with
  | EmptyString, _ => true
  | String _ _, EmptyString => false
  | String a p', String b s' => if Ascii.eqb a b then startsWith p' s' else false
  end.

Fixpoint drop (n : nat) (s : string) : string :=
  match n, s with
  | O, _ => s
  | S _, EmptyString => EmptyString
  | S k, String _ s' => drop k s'
  end.

(** [breakOn sep s]: the text before and the text after the first
    occurrence of [sep] in [s], when there is one. *)
Fixpoint breakOn (sep s : string) : option (string * string) :=
  if startsWith sep s then Some (EmptyString, drop (String.length sep) s)
  else match s with
       | EmptyString => None
       | String c s' =>
           match breakOn sep s' with
           | Some (a, b) => Some (String c a, b)
           | None => None
           end
       end.

(** [s.includes(sep)] *)
Definition includes (sep s : string) : bool :=
  match breakOn sep s with Some _ => true | None => false end.

Definition consHead (c : ascii) (l : list string) : list string :=
  match l with
  | [] => [String c EmptyString]
  | x :: xs => String c x :: xs
  end.

(** The pieces of [s] between the occurrences of a non-empty separator,
    scanning left to right; [skip] counts the characters of a separator
    still to be passed over. *)
Fixpoint splitGo (sep : string) (skip : nat) (s : string) : list string :=
  match s with
  | EmptyString => [EmptyString]
  | String c s' =>
      match skip with
      | S k => splitGo sep k s'
      | O =>
          if startsWith sep (String c s')
          then EmptyString :: splitGo sep (String.length sep - 1) s'
          else consHead c (splitGo sep 0 s')
      end
  end.

(** [s.split(sep)]; with the empty separator the string is cut into its
    characters. *)
Definition split (sep s : string) : list string :=
  match sep with
  | EmptyString => map (fun c => String c EmptyString) (list_ascii_of_string s)
  | _ => splitGo sep 0 s
  end.

(** [s.replace(pat, rep)] with a string pattern: the first occurrence
    only. The router's replacement text is empty, so the [$] patterns of
    the replacement play no part. *)
Definition replace (pat rep s : string) : string :=
  match breakOn pat s with
  | Some (a, b) => a +:+ rep +:+ b
  | None => s
  end.

(** [s.match(/open(.*?)close/s)]: the capture group of the leftmost
    match. The lazy group with the dot-all flag stops at the first
    occurrence of [close] behind [open]. *)
Fixpoint matchBetween (open close s : string) : option string :=
  let here :=
    if startsWith open s
    then fst <$> breakOn close (drop (String.length open) s)
    else None in
  match here with
  | Some g => Some g
  | None =>
      match s with
      | EmptyString => None
      | String _ s' => matchBetween open close s'
      end
  end.

End JsString.

(** ** JavaScript values *)

#[local] Set Warnings "-register-all".

(** The JSON values of a request body, and with them [undefined] and
    [NaN], the two values of a computation in flight that JSON text does
    not denote. *)
Inductive jval : Type :=
| JUndef
| JNull
| JBool (b : bool)
| JNum (n : Z)
| JStr (s : string)
| JArr (items : list jval)
| JObj (fields : list (string * jval))
| JNaN.

Module Js.

(** ToBoolean *)
Definition truthy (v : jval) : bool :=
  match v with
  | JUndef | JNull | JNaN => false
  | JBool b => b
  | JNum n => negb (n =? 0)%Z
  | JStr s => negb (String.eqb s "")
  | JArr _ | JObj _ => true
  end.

Definition nullish (v : jval) : bool :=
  match v with JUndef | JNull => true | _ => false end.

Fixpoint assoc (k : string) (fs : list (string * jval)) : jval :=
  match fs with
  | [] => JUndef
  | (k', v) :: fs' => if String.eqb k k' then v else assoc k fs'
  end.

Definition typeError (what : string) : string :=
  "TypeError: " +:+ what.

(** [v.k] for a data property [k]: reading a property of [undefined] or
    [null] throws; primitives and arrays only carry [length]. *)
Definition get (v : jval) (k : string) : outcome jval :=
  match v with
  | JUndef | JNull =>
      Throw (typeError ("Cannot read properties of undefined or null, reading " +:+ k))
  | JObj fs => Ok (assoc k fs)
  | JStr s => Ok (if String.eqb k "length" then JNum (Z.of_nat (String.length s)) else JUndef)
  | JArr l => Ok (if String.eqb k "length" then JNum (Z.of_nat (length l)) else JUndef)
  | JBool _ | JNum _ | JNaN => Ok JUndef
  end.

(** [v?.k] *)
Definition getOpt (v : jval) (k : string) : jval :=
  match get v k with Ok x => x | Throw _ => JUndef end.

(** [v[1]] *)
Definition index1 (v : jval) : outcome jval :=
  match v with
  | JUndef | JNull =>
      Throw (typeError "Cannot read properties of undefined or null, reading 1")
  | JArr l => Ok (nth 1 l JUndef)
  | JStr s =>
      Ok (match String.get 1 s with
          | Some c => JStr (String c EmptyString)
          | None => JUndef
          end)
  | JObj fs => Ok (assoc "1" fs)
  | JBool _ | JNum _ | JNaN => Ok JUndef
  end.

(** [v > n] for a number [n]; only numbers are compared, [undefined]
    (as NaN) and the other shapes compare false. *)
Definition gt (v : jval) (n : Z) : bool :=
  match v with JNum m => (n <? m)%Z | _ => false end.

Definition isString (v : jval) : bool :=
  match v with JStr _ => true | _ => false end.

Definition isArray (v : jval) : bool :=
  match v with JArr _ => true | _ => false end.

(** [v === "s"] *)
Definition eqStr (v : jval) (s : string) : bool :=
  match v with JStr t => String.eqb t s | _ => false end.

Definition decimal (n : Z) : string := NilZero.string_of_int (Z.to_int n).

(** ToString *)
Fixpoint toString (v : jval) : string :=
  match v with
  | JUndef => "undefined"
  | JNull => "null"
  | JBool true => "true"
  | JBool false => "false"
  | JNum n => decimal n
  | JStr s => s
  | JArr l =>
      (fix join (l : list jval) : string :=
         match l with
         | [] => ""
         | [x] => if nullish x then "" else toString x
         | x :: rest => (if nullish x then "" else toString x) +:+ "," +:+ join rest
         end) l
  | JObj _ => "[object Object]"
  | JNaN => "NaN"
  end.

(** ToNumber on the primitives that are not strings; [None] is NaN. *)
Definition toNumber (v : jval) : option Z :=
  match v with
  | JNull | JBool false => Some 0%Z
  | JBool true => Some 1%Z
  | JNum n => Some n
  | _ => None
  end.

(** [a + b]: a concatenation when one of the operands is a string or
    converts to one (arrays and objects), else the sum of two numbers. *)
Definition plus (a b : jval) : jval :=
  let stringy v := match v with JStr _ | JArr _ | JObj _ => true | _ => false end in
  if stringy a || stringy b then JStr (toString a +:+ toString b)
  else match toNumber a, toNumber b with
       | Some x, Some y => JNum (x + y)
       | _, _ => JNaN
       end.

End Js.

(** ** Token estimation: [calculateTokenCount] *)

Section TokenEstimator.

(** The tokenizer [enc.encode], used only through the length of its
    result. Its contract is [encode(text: string)]. It is called with
    its default arguments, under which it raises on a text that holds a
    special token (such as the end-of-text marker), so on a string it
    gives tokens or fails. What the binding makes of an argument that is
    not a string is left open: the length of what it returns, or a
    failure. *)
Variable enc_encode : string -> outcome (list nat).
Variable enc_misuse : jval -> outcome nat.

(** The text [JSON.stringify] produces for a value other than
    [undefined]. *)
Variable json_text : jval -> string.

(** [JSON.stringify(v)]: [undefined] for [undefined], a string for
    every other JSON value. *)
Definition JSON_stringify (v : jval) : jval :=
  match v with
  | JUndef => JUndef
  | _ => JStr (json_text v)
  end.

(** [enc.encode(v).length] *)
Definition encodeLength (v : jval) : outcome Z :=
  match v with
  | JStr s => tokens ← enc_encode s; Ok (Z.of_nat (length tokens))
  | _ => n ← enc_misuse v; Ok (Z.of_nat n)
  end.

(** [xs.forEach(x => { tokenCount += f(x) })] started at [acc]. *)
Fixpoint forEachAdd (f : jval -> outcome Z) (xs : list jval) (acc : Z) : outcome Z :=
  match xs with
  | [] => Ok acc
  | x :: rest => n ← f x; forEachAdd f rest (acc + n)%Z
  end.

(** Lines 24-34: one part of a message whose content is an array. *)
Definition contentPartTokens (contentPart : jval) : outcome Z :=
  ty ← Js.get contentPart "type";
  if Js.eqStr ty "text" then
    encodeLength (Js.getOpt contentPart "text")
  else if Js.eqStr ty "tool_use" then
    encodeLength (JSON_stringify (Js.getOpt contentPart "input"))
  else if Js.eqStr ty "tool_result" then
    let content := Js.getOpt contentPart "content" in
    encodeLength (if Js.isString content then content else JSON_stringify content)
  else Ok 0%Z.

(** Lines 20-36: one message. *)
Definition messageTokens (message : jval) : outcome Z :=
  content ← Js.get message "content";
  match content with
  | JStr _ => encodeLength content
  | JArr parts => forEachAdd contentPartTokens parts 0%Z
  | _ => Ok 0%Z
  end.

(** Lines 43-50: one segment of an array system prompt. *)
Definition systemItemTokens (item : jval) : outcome Z :=
  ty ← Js.get item "type";
  if negb (Js.eqStr ty "text") then Ok 0%Z
  else
    match Js.getOpt item "text" with
    | JStr s => encodeLength (JStr s)
    | JArr textParts =>
        forEachAdd
          (fun textPart => encodeLength (if Js.truthy textPart then textPart else JStr ""))
          textParts 0%Z
    | _ => Ok 0%Z
    end.

(** Lines 55-60: one tool declaration. *)
Definition toolTokens (tool : jval) : outcome Z :=
  description ← Js.get tool "description";
  d ← (if Js.truthy description then
         encodeLength (Js.plus (Js.getOpt tool "name") description)
       else Ok 0%Z);
  let input_schema := Js.getOpt tool "input_schema" in
  s ← (if Js.truthy input_schema then encodeLength (JSON_stringify input_schema)
       else Ok 0%Z);
  Ok (d + s)%Z.

Definition messagesTokens (messages : jval) : outcome Z :=
  match messages with
  | JArr ms => forEachAdd messageTokens ms 0%Z
  | _ => Ok 0%Z
  end.

Definition systemTokens (system : jval) : outcome Z :=
  match system with
  | JStr s => encodeLength (JStr s)
  | JArr items => forEachAdd systemItemTokens items 0%Z
  | _ => Ok 0%Z
  end.

Definition toolsTokens (tools : jval) : outcome Z :=
  if Js.truthy tools then
    match tools with
    | JArr ts => forEachAdd toolTokens ts 0%Z
    | _ => Throw (Js.typeError "tools.forEach is not a function")
    end
  else Ok 0%Z.

(** Lines 12-64. *)
Definition calculateTokenCount (messages system tools : jval) : outcome Z :=
  m ← messagesTokens messages;
  s ← systemTokens system;
  t ← toolsTokens tools;
  Ok (m + s + t)%Z.

End TokenEstimator.

(** ** Providers, provider targets and the shared heap *)

Definition loc := nat.

(** A credential field: [undefined], [null] or a string. *)
Inductive cred : Type :=
| CUndef
| CNull
| CStr (s : string).

#[global] Instance cred_eq_dec : EqDecision cred.
Proof. solve_decision. Defined.

(** [a ?? b] *)
Definition orElse (a b : cred) : cred :=
  match a with
  | CUndef | CNull => b
  | CStr _ => a
  end.

Module StackEntry.
Record t := mk { requestId : nat; newKey : string }.
End StackEntry.

Module Provider.
(** A provider object of the configuration. [_dynamic_api_key_stack]
    is [None] as long as the field holds no array. *)
Record t := mk {
  name : option string;
  api_key : cred;
  apiKey : cred;
  models : option (list string);
  _static_api_key : cred;
  _dynamic_api_key_stack : option (list StackEntry.t)
}.

Definition set_static (k : cred) (p : t) : t :=
  mk (name p) (api_key p) (apiKey p) (models p) k (_dynamic_api_key_stack p).

Definition set_stack (st : list StackEntry.t) (p : t) : t :=
  mk (name p) (api_key p) (apiKey p) (models p) (_static_api_key p) (Some st).

Definition set_keys (token : string) (p : t) : t :=
  mk (name p) (CStr token) (CStr token) (models p) (_static_api_key p)
     (_dynamic_api_key_stack p).
End Provider.

Module ProviderTarget.
Record t := mk { name : string; references : list loc; primary : loc }.
End ProviderTarget.

(** An entry of a provider list: an object of the heap, or a nullish
    value. *)
Definition entry := option loc.

Definition deref (h : gmap loc Provider.t) (e : entry) : option Provider.t :=
  l ← e; h !! l.

(** [provider?.name] as a usable key: present and not the empty string. *)
Definition entryName (h : gmap loc Provider.t) (e : entry) : option string :=
  p ← deref h e;
  n ← Provider.name p;
  if String.eqb n "" then None else Some n.

Section ProviderRegistry.

Variable h : gmap loc Provider.t.

(** Lines 85-96 on the insertion-ordered map: the body of the inner
    [forEach] once the entry has a name. *)
Fixpoint registerNamed (n : string) (l : loc) (map : list ProviderTarget.t)
  : list ProviderTarget.t :=
  match map with
  | [] => [ProviderTarget.mk n [l] l]
  | existing :: rest =>
      if String.eqb (ProviderTarget.name existing) n then
        (if bool_decide (l ∈ ProviderTarget.references existing) then existing
         else ProviderTarget.mk (ProviderTarget.name existing)
                (ProviderTarget.references existing ++ [l])
                (ProviderTarget.primary existing)) :: rest
      else existing :: registerNamed n l rest
  end.

Definition registerProvider (map : list ProviderTarget.t) (e : entry)
  : list ProviderTarget.t :=
  match e, entryName h e with
  | Some l, Some n => registerNamed n l map
  | _, _ => map
  end.

(** Lines 75-98; [None] is a value that is not an array. *)
Definition registerProviders (providers : option (list entry))
    (map : list ProviderTarget.t) : list ProviderTarget.t :=
  match providers with
  | None => map
  | Some ps => foldl registerProvider map ps
  end.

End ProviderRegistry.

(** ** Configuration, request and the mutable world of one call *)

Module Policy.
(** [config.Router]. A model identifier is configured when the field
    holds a non-empty string. *)
Record t := mk {
  default : option string;
  background : option string;
  think : option string;
  webSearch : option string;
  longContext : option string;
  longContextThreshold : option Z
}.
End Policy.

Record Config := mkConfig {
  Router : Policy.t;
  Providers : option (list entry);
  providers : option (list entry);
  REWRITE_SYSTEM_PROMPT : option string;
  CUSTOM_ROUTER_PATH : option string
}.

(** Lines 72-104. *)
Definition collectProviderTargets (h : gmap loc Provider.t) (config : Config)
  : list ProviderTarget.t :=
  registerProviders h (providers config) (registerProviders h (Providers config) []).

(** Modelled from the spec: the [Usage] record of [./cache], which is
    not part of the sources at hand; the router reads its
    [input_tokens]. *)
Record Usage := mkUsage { input_tokens : Z }.

Module Override.
Record t := mk { target : ProviderTarget.t; requestId : nat }.
End Override.

Record Body := mkBody {
  model : option string;
  messages : jval;
  system : jval;
  tools : jval;
  thinking : jval;
  metadata : jval
}.

Record Req := mkReq {
  body : Body;
  bearerToken : jval;
  sessionId : option string;
  tokenCount : option Z;
  dynamicApiKeyOverrides : option (list Override.t)
}.

Definition set_model (m : option string) (b : Body) : Body :=
  mkBody m (messages b) (system b) (tools b) (thinking b) (metadata b).
Definition set_system (s : jval) (b : Body) : Body :=
  mkBody (model b) (messages b) s (tools b) (thinking b) (metadata b).
Definition set_body (b : Body) (r : Req) : Req :=
  mkReq b (bearerToken r) (sessionId r) (tokenCount r) (dynamicApiKeyOverrides r).
Definition set_sessionId (i : option string) (r : Req) : Req :=
  mkReq (body r) (bearerToken r) i (tokenCount r) (dynamicApiKeyOverrides r).
Definition set_tokenCount (n : option Z) (r : Req) : Req :=
  mkReq (body r) (bearerToken r) (sessionId r) n (dynamicApiKeyOverrides r).
Definition set_overrides (o : option (list Override.t)) (r : Req) : Req :=
  mkReq (body r) (bearerToken r) (sessionId r) (tokenCount r) o.

Inductive LogEvent : Type :=
| LogInfo (msg : string)      (* req.log.info *)
| LogError (msg : string)     (* req.log.error *)
| ConsoleLog (msg : string).  (* console.log *)

(** What a call can read and change: the request, the provider objects,
    the [updateProvider] calls received by the provider service, and the
    log. *)
Record World := mkWorld {
  req : Req;
  heap : gmap loc Provider.t;
  updated : list (string * string);
  logged : list LogEvent
}.

Definition set_req (r : Req) (w : World) : World :=
  mkWorld r (heap w) (updated w) (logged w).
Definition set_heap (h : gmap loc Provider.t) (w : World) : World :=
  mkWorld (req w) h (updated w) (logged w).
Definition add_updated (u : string * string) (w : World) : World :=
  mkWorld (req w) (heap w) (updated w ++ [u]) (logged w).
Definition add_logged (e : LogEvent) (w : World) : World :=
  mkWorld (req w) (heap w) (updated w) (logged w ++ [e]).

(** Computations that change the world and may throw; what was changed
    before a throw stays changed. *)
Definition M (A : Type) : Type := World -> outcome A * World.

#[global] Instance M_ret : MRet M := fun A a w => (Ok a, w).
#[global] Instance M_bind : MBind M := fun A B f m w =>
  match m w with
  | (Ok a, w') => f a w'
  | (Throw e, w') => (Throw e, w')
  end.

Definition lift {A} (o : outcome A) : M A := fun w => (o, w).
Definition throw {A} (e : string) : M A := fun w => (Throw e, w).
Definition modify (f : World -> World) : M unit := fun w => (Ok tt, f w).
Definition reads {A} (f : World -> A) : M A := fun w => (Ok (f w), w).
Definition log (e : LogEvent) : M unit := modify (add_logged e).

(** [try { body } catch (error) { handler(error.message) }] *)
Definition tryCatch {A} (body : M A) (handler : string -> M A) : M A := fun w =>
  match body w with
  | (Ok a, w') => (Ok a, w')
  | (Throw e, w') => handler e w'
  end.

(** A configured string: truthy. *)
Definition configured (o : option string) : bool :=
  match o with
  | Some s => negb (String.eqb s "")
  | None => false
  end.

(** ** The credential overlay (router, lines 185-247) *)

Section CredentialOverlay.

(** [server?.providerService?.getProvider], when there is one: does
    the service know a provider of that name? Its [updateProvider]
    calls are recorded in the world. *)
Variable getProvider : option (string -> bool).
Variable token : string.
Variable requestId : nat.

(** Line 208-210: the credential in effect for a provider. *)
Definition currentKey (primary : Provider.t) (stack : list StackEntry.t) : cred :=
  match last stack with
  | Some activeEntry => CStr (StackEntry.newKey activeEntry)
  | None => orElse (Provider.api_key primary) (orElse (Provider.apiKey primary) CNull)
  end.

(** Lines 199-202. *)
Definition snapshotStatic (primary : Provider.t) : Provider.t :=
  if decide (Provider._static_api_key primary = CUndef)
  then Provider.set_static
         (orElse (Provider.api_key primary) (orElse (Provider.apiKey primary) CNull))
         primary
  else primary.

(** Lines 204-206. *)
Definition stackOf (primary : Provider.t) : list StackEntry.t :=
  match Provider._dynamic_api_key_stack primary with
  | Some stack => stack
  | None => []
  end.

(** Lines 218-221. *)
Definition writeKeys (references : list loc) (h : gmap loc Provider.t)
  : gmap loc Provider.t :=
  foldl (fun h ref => alter (Provider.set_keys token) ref h) h references.

(** Lines 223-232. *)
Definition notifyService (name : string) (w : World) : World :=
  match getProvider with
  | Some exists_ => if exists_ name then add_updated (name, token) w else w
  | None => w
  end.

(** Lines 193-238: the body of the loop over the provider targets. The
    boolean tells whether an override was recorded for the target. *)
Definition applyOverride (target : ProviderTarget.t) (w : World) : World * bool :=
  match heap w !! ProviderTarget.primary target with
  | None => (w, false)
  | Some primary0 =>
      let primary1 := snapshotStatic primary0 in
      let stack := stackOf primary1 in
      let primary2 := Provider.set_stack stack primary1 in
      let w1 := set_heap (<[ProviderTarget.primary target := primary2]> (heap w)) w in
      if decide (currentKey primary2 stack = CStr token) then (w1, false)
      else
        let primary3 :=
          Provider.set_stack (stack ++ [StackEntry.mk requestId token]) primary2 in
        let h3 := <[ProviderTarget.primary target := primary3]> (heap w1) in
        let h4 := writeKeys (ProviderTarget.references target) h3 in
        (notifyService (ProviderTarget.name target) (set_heap h4 w1), true)
  end.

(** Line 193: [providerTargets.forEach], collecting [overrides]. *)
Definition applyOverrides (targets : list ProviderTarget.t) (w : World)
  : World * list Override.t :=
  foldl (fun '(w, overrides) target =>
           let '(w', applied) := applyOverride target w in
           (w', if applied then overrides ++ [Override.mk target requestId]
                else overrides))
        (w, []) targets.

End CredentialOverlay.

(** Line 186-187: the token of the request, trimmed; empty when the
    bearer token is not a string. *)
Definition tokenOf (bearer : jval) : string :=
  match bearer with
  | JStr s => JsString.trim s
  | _ => ""
  end.

(** Lines 183-247. [requestId] is the fresh symbol of the call. *)
Definition applyDynamicApiKey (getProvider : option (string -> bool))
    (config : Config) (requestId : nat) : M unit := fun w =>
  let providerTargets := collectProviderTargets (heap w) config in
  if Js.truthy (bearerToken (req w)) && negb (Nat.eqb (length providerTargets) 0) then
    let token := tokenOf (bearerToken (req w)) in
    if negb (String.eqb token "") then
      let '(w', overrides) := applyOverrides getProvider token requestId providerTargets w in
      if negb (Nat.eqb (length overrides) 0) then
        (Ok tt,
         add_logged
           (ConsoleLog ("[ROUTER] Applied dynamic API key to "
                        +:+ Js.decimal (Z.of_nat (length overrides)) +:+ " provider(s)"))
           (set_req (set_overrides (Some overrides) (req w')) w'))
      else (Ok tt, w')
    else (Ok tt, w)
  else (Ok tt, w).

(** ** Model selection: [getUseModel] *)

Definition SUBAGENT_OPEN : string := "<CCR-SUBAGENT-MODEL>".
Definition SUBAGENT_CLOSE : string := "</CCR-SUBAGENT-MODEL>".

(** [v?.startsWith(p)]: [undefined] (falsy) on a nullish receiver, the
    string method on a string; no other JSON value has the method. *)
Definition startsWithOpt (v : jval) (p : string) : outcome bool :=
  match v with
  | JUndef | JNull => Ok false
  | JStr s => Ok (JsString.startsWith p s)
  | _ => Throw (Js.typeError "startsWith is not a function")
  end.

(** [system[1]?.text] once [system] is known not to be nullish. *)
Definition segmentText (system : jval) : jval :=
  match Js.index1 system with
  | Ok segment => Js.getOpt segment "text"
  | Throw _ => JUndef
  end.

Fixpoint setField (k : string) (v : jval) (fs : list (string * jval))
  : list (string * jval) :=
  match fs with
  | [] => [(k, v)]
  | (k', x) :: rest =>
      if String.eqb k k' then (k', v) :: rest else (k', x) :: setField k v rest
  end.

Definition setText (segment : jval) (text : string) : jval :=
  match segment with
  | JObj fs => JObj (setField "text" (JStr text) fs)
  | _ => segment
  end.

(** [system[1].text = text] *)
Definition setSegmentText (system : jval) (text : string) : jval :=
  match system with
  | JArr l => JArr (<[1 := setText (nth 1 l JUndef) text]> l)
  | JObj fs => JObj (setField "1" (setText (Js.assoc "1" fs) text) fs)
  | _ => system
  end.

(** Lines 114-116: [config.Providers.find(p => p.name.toLowerCase() === provider)]. *)
Fixpoint findProvider (h : gmap loc Provider.t) (provider : option string)
    (ps : list entry) : outcome (option Provider.t) :=
  match ps with
  | [] => Ok None
  | e :: rest =>
      match deref h e with
      | None => Throw (Js.typeError "Cannot read properties of undefined or null, reading name")
      | Some p =>
          match Provider.name p with
          | None => Throw (Js.typeError "Cannot read properties of undefined, reading toLowerCase")
          | Some n =>
              if decide (Some (JsString.toLowerCase n) = provider) then Ok (Some p)
              else findProvider h provider rest
          end
      end
  end.

(** Lines 117-119: [finalProvider?.models?.find(m => m.toLowerCase() === model)]. *)
Definition findModel (finalProvider : option Provider.t) (model : option string)
  : option string :=
  p ← finalProvider;
  ms ← Provider.models p;
  find (fun m => bool_decide (Some (JsString.toLowerCase m) = model)) ms.

(** Lines 112-124. *)
Definition compoundSelector (h : gmap loc Provider.t) (config : Config)
    (requested : string) : outcome (option string) :=
  let parts := JsString.split "," requested in
  let provider : option string := parts !! 0%nat in
  let model : option string := parts !! 1%nat in
  match Providers config with
  | None => Throw (Js.typeError "Cannot read properties of undefined, reading find")
  | Some ps =>
      finalProvider ← findProvider h provider ps;
      let finalModel := findModel finalProvider model in
      match finalProvider, finalModel with
      | Some p, Some m =>
          if negb (String.eqb m "")
          then Ok (Some (default "" (Provider.name p) +:+ "," +:+ m))
          else Ok (Some requested)
      | _, _ => Ok (Some requested)
      end
  end.

(** Line 127: [config.Router.longContextThreshold || 60000]. *)
Definition longContextThreshold (config : Config) : Z :=
  match Policy.longContextThreshold (Router config) with
  | Some t => if (t =? 0)%Z then 60000%Z else t
  | None => 60000%Z
  end.

(** Lines 128-136: the condition of the long-context rule. *)
Definition lastUsageThreshold (config : Config) (tokenCount : Z)
    (lastUsage : option Usage) : bool :=
  match lastUsage with
  | Some u => (longContextThreshold config <? input_tokens u)%Z && (20000 <? tokenCount)%Z
  | None => false
  end.

Definition tokenCountThreshold (config : Config) (tokenCount : Z) : bool :=
  (longContextThreshold config <? tokenCount)%Z.

Definition longContextRule (config : Config) (tokenCount : Z)
    (lastUsage : option Usage) : bool :=
  (lastUsageThreshold config tokenCount lastUsage || tokenCountThreshold config tokenCount)
  && configured (Policy.longContext (Router config)).

(** Lines 142-145: the guard of the subagent rule. *)
Definition subagentGuard (system : jval) : outcome bool :=
  if Js.nullish system then Ok false
  else if Js.gt (Js.getOpt system "length") 1
       then startsWithOpt (segmentText system) SUBAGENT_OPEN
       else Ok false.

(** Lines 171-172: [tools.some(tool => tool.type?.startsWith("web_search"))]. *)
Fixpoint someWebSearch (tools : list jval) : outcome bool :=
  match tools with
  | [] => Ok false
  | tool :: rest =>
      match Js.get tool "type" ≫= (fun ty => startsWithOpt ty "web_search") with
      | Throw e => Throw e
      | Ok true => Ok true
      | Ok false => someWebSearch rest
      end
  end.

(** Lines 157-177: the rules behind the subagent rule. *)
Definition laterRules (config : Config) (requested : string) : M (option string) := fun w =>
  let b := body (req w) in
  if JsString.startsWith "claude-3-5-haiku" requested
     && configured (Policy.background (Router config))
  then (Ok (Policy.background (Router config)),
        add_logged (LogInfo ("Using background model for " +:+ requested)) w)
  else if Js.truthy (thinking b) && configured (Policy.think (Router config))
  then (Ok (Policy.think (Router config)),
        add_logged (LogInfo ("Using think model for " +:+ Js.toString (thinking b))) w)
  else
    match tools b with
    | JArr ts =>
        match someWebSearch ts with
        | Throw e => (Throw e, w)
        | Ok found =>
            if found && configured (Policy.webSearch (Router config))
            then (Ok (Policy.webSearch (Router config)), w)
            else (Ok (Policy.default (Router config)), w)
        end
    | _ => (Ok (Policy.default (Router config)), w)
    end.

(** Lines 142-156, then the later rules. *)
Definition subagentRule (config : Config) (requested : string) : M (option string) := fun w =>
  let b := body (req w) in
  match subagentGuard (system b) with
  | Throw e => (Throw e, w)
  | Ok false => laterRules config requested w
  | Ok true =>
      match segmentText (system b) with
      | JStr text =>
          match JsString.matchBetween SUBAGENT_OPEN SUBAGENT_CLOSE text with
          | Some model1 =>
              let text' :=
                JsString.replace (SUBAGENT_OPEN +:+ model1 +:+ SUBAGENT_CLOSE) "" text in
              (Ok (Some model1),
               set_req (set_body (set_system (setSegmentText (system b) text') b) (req w)) w)
          | None => laterRules config requested w
          end
      | _ => laterRules config requested w
      end
  end.

(** Lines 106-178. The request is the one of the world. *)
Definition getUseModel (tokenCount : Z) (config : Config) (lastUsage : option Usage)
  : M (option string) := fun w =>
  match model (body (req w)) with
  | None => (Throw (Js.typeError "Cannot read properties of undefined, reading includes"), w)
  | Some requested =>
      if JsString.includes "," requested
      then (compoundSelector (heap w) config requested, w)
      else if longContextRule config tokenCount lastUsage
      then (Ok (Policy.longContext (Router config)),
            add_logged
              (LogInfo ("Using long context model due to token count: "
                        +:+ Js.decimal tokenCount +:+ ", threshold: "
                        +:+ Js.decimal (longContextThreshold config))) w)
      else subagentRule config requested w
  end.

(** ** The router *)

(** A custom router module: [(req, config, { event }) => model]. *)
Definition CustomRouter : Type := Req -> Config -> outcome (option string).

(** Modelled from the spec: the session usage cache of [./cache], which
    is not part of the sources at hand. The design document gives its
    interface as [get(sessionId) -> { input_tokens } | absent] and asks
    that a lookup without a session id be a miss. *)
Definition SessionUsageCache : Type := list (string * Usage).

Fixpoint cacheLookup (c : SessionUsageCache) (id : string) : option Usage :=
  match c with
  | [] => None
  | (k, u) :: rest => if String.eqb k id then Some u else cacheLookup rest id
  end.

Definition cacheGet (c : SessionUsageCache) (sessionId : option string) : option Usage :=
  id ← sessionId; cacheLookup c id.

(** What the module imports. *)
Record Imports := mkImports {
  enc_encode : string -> outcome (list nat);   (* tiktoken *)
  enc_misuse : jval -> outcome nat;
  json_text : jval -> string;                  (* JSON.stringify *)
  readFile : string -> outcome string;         (* fs/promises *)
  require : string -> outcome CustomRouter;
  sessionUsageCache : SessionUsageCache
}.

(** The [context] argument: the configuration and the provider service
    of the server, when it has one. *)
Record Context := mkContext {
  config : Config;
  getProvider : option (string -> bool)
}.

Definition SESSION_DELIMITER : string := "_session_".

(** Lines 248-254. *)
Definition parseSessionId : M unit := fun w =>
  let user_id := Js.getOpt (metadata (body (req w))) "user_id" in
  if Js.truthy user_id then
    match user_id with
    | JStr s =>
        let parts := JsString.split SESSION_DELIMITER s in
        if (1 <? length parts)%nat
        then (Ok tt, set_req (set_sessionId (parts !! 1%nat) (req w)) w)
        else (Ok tt, w)
    | _ => (Throw (Js.typeError "user_id.split is not a function"), w)
    end
  else (Ok tt, w).

(** [text?.includes('<env>')] on line 257: the string method, the array
    method, [undefined] on a nullish receiver; nothing else has it. *)
Definition includesEnv (text : jval) : outcome bool :=
  match text with
  | JUndef | JNull => Ok false
  | JStr s => Ok (JsString.includes "<env>" s)
  | JArr l => Ok (existsb (fun x => Js.eqStr x "<env>") l)
  | _ => Throw (Js.typeError "includes is not a function")
  end.

(** Lines 256-260; the result is the local [system]. *)
Definition rewriteSystemPrompt (env : Imports) (config : Config) : M jval := fun w =>
  let b := body (req w) in
  let system := match system b with JUndef => JArr [] | s => s end in
  if configured (REWRITE_SYSTEM_PROMPT config) then
    match Js.get system "length" with
    | Throw e => (Throw e, w)
    | Ok len =>
        if Js.gt len 1 then
          match includesEnv (segmentText system) with
          | Throw e => (Throw e, w)
          | Ok false => (Ok system, w)
          | Ok true =>
              match readFile env (default "" (REWRITE_SYSTEM_PROMPT config)) with
              | Throw e => (Throw e, w)
              | Ok prompt =>
                  match segmentText system with
                  | JStr text =>
                      let tail := default "" (last (JsString.split "<env>" text)) in
                      let system' := setSegmentText system (prompt +:+ "<env>" +:+ tail) in
                      (Ok system', set_req (set_body (set_system system' b) (req w)) w)
                  | _ => (Throw (Js.typeError "split is not a function"), w)
                  end
              end
          end
        else (Ok system, w)
    end
  else (Ok system, w).

(** Lines 270-280: the custom router, when one is configured. *)
Definition customRoute (env : Imports) (config : Config) (tokenCount : Z)
  : M (option string) :=
  if configured (CUSTOM_ROUTER_PATH config) then
    tryCatch
      (customRouter ← lift (require env (default "" (CUSTOM_ROUTER_PATH config)));
       modify (fun w => set_req (set_tokenCount (Some tokenCount) (req w)) w);;
       r ← reads req;
       lift (customRouter r config))
      (fun message =>
         log (LogError ("failed to load custom router: " +:+ message));;
         mret None)
  else mret None.

(** Lines 263-284: the body of the [try] block. *)
Definition routeModelBody (env : Imports) (config : Config)
    (lastMessageUsage : option Usage) (system : jval) : M unit :=
  b ← reads (fun w => body (req w));
  tokenCount ← lift (calculateTokenCount (enc_encode env) (enc_misuse env) (json_text env)
                       (messages b) system (tools b));
  custom ← customRoute env config tokenCount;
  model ← (if configured custom then mret custom
           else getUseModel tokenCount config lastMessageUsage);
  modify (fun w => set_req (set_body (set_model model (body (req w))) (req w)) w).

(** Lines 285-288: the [catch] block. *)
Definition routeModelHandler (config : Config) (message : string) : M unit :=
  log (LogError ("Error in router middleware: " +:+ message));;
  modify (fun w =>
            set_req (set_body (set_model (Policy.default (Router config))
                                 (body (req w))) (req w)) w).

(** Lines 262-288: the guarded decision. *)
Definition routeModel (env : Imports) (config : Config)
    (lastMessageUsage : option Usage) (system : jval) : M unit :=
  tryCatch (routeModelBody env config lastMessageUsage system)
           (routeModelHandler config).

(** Lines 181-260: what runs ahead of the [try] block. It yields
    [lastMessageUsage] and the local [system]. *)
Definition preamble (env : Imports) (context : Context) (requestId : nat)
  : M (option Usage * jval) :=
  applyDynamicApiKey (getProvider context) (config context) requestId;;
  parseSessionId;;
  lastMessageUsage ← reads (fun w => cacheGet (sessionUsageCache env) (sessionId (req w)));
  system ← rewriteSystemPrompt env (config context);
  mret (lastMessageUsage, system).

(** Lines 180-290. [requestId] is the symbol created on line 190. *)
Definition router (env : Imports) (context : Context) (requestId : nat) : M unit :=
  p ← preamble env context requestId;
  routeModel env (config context) p.1 p.2.

(** * Vocabulary of the properties *)

(** The session id in the words of the design document: everything
    behind the first occurrence of the delimiter. *)
Definition afterFirstDelimiter (user_id : string) : option string :=
  snd <$> JsString.breakOn SESSION_DELIMITER user_id.

(** The piece the router keeps: the text between the first occurrence
    of the delimiter and the next one, or the end of the identifier. *)
Definition secondPiece (user_id : string) : option string :=
  '(_, after) ← JsString.breakOn SESSION_DELIMITER user_id;
  Some (match JsString.breakOn SESSION_DELIMITER after with
        | Some (piece, _) => piece
        | None => after
        end).

(** The condition of the long-context rule in the words of the design
    document. *)
Definition longContextTrigger (config : Config) (tokenCount : Z)
    (lastUsage : option Usage) : Prop :=
  configured (Policy.longContext (Router config)) = true /\
  ((exists u, lastUsage = Some u /\
              (longContextThreshold config < input_tokens u)%Z /\
              (20000 < tokenCount)%Z)
   \/ (longContextThreshold config < tokenCount)%Z).

(** The line logged when the long-context rule decides. *)
Definition longContextLine (config : Config) (tokenCount : Z) : LogEvent :=
  LogInfo ("Using long context model due to token count: "
           +:+ Js.decimal tokenCount +:+ ", threshold: "
           +:+ Js.decimal (longContextThreshold config)).

(** No rule behind the long-context rule matches the request. *)
Definition noLaterRule (config : Config) (requested : string) (b : Body) : Prop :=
  subagentGuard (system b) = Ok false /\
  (JsString.startsWith "claude-3-5-haiku" requested
   && configured (Policy.background (Router config))) = false /\
  (Js.truthy (thinking b) && configured (Policy.think (Router config))) = false /\
  (forall ts, tools b = JArr ts ->
     exists found, someWebSearch ts = Ok found /\
                   (found && configured (Policy.webSearch (Router config))) = false).

Definition writeModel (m : option string) (w : World) : World :=
  set_req (set_body (set_model m (body (req w))) (req w)) w.

(** The entries of a list that carry a name, with that name. *)
Definition named (h : gmap loc Provider.t) (es : list entry) : list (string * loc) :=
  omap (fun e => l ← e; n ← entryName h e; Some (n, l)) es.

Definition seenStep (acc : list string) (n : string) : list string :=
  if bool_decide (n ∈ acc) then acc else acc ++ [n].

(** Names in the order of their first appearance. *)
Definition firstSeen (ns : list string) : list string := foldl seenStep [] ns.

Definition targetOk (t : ProviderTarget.t) : Prop :=
  ProviderTarget.references t <> [] /\
  ProviderTarget.primary t ∈ ProviderTarget.references t /\
  NoDup (ProviderTarget.references t).

Definition covers (m : list ProviderTarget.t) (n : string) (l : loc) : Prop :=
  exists t, t ∈ m /\ ProviderTarget.name t = n /\ l ∈ ProviderTarget.references t.

(** What holds of the map once the named entries [D] are registered. *)
Record Registered (D : list (string * loc)) (m : list ProviderTarget.t) : Prop := {
  reg_names : map ProviderTarget.name m = firstSeen (map fst D);
  reg_ok : Forall targetOk m;
  reg_covers : forall n l, (n, l) ∈ D -> covers m n l;
  reg_sound : forall t r, t ∈ m -> r ∈ ProviderTarget.references t ->
                          (ProviderTarget.name t, r) ∈ D;
  reg_primary : forall t, t ∈ m ->
      exists D1 D2, D = D1 ++ (ProviderTarget.name t, ProviderTarget.primary t) :: D2 /\
                    ProviderTarget.name t ∉ map fst D1
}.

(** The named entries of the two lists, capitalized list first. *)
Definition declared (h : gmap loc Provider.t) (config : Config) : list (string * loc) :=
  named h (default [] (Providers config)) ++ named h (default [] (providers config)).

(** The credential in effect for a provider: the [newKey] on top of its
    stack, else its raw credential field, else [null]. *)
Definition effectiveCredential (p : Provider.t) : cred :=
  currentKey p (stackOf p).

(** The provider once its bookkeeping fields are initialised (lines
    199-206): the snapshot taken if there was none, the stack an array. *)
Definition initialised (p : Provider.t) : Provider.t :=
  Provider.set_stack (stackOf p) (snapshotStatic p).

(** The provider once the override is pushed (line 216). *)
Definition pushed (token : string) (requestId : nat) (p : Provider.t) : Provider.t :=
  Provider.set_stack (stackOf p ++ [StackEntry.mk requestId token]) (initialised p).

(** One application of the loop body, as a later request may make it. *)
Record Application := mkApplication {
  app_service : option (string -> bool);
  app_token : string;
  app_requestId : nat;
  app_target : ProviderTarget.t
}.

Definition applyLater (later : list Application) (w : World) : World :=
  foldl (fun w a =>
           (applyOverride (app_service a) (app_token a) (app_requestId a)
              (app_target a) w).1)
        w later.

Definition isUndef (v : jval) : bool :=
  match v with JUndef => true | _ => false end.

(** The shapes on which the estimator completes whatever the tokenizer
    makes of a misuse: array elements that are not nullish, text where a
    field goes to the tokenizer as it is, a value where its
    serialisation goes there, and [tools] falsy or an array. *)
Definition partOk (part : jval) : bool :=
  negb (Js.nullish part) &&
  (let ty := Js.getOpt part "type" in
   if Js.eqStr ty "text" then Js.isString (Js.getOpt part "text")
   else if Js.eqStr ty "tool_use" then negb (isUndef (Js.getOpt part "input"))
   else if Js.eqStr ty "tool_result" then negb (isUndef (Js.getOpt part "content"))
   else true).

Definition messageOk (message : jval) : bool :=
  negb (Js.nullish message) &&
  match Js.getOpt message "content" with
  | JArr parts => forallb partOk parts
  | _ => true
  end.

Definition textPartOk (textPart : jval) : bool :=
  negb (Js.truthy textPart) || Js.isString textPart.

Definition systemItemOk (item : jval) : bool :=
  negb (Js.nullish item) &&
  (if Js.eqStr (Js.getOpt item "type") "text" then
     match Js.getOpt item "text" with
     | JArr textParts => forallb textPartOk textParts
     | _ => true
     end
   else true).

Definition toolOk (tool : jval) : bool :=
  negb (Js.nullish tool) &&
  (if Js.truthy (Js.getOpt tool "description")
   then Js.isString (Js.plus (Js.getOpt tool "name") (Js.getOpt tool "description"))
   else true).

Definition wellShaped (messages system tools : jval) : bool :=
  match messages with JArr ms => forallb messageOk ms | _ => true end
  && match system with JArr items => forallb systemItemOk items | _ => true end
  && (negb (Js.truthy tools)
      || match tools with JArr ts => forallb toolOk ts | _ => false end).

(** A count, when there is one, is not negative. *)
Definition nonneg (o : outcome Z) : Prop :=
  match o with Ok n => (0 <= n)%Z | Throw _ => True end.

(** The texts a well-shaped request sends to the tokenizer, in the order
    the estimator walks them: the content of a message when it is a
    string; of a content part, its text, its serialised input
    ([tool_use]) or its content, as it is when a string and serialised
    when not ([tool_result]); the system prompt when it is a string, else
    the texts of its text segments, an entry of a text array that is
    falsy counting as the empty text; of a tool, its name followed by its
    description, and its serialised input schema. *)
Definition asText (v : jval) : list string :=
  match v with JStr s => [s] | _ => [] end.

Definition partTexts (jt : jval -> string) (part : jval) : list string :=
  let ty := Js.getOpt part "type" in
  if Js.eqStr ty "text" then asText (Js.getOpt part "text")
  else if Js.eqStr ty "tool_use" then asText (JSON_stringify jt (Js.getOpt part "input"))
  else if Js.eqStr ty "tool_result" then
    let content := Js.getOpt part "content" in
    asText (if Js.isString content then content else JSON_stringify jt content)
  else [].

Definition messageTexts (jt : jval -> string) (message : jval) : list string :=
  match Js.getOpt message "content" with
  | JStr s => [s]
  | JArr parts => flat_map (partTexts jt) parts
  | _ => []
  end.

Definition textPartTexts (textPart : jval) : list string :=
  if Js.truthy textPart then asText textPart else [""].

Definition systemItemTexts (item : jval) : list string :=
  if Js.eqStr (Js.getOpt item "type") "text" then
    match Js.getOpt item "text" with
    | JStr s => [s]
    | JArr textParts => flat_map textPartTexts textParts
    | _ => []
    end
  else [].

Definition toolTexts (jt : jval -> string) (tool : jval) : list string :=
  (if Js.truthy (Js.getOpt tool "description")
   then asText (Js.plus (Js.getOpt tool "name") (Js.getOpt tool "description"))
   else [])
  ++ (if Js.truthy (Js.getOpt tool "input_schema")
      then asText (JSON_stringify jt (Js.getOpt tool "input_schema"))
      else []).

Definition tokenizerInputs (jt : jval -> string) (messages system tools : jval)
  : list string :=
  match messages with JArr ms => flat_map (messageTexts jt) ms | _ => [] end
  ++ match system with
     | JStr s => [s]
     | JArr items => flat_map systemItemTexts items
     | _ => []
     end
  ++ match tools with JArr ts => flat_map (toolTexts jt) ts | _ => [] end.

(** The tokenizer accepts a text: it does not raise on it. *)
Definition accepted (enc : string -> outcome (list nat)) (text : string) : bool :=
  isOk (enc text).

(** The number of tokens of a text, and of a list of texts. *)
Definition tokensOf (enc : string -> outcome (list nat)) (text : string) : Z :=
  match enc text with
  | Ok tokens => Z.of_nat (length tokens)
  | Throw _ => 0%Z
  end.

Definition tokenSum (enc : string -> outcome (list nat)) (texts : list string) : Z :=
  foldr (fun text sum => (tokensOf enc text + sum)%Z) 0%Z texts.

(** An outcome of the estimator that started at [acc] and was handed
    [texts]: the count of their tokens added to [acc] when the tokenizer
    accepts them all, a failure when it rejects one. *)
Definition counts (enc : string -> outcome (list nat)) (o : outcome Z) (acc : Z)
    (texts : list string) : Prop :=
  match o with
  | Ok n => forallb (accepted enc) texts = true /\ n = (acc + tokenSum enc texts)%Z
  | Throw _ => forallb (accepted enc) texts = false
  end.

(** What the [catch] block of the router leaves behind an exception of
    the decision path (lines 285-288): the error logged and the default
    model of the configuration written to the request. *)
Definition caught (config : Config) (e : string) (w : World) : World :=
  writeModel (Policy.default (Router config))
    (add_logged (LogError ("Error in router middleware: " +:+ e)) w).

(** The subagent directive of the request names the empty identifier. *)
Definition emptyDirective (w : World) : Prop :=
  exists text,
    segmentText (system (body (req w))) = JStr text /\
    JsString.matchBetween SUBAGENT_OPEN SUBAGENT_CLOSE text = Some "".

(** The custom router cannot be loaded, or throws when called. *)
Definition customRouterFails (env : Imports) (config : Config) (tokenCount : Z)
    (w : World) (e : string) : Prop :=
  require env (default "" (CUSTOM_ROUTER_PATH config)) = Throw e \/
  exists customRouter,
    require env (default "" (CUSTOM_ROUTER_PATH config)) = Ok customRouter /\
    customRouter (set_tokenCount (Some tokenCount) (req w)) config = Throw e.

(** ** Vocabulary of the further properties *)

(** The request reaches the rules behind the subagent rule: a plain
    model name, the long-context rule silent, no directive to read. *)
Definition reachesLaterRules (config : Config) (tokenCount : Z)
    (lastUsage : option Usage) (w : World) (requested : string) : Prop :=
  model (body (req w)) = Some requested /\
  JsString.includes "," requested = false /\
  longContextRule config tokenCount lastUsage = false /\
  subagentGuard (system (body (req w))) = Ok false.

(** A tool whose [type] is a string that starts with "web_search". *)
Definition isWebSearchTool (tool : jval) : bool :=
  match Js.getOpt tool "type" with
  | JStr s => JsString.startsWith "web_search" s
  | _ => false
  end.

(** A tool the search of line 172 passes over: not nullish, its [type]
    absent or a string that does not start with "web_search". *)
Definition passedTool (tool : jval) : bool :=
  negb (Js.nullish tool) &&
  match Js.getOpt tool "type" with
  | JUndef | JNull => true
  | JStr s => negb (JsString.startsWith "web_search" s)
  | _ => false
  end.

(** An entry a search for [provider] passes over: an object with a
    name that, lowered, is not the name searched. *)
Definition passedEntry (h : gmap loc Provider.t) (provider : string) (e : entry) : Prop :=
  exists p n, deref h e = Some p /\ Provider.name p = Some n /\
              JsString.toLowerCase n <> provider.

(** The [updateProvider] calls a pass makes for its overrides: one for
    each override whose provider the service knows, none without a
    service. *)
Definition notifications (getProvider : option (string -> bool)) (token : string)
    (overrides : list Override.t) : list (string * string) :=
  match getProvider with
  | Some known =>
      map (fun o => (ProviderTarget.name (Override.target o), token))
          (List.filter (fun o => known (ProviderTarget.name (Override.target o))) overrides)
  | None => []
  end.

(** A provider reports the token [T] under both spellings. *)
Definition reports (T : string) (p : Provider.t) : Prop :=
  Provider.api_key p = CStr T /\ Provider.apiKey p = CStr T.

(** The top of the stack of a provider, when there is one, is the
    credential its fields show. *)
Definition coherent (p : Provider.t) : Prop :=
  forall e, last (stackOf p) = Some e -> reports (StackEntry.newKey e) p.

(** The parts of a request the router only reads. *)
Definition sameData (w w' : World) : Prop :=
  messages (body (req w')) = messages (body (req w)) /\
  tools (body (req w')) = tools (body (req w)) /\
  thinking (body (req w')) = thinking (body (req w)) /\
  metadata (body (req w')) = metadata (body (req w)) /\
  bearerToken (req w') = bearerToken (req w).

(** The provider objects and the provider service are as they were. *)
Definition sameProviders (w w' : World) : Prop :=
  heap w' = heap w /\ updated w' = updated w.

(** A computation keeps a relation between the world it starts in and
    the world it ends in, however it ends. *)
Definition keeps (R : World -> World -> Prop) {A} (m : M A) : Prop :=
  forall w, R w (m w).2.

(** Line 256: the local [system], with its default. *)
Definition localSystem (b : Body) : jval :=
  match system b with
  | JUndef => JArr []
  | s => s
  end.

(** What the router leaves alone behind the credential overlay. *)
Definition untouched (w w' : World) : Prop := sameData w w' /\ sameProviders w w'.

(** * Sample requests and configurations *)

Definition requestWithUser (user_id : string) : Req :=
  mkReq (mkBody (Some "claude-sonnet") (JArr []) JUndef JUndef JUndef
           (JObj [("user_id", JStr user_id)]))
        JUndef None None None.

Definition worldOf (r : Req) : World := mkWorld r ∅ [] [].

Definition plainRequest (requested : string) : Req :=
  mkReq (mkBody (Some requested) (JArr []) JUndef JUndef JUndef JUndef)
        JUndef None None None.

Definition longModelPolicy : Policy.t :=
  Policy.mk (Some "default-model") None None None (Some "long-model") None.

Definition longModelConfig : Config :=
  mkConfig longModelPolicy (Some []) None None None.

Definition directiveSystem (text : string) : jval :=
  JArr [JObj [("type", JStr "text"); ("text", JStr "You are a coding agent.")];
        JObj [("type", JStr "text"); ("text", JStr text)]].

Definition directiveRequest (text : string) : Req :=
  mkReq (mkBody (Some "claude-sonnet") (JArr []) (directiveSystem text)
           JUndef JUndef JUndef)
        JUndef None None None.

Definition directiveText : string :=
  "<CCR-SUBAGENT-MODEL>gpt-x</CCR-SUBAGENT-MODEL> rest".

Definition openaiProvider : Provider.t :=
  Provider.mk (Some "openai") (CStr "sk-static") CUndef (Some ["gpt-4"]) CUndef None.

Definition openaiHeap : gmap loc Provider.t := {[ 0%nat := openaiProvider ]}.

Definition openaiConfig : Config :=
  mkConfig longModelPolicy (Some [Some 0%nat]) None None None.

Definition openaiWorld (requested : string) : World :=
  mkWorld (plainRequest requested) openaiHeap [] [].

(** A stand-in for the tokenizer: one token for each character, and a
    failure on a text that holds the end-of-text marker. *)
Definition sampleEncode (text : string) : outcome (list nat) :=
  if JsString.includes "<|endoftext|>" text
  then Throw "The text contains a special token that is not allowed: <|endoftext|>"
  else Ok (map nat_of_ascii (list_ascii_of_string text)).

Definition sampleImports : Imports :=
  mkImports sampleEncode
            (fun v => if Js.nullish v
                      then Throw (Js.typeError "Cannot read properties of undefined or null, reading length")
                      else Ok 0%nat)
            (fun _ => "{}")
            (fun _ => Throw "ENOENT: no such file or directory")
            (fun _ => Throw "Cannot find module")
            [].

Definition lowercaseOnlyConfig : Config :=
  mkConfig longModelPolicy None (Some [Some 0%nat]) None None.

Definition openaiAlias : Provider.t :=
  Provider.mk (Some "openai") CUndef (CStr "sk-alias") (Some ["gpt-4"]) CUndef None.

Definition twoListHeap : gmap loc Provider.t :=
  <[1%nat := openaiAlias]> openaiHeap.

Definition twoListConfig : Config :=
  mkConfig longModelPolicy (Some [Some 0%nat]) (Some [Some 1%nat]) None None.

Definition openaiTarget : ProviderTarget.t :=
  ProviderTarget.mk "openai" [0%nat; 1%nat] 0%nat.

Definition twoListWorld : World :=
  mkWorld (plainRequest "claude-sonnet") twoListHeap [] [].

Definition singleTarget : ProviderTarget.t :=
  ProviderTarget.mk "openai" [0%nat] 0%nat.

Definition sampleMessages : jval :=
  JArr [JObj [("role", JStr "user"); ("content", JStr "hello")];
        JObj [("role", JStr "assistant");
              ("content", JArr [JObj [("type", JStr "text"); ("text", JStr "hi")];
                                JObj [("type", JStr "image")]])];
        JNum 7].

Definition describedTools : jval :=
  JArr [JObj [("name", JStr "bash"); ("description", JStr "runs a command");
              ("input_schema", JObj [("type", JStr "object")])];
        JObj [("name", JStr "noop")]].

Definition markerMessages : jval :=
  JArr [JObj [("role", JStr "user"); ("content", JStr "tell me about <|endoftext|>")]].

Definition rewriteConfig : Config :=
  mkConfig longModelPolicy (Some []) None (Some "/etc/ccr/prompt.md") None.

Definition envRequest : Req :=
  mkReq (mkBody (Some "claude-sonnet") (JArr [])
           (directiveSystem "Context. <env>cwd: /tmp</env>") JUndef JUndef JUndef)
        JUndef None None None.

Definition customRouterConfig : Config :=
  mkConfig longModelPolicy (Some []) None None (Some "/etc/ccr/custom-router.js").

Definition haikuRequest (thinking_ tools_ : jval) : Req :=
  mkReq (mkBody (Some "claude-3-5-haiku-20241022") (JArr []) JUndef tools_ thinking_ JUndef)
        JUndef None None None.

Definition fullPolicy : Policy.t :=
  Policy.mk (Some "default-model") (Some "background-model") (Some "think-model")
            (Some "search-model") (Some "long-model") None.

Definition fullConfig : Config := mkConfig fullPolicy (Some []) None None None.

Definition searchTools : jval :=
  JArr [JObj [("name", JStr "bash")];
        JObj [("type", JStr "web_search_20250305"); ("name", JStr "web_search")]].

Definition sonnetRequest (thinking_ tools_ : jval) : Req :=
  mkReq (mkBody (Some "claude-sonnet") (JArr []) JUndef tools_ thinking_ JUndef)
        JUndef None None None.

Definition unclosedDirective : string := "<CCR-SUBAGENT-MODEL>gpt-x rest".

Definition mixedCaseProvider : Provider.t :=
  Provider.mk (Some "OpenRouter") CUndef CUndef (Some ["Anthropic/Claude"; "gpt-4"])
              CUndef None.

Definition mixedCaseHeap : gmap loc Provider.t :=
  <[1%nat := mixedCaseProvider]> openaiHeap.

Definition mixedCaseConfig : Config :=
  mkConfig fullPolicy (Some [Some 0%nat; Some 1%nat]) None None None.

Definition pickyRouter : CustomRouter :=
  fun r _ => Ok (match tokenCount r with
                 | Some _ => Some "custom-model"
                 | None => None
                 end).

Definition directiveTokens : Z := 74%Z.

Definition customImports : Imports :=
  mkImports (enc_encode sampleImports) (enc_misuse sampleImports) (json_text sampleImports)
            (fun _ => Ok "You are a careful agent. ")
            (fun _ => Ok pickyRouter)
            [("abc", mkUsage 70000)].

Definition envText : string := "Context. <env>cwd: /tmp</env> and <env>os: linux".

Definition envSystem : jval := directiveSystem envText.

Definition envWorld : World :=
  worldOf (mkReq (mkBody (Some "claude-sonnet") (JArr []) envSystem JUndef JUndef JUndef)
                 JUndef None None None).

Definition numericUserRequest : Req :=
  mkReq (mkBody (Some "claude-sonnet") (JArr []) JUndef JUndef JUndef
           (JObj [("user_id", JNum 42)]))
        (JStr "sk-caller") None None None.

Definition longText : string :=
  String.concat "" (repeat "All work and no play. " 1000).

Definition sessionRequest : Req :=
  mkReq (mkBody (Some "claude-sonnet")
           (JArr [JObj [("role", JStr "user"); ("content", JStr longText)]])
           JUndef JUndef JUndef
           (JObj [("user_id", JStr "user_42_session_abc")]))
        (JStr " sk-caller ") None None None.

Definition sessionWorld : World := mkWorld sessionRequest openaiHeap [] [].

Definition sessionImports : Imports :=
  mkImports (enc_encode sampleImports) (enc_misuse sampleImports) (json_text sampleImports)
            (readFile sampleImports) (require sampleImports)
            [("abc", mkUsage 70000)].

(** * Properties *)

(** ** Facts about the string methods *)

Section StringFacts.
Import JsString.
#[local] Arguments String.app !_ _ / : simpl nomatch.

Lemma prefix_app (p s : string) : startsWith p (p +:+ s) = true.
Proof.
  induction p as [|c p IH]; simpl; [done|].
  by rewrite Ascii.eqb_refl.
Qed.

Lemma drop_app (p s : string) : drop (String.length p) (p +:+ s) = s.
Proof. induction p as [|c p IH]; simpl; [by destruct s|exact IH]. Qed.

Lemma prefix_split (p s : string) :
  startsWith p s = true -> s = p +:+ drop (String.length p) s.
Proof.
  revert s. induction p as [|c p IH]; intros s Hp; simpl in *.
  - by destruct s.
  - destruct s as [|d s]; [discriminate|].
    destruct (Ascii.eqb c d) eqn:E; [|discriminate].
    apply Ascii.eqb_eq in E as ->. simpl. f_equal. by apply IH.
Qed.

Lemma string_app_assoc (a b c : string) : (a +:+ b) +:+ c = a +:+ (b +:+ c).
Proof. induction a as [|x a IH]; simpl; [done|by rewrite IH]. Qed.

(** [breakOn] cuts the string around an occurrence of the separator. *)
Lemma breakOn_Some (sep s a b : string) :
  breakOn sep s = Some (a, b) -> s = a +:+ sep +:+ b.
Proof.
  revert a b. induction s as [|c s IH]; intros a b.
  - simpl. destruct (startsWith sep "") eqn:Hp; [|discriminate].
    intros [= <- <-]. simpl. by apply prefix_split in Hp.
  - simpl. destruct (startsWith sep (String c s)) eqn:Hp.
    + intros [= <- <-]. simpl. by apply prefix_split in Hp.
    + destruct (breakOn sep s) as [[a' b']|] eqn:Hb; [|discriminate].
      intros [= <- <-]. simpl. f_equal. by apply IH.
Qed.

Lemma breakOn_prefix (sep s : string) :
  breakOn sep (sep +:+ s) = Some (EmptyString, s).
Proof.
  destruct (sep +:+ s) eqn:E; simpl; rewrite <- E, prefix_app, drop_app; done.
Qed.

Lemma splitGo_drop (sep : string) (k : nat) (s : string) :
  splitGo sep k s = splitGo sep 0 (drop k s).
Proof.
  revert s. induction k as [|k IH]; intros s; [done|].
  destruct s as [|c s]; [done|]. simpl. apply IH.
Qed.

Lemma prefix_nonempty (sep : string) :
  sep <> EmptyString -> startsWith sep EmptyString = false.
Proof. by destruct sep. Qed.

(** With the separator present, [split] yields the text ahead of its
    first occurrence and then the pieces of the remainder. *)
Lemma splitGo_breakOn_Some (sep s a b : string) :
  sep <> EmptyString ->
  breakOn sep s = Some (a, b) -> splitGo sep 0 s = a :: splitGo sep 0 b.
Proof.
  intros Hne. revert a b. induction s as [|c s IH]; intros a b.
  - simpl. rewrite prefix_nonempty by done. discriminate.
  - simpl. destruct (startsWith sep (String c s)) eqn:Hp.
    + intros [= <- <-]. f_equal. rewrite splitGo_drop. f_equal.
      destruct sep as [|d sep]; [done|]. simpl. by rewrite Nat.sub_0_r.
    + destruct (breakOn sep s) as [[a' b']|] eqn:Hb; [|discriminate].
      intros [= <- <-]. by rewrite (IH _ _ eq_refl).
Qed.

Lemma splitGo_breakOn_None (sep s : string) :
  breakOn sep s = None -> splitGo sep 0 s = [s].
Proof.
  induction s as [|c s IH]; [done|]. simpl.
  destruct (startsWith sep (String c s)); [discriminate|].
  destruct (breakOn sep s) as [[a b]|]; [discriminate|].
  intros _. by rewrite IH.
Qed.

Lemma split_nonempty_sep (sep s : string) :
  sep <> EmptyString -> split sep s = splitGo sep 0 s.
Proof. by destruct sep. Qed.

(** The first two pieces of a split, as the router reads them. *)
Lemma split_second (sep s a b : string) :
  sep <> EmptyString ->
  breakOn sep s = Some (a, b) ->
  (1 <? length (split sep s))%nat = true /\
  split sep s !! 1%nat =
    Some (match breakOn sep b with Some (piece, _) => piece | None => b end).
Proof.
  intros Hne Hb. rewrite split_nonempty_sep by done.
  rewrite (splitGo_breakOn_Some _ _ _ _ Hne Hb).
  destruct (breakOn sep b) as [[piece rest]|] eqn:Hb2.
  - by rewrite (splitGo_breakOn_Some _ _ _ _ Hne Hb2).
  - by rewrite (splitGo_breakOn_None _ _ Hb2).
Qed.

Lemma split_absent (sep s : string) :
  sep <> EmptyString -> breakOn sep s = None -> split sep s = [s].
Proof. intros Hne Hb. rewrite split_nonempty_sep by done. by apply splitGo_breakOn_None. Qed.

(** A text that opens with the marker and closes it later: the match
    captures what lies between, and removing the matched text leaves
    what follows the closing marker. *)
Lemma matchBetween_prefix (open close text g rest : string) :
  startsWith open text = true ->
  breakOn close (drop (String.length open) text) = Some (g, rest) ->
  matchBetween open close text = Some g /\
  replace (open +:+ g +:+ close) EmptyString text = rest.
Proof.
  intros Hp Hb. split.
  - destruct text; simpl; rewrite Hp, Hb; done.
  - apply prefix_split in Hp. apply breakOn_Some in Hb.
    rewrite Hp, Hb. unfold replace.
    rewrite <- !string_app_assoc, !string_app_assoc.
    replace (open +:+ g +:+ close +:+ rest)
      with ((open +:+ g +:+ close) +:+ rest) by (by rewrite !string_app_assoc).
    by rewrite breakOn_prefix.
Qed.

End StringFacts.

(** ** Session id (router, lines 248-255) *)

Lemma SESSION_DELIMITER_nonempty : SESSION_DELIMITER <> EmptyString.
Proof. discriminate. Qed.

(** C8, as stated, fails: with two delimiters in the user identifier the
    router keeps the piece between them, not everything behind the
    first one. *)
Lemma sessionId_not_everything_after :
  let w := worldOf (requestWithUser "u_session_a_session_b") in
  sessionId (req (parseSessionId w).2) = Some "a" /\
  afterFirstDelimiter "u_session_a_session_b" = Some "a_session_b" /\
  sessionId (req (parseSessionId w).2) <> afterFirstDelimiter "u_session_a_session_b".
Proof. vm_compute. repeat split; congruence. Qed.

(** C8 (amended). For a request whose user identifier is the string
    [user_id]: when the identifier contains the delimiter, the session
    id written to the request is the piece between the first occurrence
    of the delimiter and the next one (the end of the identifier when
    there is no other), which is everything behind the first occurrence
    when the delimiter occurs once; when the delimiter is absent the
    request is left as it was, and without a session id the lookup in
    the usage cache is a miss. *)
Theorem parseSessionId_second_piece (w : World) (user_id : string) :
  Js.getOpt (metadata (body (req w))) "user_id" = JStr user_id ->
  match JsString.breakOn SESSION_DELIMITER user_id with
  | Some (_, after) =>
      parseSessionId w =
        (Ok tt, set_req (set_sessionId (secondPiece user_id) (req w)) w) /\
      is_Some (secondPiece user_id) /\
      (JsString.includes SESSION_DELIMITER after = false ->
       secondPiece user_id = afterFirstDelimiter user_id)
  | None =>
      parseSessionId w = (Ok tt, w) /\
      (sessionId (req w) = None ->
       forall cache, cacheGet cache (sessionId (req (parseSessionId w).2)) = None)
  end.
Proof.
  intros Hu. unfold parseSessionId. rewrite Hu.
  destruct (JsString.breakOn SESSION_DELIMITER user_id) as [[a after]|] eqn:Hb.
  - assert (Js.truthy (JStr user_id) = true) as ->.
    { destruct user_id; [discriminate Hb|done]. }
    destruct (split_second _ _ _ _ SESSION_DELIMITER_nonempty Hb) as [Hlen H1].
    rewrite Hlen, H1. unfold secondPiece, afterFirstDelimiter. rewrite Hb. simpl.
    split; [done|]. split; [by eexists|].
    unfold JsString.includes.
    by destruct (JsString.breakOn SESSION_DELIMITER after) as [[??]|].
  - assert (parseSessionId_id :
      (if Js.truthy (JStr user_id)
       then (if (1 <? length (JsString.split SESSION_DELIMITER user_id))%nat
             then (Ok tt, set_req (set_sessionId
                     (JsString.split SESSION_DELIMITER user_id !! 1%nat) (req w)) w)
             else (Ok tt, w))
       else (Ok tt, w)) = (Ok tt, w)).
    { destruct (Js.truthy (JStr user_id)); [|done].
      by rewrite (split_absent _ _ SESSION_DELIMITER_nonempty Hb). }
    rewrite parseSessionId_id. split; [done|]. simpl. by intros ->.
Qed.

Lemma parseSessionId_second_piece_witness :
  parseSessionId (worldOf (requestWithUser "user_1_session_abc")) =
    (Ok tt, set_req (set_sessionId (secondPiece "user_1_session_abc")
                       (requestWithUser "user_1_session_abc"))
              (worldOf (requestWithUser "user_1_session_abc"))) /\
  is_Some (secondPiece "user_1_session_abc") /\
  (JsString.includes SESSION_DELIMITER "abc" = false ->
   secondPiece "user_1_session_abc" = afterFirstDelimiter "user_1_session_abc").
Proof.
  exact (parseSessionId_second_piece
           (worldOf (requestWithUser "user_1_session_abc")) "user_1_session_abc" eq_refl).
Defined.

(** ** Model selection *)

Section Selection.
#[local] Arguments String.app !_ _ / : simpl nomatch.

Variable config : Config.
Variable tokenCount : Z.
Variable lastUsage : option Usage.

Lemma assoc_setField (k : string) (v : jval) (fs : list (string * jval)) :
  Js.assoc k (setField k v fs) = v.
Proof.
  induction fs as [|[k' x] fs IH]; simpl.
  - by rewrite String.eqb_refl.
  - destruct (String.eqb k k') eqn:E; simpl; rewrite E; [done|exact IH].
Qed.

(** A request for a plain model name skips the compound selector. *)
Lemma getUseModel_plain (w : World) (requested : string) :
  model (body (req w)) = Some requested ->
  JsString.includes "," requested = false ->
  getUseModel tokenCount config lastUsage w =
    if longContextRule config tokenCount lastUsage
    then (Ok (Policy.longContext (Router config)),
          add_logged
            (LogInfo ("Using long context model due to token count: "
                      +:+ Js.decimal tokenCount +:+ ", threshold: "
                      +:+ Js.decimal (longContextThreshold config))) w)
    else subagentRule config requested w.
Proof. intros Hm Hi. unfold getUseModel. by rewrite Hm, Hi. Qed.

(** The rules behind the long-context rule log nothing, or one line
    that names the background or the think model. *)
Lemma laterRules_logged (requested : string) (w w' : World) (o : outcome (option string)) :
  laterRules config requested w = (o, w') ->
  logged w' = logged w \/
  (exists m, logged w' = logged w ++ [LogInfo ("Using background model for " +:+ m)]) \/
  (exists m, logged w' = logged w ++ [LogInfo ("Using think model for " +:+ m)]).
Proof.
  unfold laterRules.
  repeat case_match; intros [= <- <-]; simpl; eauto.
Qed.

Lemma subagentRule_logged (requested : string) (w w' : World) (o : outcome (option string)) :
  subagentRule config requested w = (o, w') ->
  logged w' = logged w \/
  (exists m, logged w' = logged w ++ [LogInfo ("Using background model for " +:+ m)]) \/
  (exists m, logged w' = logged w ++ [LogInfo ("Using think model for " +:+ m)]).
Proof.
  unfold subagentRule.
  repeat case_match; try (intros [= <- <-]; simpl; by eauto);
    apply laterRules_logged.
Qed.

Lemma longContextRule_trigger :
  longContextRule config tokenCount lastUsage = true <->
  longContextTrigger config tokenCount lastUsage.
Proof.
  unfold longContextRule, longContextTrigger, lastUsageThreshold, tokenCountThreshold.
  rewrite andb_true_iff, orb_true_iff, Z.ltb_lt. split.
  - intros [[H|H] Hc]; (split; [done|]).
    + destruct lastUsage as [u|]; [|discriminate].
      apply andb_true_iff in H as [H1 H2]. left. exists u. by rewrite <- !Z.ltb_lt.
    + by right.
  - intros [Hc [(u & -> & H1 & H2)|H]]; (split; [|done]).
    + left. apply andb_true_iff. by rewrite !Z.ltb_lt.
    + by right.
Qed.

End Selection.

(** C3. For a request whose model string has no comma, with the
    threshold 60000 when none is configured (a configured 0 is falsy
    and counts as none): the long-context rule
    decides (its model is returned and its line is logged) exactly when
    a long-context model is configured and either the last usage of the
    session has [input_tokens] above the threshold while the token count
    exceeds 20000, or the token count exceeds the threshold; otherwise
    the later rules decide. At the default threshold, 60001 tokens with
    the long-context model "long-model" yield "long-model", and 59999
    tokens without prior usage and without a later rule matching yield
    the default model. *)
Theorem long_context_rule (config : Config) (tokenCount : Z)
    (lastUsage : option Usage) (w : World) (requested : string) :
  model (body (req w)) = Some requested ->
  JsString.includes "," requested = false ->
  (Policy.longContextThreshold (Router config) = None ->
   longContextThreshold config = 60000%Z) /\
  (forall t, Policy.longContextThreshold (Router config) = Some t ->
             longContextThreshold config = if (t =? 0)%Z then 60000%Z else t) /\
  (longContextTrigger config tokenCount lastUsage <->
   getUseModel tokenCount config lastUsage w =
     (Ok (Policy.longContext (Router config)),
      add_logged (longContextLine config tokenCount) w)) /\
  (~ longContextTrigger config tokenCount lastUsage ->
   getUseModel tokenCount config lastUsage w = subagentRule config requested w) /\
  (Policy.longContextThreshold (Router config) = None ->
   Policy.longContext (Router config) = Some "long-model" ->
   tokenCount = 60001%Z ->
   (getUseModel tokenCount config lastUsage w).1 = Ok (Some "long-model")) /\
  (Policy.longContextThreshold (Router config) = None ->
   tokenCount = 59999%Z -> lastUsage = None ->
   noLaterRule config requested (body (req w)) ->
   getUseModel tokenCount config lastUsage w = (Ok (Policy.default (Router config)), w)).
Proof.
  intros Hm Hi.
  pose proof (getUseModel_plain config tokenCount lastUsage w requested Hm Hi) as Hg.
  pose proof (longContextRule_trigger config tokenCount lastUsage) as Ht.
  assert (Hthr : Policy.longContextThreshold (Router config) = None ->
                 longContextThreshold config = 60000%Z).
  { intros E. unfold longContextThreshold. by rewrite E. }
  split; [exact Hthr|].
  split; [intros t E; unfold longContextThreshold; by rewrite E|].
  split; [|split; [|split]].
  - split.
    + intros H. apply Ht in H. by rewrite Hg, H.
    + intros H. apply Ht. destruct (longContextRule config tokenCount lastUsage); [done|].
      rewrite Hg in H. exfalso.
      assert (Hl : logged (add_logged (longContextLine config tokenCount) w)
                   = logged w ++ [longContextLine config tokenCount]) by done.
      destruct (subagentRule_logged config requested w _ _ H) as [E|[[m E]|[m E]]];
        rewrite E in Hl.
      * apply (f_equal length) in Hl. rewrite length_app in Hl. simpl in Hl. lia.
      * apply app_inv_head in Hl. discriminate Hl.
      * apply app_inv_head in Hl. discriminate Hl.
  - intros H. rewrite Hg.
    destruct (longContextRule config tokenCount lastUsage) eqn:E; [|done].
    exfalso. apply H. by apply Ht.
  - intros E1 E2 ->. rewrite Hg.
    assert (longContextRule config 60001 lastUsage = true) as ->; [|by rewrite E2].
    apply longContextRule_trigger. split; [by rewrite E2|]. right. rewrite Hthr; [lia|done].
  - intros E1 -> -> (Hs & Hb & Hk & Hw). rewrite Hg.
    assert (longContextRule config 59999 None = false) as ->.
    { unfold longContextRule, lastUsageThreshold, tokenCountThreshold.
      rewrite (Hthr E1). done. }
    unfold subagentRule. rewrite Hs. unfold laterRules. rewrite Hb, Hk.
    destruct (tools (body (req w))) as [| | | | |ts| |] eqn:Et; try done.
    destruct (Hw ts eq_refl) as (found & -> & ->). done.
Qed.

Lemma long_context_rule_witness :
  (getUseModel 60001 longModelConfig None
     (worldOf (plainRequest "claude-sonnet"))).1 = Ok (Some "long-model") /\
  getUseModel 59999 longModelConfig None (worldOf (plainRequest "claude-sonnet"))
    = (Ok (Some "default-model"), worldOf (plainRequest "claude-sonnet")).
Proof.
  split.
  - exact (proj1 (proj2 (proj2 (proj2 (proj2
      (long_context_rule longModelConfig 60001 None
         (worldOf (plainRequest "claude-sonnet")) "claude-sonnet" eq_refl eq_refl)))))
      eq_refl eq_refl eq_refl).
  - refine (proj2 (proj2 (proj2 (proj2 (proj2
      (long_context_rule longModelConfig 59999 None
         (worldOf (plainRequest "claude-sonnet")) "claude-sonnet" eq_refl eq_refl)))))
      eq_refl eq_refl eq_refl _).
    repeat split; try reflexivity. intros ts Hts. discriminate Hts.
Defined.

(** ** The subagent directive *)

(** C9, as stated, fails: the long-context rule comes first. With 60001
    tokens and a long-context model the directive is neither honoured
    nor removed. *)
Lemma subagent_directive_preempted :
  let w := worldOf (directiveRequest directiveText) in
  JsString.startsWith SUBAGENT_OPEN directiveText = true /\
  (getUseModel 60001 longModelConfig None w).1 = Ok (Some "long-model") /\
  (getUseModel 60001 longModelConfig None w).1 <> Ok (Some "gpt-x") /\
  system (body (req (getUseModel 60001 longModelConfig None w).2))
    = directiveSystem directiveText.
Proof. vm_compute. repeat split; congruence. Qed.

(** C9 (amended). For a request that neither the compound selector nor
    the long-context rule decides, whose system prompt is a sequence
    with a second segment whose text opens with the marker and closes
    it later: the text is the marker-delimited directive followed by a
    rest; the identifier up to the first closing marker is returned as
    the model, and the directive is removed from the segment, whose
    text becomes the rest; the other segments and fields stay. *)
Theorem subagent_directive (config : Config) (tokenCount : Z)
    (lastUsage : option Usage) (w : World) (requested : string)
    (segments : list jval) (fields : list (string * jval)) (text id rest : string) :
  model (body (req w)) = Some requested ->
  JsString.includes "," requested = false ->
  longContextRule config tokenCount lastUsage = false ->
  system (body (req w)) = JArr segments ->
  segments !! 1%nat = Some (JObj fields) ->
  Js.assoc "text" fields = JStr text ->
  JsString.startsWith SUBAGENT_OPEN text = true ->
  JsString.breakOn SUBAGENT_CLOSE (JsString.drop (String.length SUBAGENT_OPEN) text)
    = Some (id, rest) ->
  let system' := JArr (<[1%nat := JObj (setField "text" (JStr rest) fields)]> segments) in
  text = SUBAGENT_OPEN +:+ id +:+ SUBAGENT_CLOSE +:+ rest /\
  getUseModel tokenCount config lastUsage w =
    (Ok (Some id),
     set_req (set_body (set_system system' (body (req w))) (req w)) w) /\
  segmentText system' = JStr rest.
Proof.
  intros Hm Hi Hl Hs H1 Ht Ho Hc system'.
  destruct (matchBetween_prefix _ _ _ _ _ Ho Hc) as [Hmatch Hrep].
  assert (Hnth : nth 1 segments JUndef = JObj fields) by (by rewrite nth_lookup, H1).
  assert (Hlen : (1 < length segments)%nat) by (by eapply lookup_lt_Some).
  split; [|split].
  - rewrite (prefix_split _ _ Ho) at 1. by rewrite (breakOn_Some _ _ _ _ Hc).
  - rewrite (getUseModel_plain _ _ _ _ _ Hm Hi), Hl.
    unfold subagentRule, subagentGuard. rewrite Hs.
    assert (Hseg : segmentText (JArr segments) = JStr text).
    { unfold segmentText. simpl. rewrite Hnth. exact Ht. }
    assert (Hgt : Js.gt (Js.getOpt (JArr segments) "length") 1 = true).
    { simpl. apply Z.ltb_lt. lia. }
    simpl Js.nullish. cbv iota. rewrite Hgt, Hseg. unfold startsWithOpt.
    rewrite Ho, Hmatch, Hrep. unfold setSegmentText. rewrite Hnth. done.
  - unfold system', segmentText. simpl.
    rewrite nth_lookup, list_lookup_insert_eq by done. simpl.
    unfold Js.getOpt. simpl. by rewrite assoc_setField.
Qed.

Lemma subagent_directive_witness :
  directiveText = SUBAGENT_OPEN +:+ "gpt-x" +:+ SUBAGENT_CLOSE +:+ " rest" /\
  getUseModel 0 longModelConfig None (worldOf (directiveRequest directiveText)) =
    (Ok (Some "gpt-x"),
     set_req (set_body (set_system (directiveSystem " rest")
                          (body (directiveRequest directiveText)))
                (directiveRequest directiveText))
       (worldOf (directiveRequest directiveText))) /\
  segmentText (directiveSystem " rest") = JStr " rest".
Proof.
  exact (subagent_directive longModelConfig 0 None
           (worldOf (directiveRequest directiveText)) "claude-sonnet"
           [JObj [("type", JStr "text"); ("text", JStr "You are a coding agent.")];
            JObj [("type", JStr "text"); ("text", JStr directiveText)]]
           [("type", JStr "text"); ("text", JStr directiveText)]
           directiveText "gpt-x" " rest"
           eq_refl eq_refl eq_refl eq_refl eq_refl eq_refl eq_refl eq_refl).
Defined.

(** ** The compound selector *)

(** C2 on the code: the name of the provider and the name of the model
    are lowered on the configured side only, so the selector of the
    design document's example, "OpenAI,GPT-4", finds nothing and comes
    back unchanged; the same selector written in lower case resolves. *)
Lemma compound_selector_mixed_case :
  (getUseModel 0 openaiConfig None (openaiWorld "OpenAI,GPT-4")).1
    = Ok (Some "OpenAI,GPT-4") /\
  (getUseModel 0 openaiConfig None (openaiWorld "OpenAI,GPT-4")).1
    <> Ok (Some "openai,gpt-4") /\
  (getUseModel 0 openaiConfig None (openaiWorld "openai,gpt-4")).1
    = Ok (Some "openai,gpt-4").
Proof. vm_compute. repeat split; congruence. Qed.

Lemma M_bind_unfold {A B} (m : M A) (f : A -> M B) (w : World) :
  (m ≫= f) w =
  match m w with
  | (Ok a, w') => f a w'
  | (Throw e, w') => (Throw e, w')
  end.
Proof. reflexivity. Qed.

(** With no entry of the searched list answering to the requested name,
    the selector returns the request. *)
Lemma findProvider_none (h : gmap loc Provider.t) (provider : option string)
    (ps : list entry) :
  Forall (fun e => exists p n, deref h e = Some p /\ Provider.name p = Some n /\
                               Some (JsString.toLowerCase n) <> provider) ps ->
  findProvider h provider ps = Ok None.
Proof.
  induction 1 as [|e ps (p & n & Hd & Hn & Hne) _ IH]; simpl; [done|].
  rewrite Hd, Hn. by rewrite decide_False.
Qed.

(** The [try] block, step by step. *)
Lemma routeModelBody_unfold (env : Imports) (config : Config)
    (lastMessageUsage : option Usage) (system : jval) (w : World) :
  routeModelBody env config lastMessageUsage system w =
  match calculateTokenCount (enc_encode env) (enc_misuse env) (json_text env)
          (messages (body (req w))) system (tools (body (req w))) with
  | Throw e => (Throw e, w)
  | Ok tokenCount =>
      match customRoute env config tokenCount w with
      | (Throw e, w1) => (Throw e, w1)
      | (Ok custom, w1) =>
          match (if configured custom then (Ok custom, w1)
                 else getUseModel tokenCount config lastMessageUsage w1) with
          | (Ok m, w2) => (Ok tt, writeModel m w2)
          | (Throw e, w2) => (Throw e, w2)
          end
      end
  end.
Proof.
  unfold routeModelBody. rewrite M_bind_unfold. unfold reads at 1.
  rewrite M_bind_unfold. unfold lift at 1.
  destruct (calculateTokenCount _ _ _ _ _) as [tc|e]; [|done].
  rewrite M_bind_unfold.
  destruct (customRoute env config tc w) as [[custom|e] w1]; [|done].
  rewrite M_bind_unfold.
  destruct (configured custom); [done|].
  by destruct (getUseModel tc config lastMessageUsage w1) as [[m|e] w2].
Qed.

Lemma routeModel_unfold (env : Imports) (config : Config)
    (lastMessageUsage : option Usage) (system : jval) (w : World) :
  routeModel env config lastMessageUsage system w =
  match routeModelBody env config lastMessageUsage system w with
  | (Ok a, w') => (Ok a, w')
  | (Throw e, w') =>
      (Ok tt, writeModel (Policy.default (Router config))
                (add_logged (LogError ("Error in router middleware: " +:+ e)) w'))
  end.
Proof. reflexivity. Qed.

Lemma customRoute_absent (env : Imports) (config : Config) (tokenCount : Z) (w : World) :
  configured (CUSTOM_ROUTER_PATH config) = false ->
  customRoute env config tokenCount w = (Ok None, w).
Proof. intros Hc. unfold customRoute. by rewrite Hc. Qed.

(** No entry of the searched list answers to the requested name: the
    search finds nothing, unless it fails on an entry without a name. *)
Lemma findProvider_no_match (h : gmap loc Provider.t) (provider : option string)
    (ps : list entry) :
  (forall e p n, e ∈ ps -> deref h e = Some p -> Provider.name p = Some n ->
                 Some (JsString.toLowerCase n) <> provider) ->
  findProvider h provider ps = Ok None \/ exists e, findProvider h provider ps = Throw e.
Proof.
  induction ps as [|e ps IH]; simpl; intros Hno; [by left|].
  destruct (deref h e) as [p|] eqn:Hd; [|right; by eexists].
  destruct (Provider.name p) as [n|] eqn:Hn; [|right; by eexists].
  rewrite decide_False.
  - apply IH. intros e' p' n' Hin. apply Hno. apply elem_of_cons. by right.
  - apply (Hno e p n); [apply elem_of_cons; by left|done..].
Qed.

(** With no custom router configured, a failure of the built-in
    selection leaves the default model on the request. *)
Lemma routeModel_getUseModel_throws (env : Imports) (config : Config)
    (lastMessageUsage : option Usage) (system : jval) (w : World) :
  configured (CUSTOM_ROUTER_PATH config) = false ->
  (forall tokenCount, exists e,
     getUseModel tokenCount config lastMessageUsage w = (Throw e, w)) ->
  (routeModel env config lastMessageUsage system w).1 = Ok tt /\
  model (body (req (routeModel env config lastMessageUsage system w).2))
    = Policy.default (Router config).
Proof.
  intros Hc Hg. rewrite routeModel_unfold, routeModelBody_unfold.
  destruct (calculateTokenCount _ _ _ _ _) as [tc|e]; [|done].
  rewrite (customRoute_absent _ _ _ _ Hc). simpl configured. cbv iota.
  destruct (Hg tc) as [e ->]. done.
Qed.

(** C10. The compound selector searches the capitalized [Providers]
    list and nothing else: its result does not depend on the lowercase
    list; when no entry of the capitalized list answers to the requested
    provider name, whatever the lowercase list declares, the lookup
    matches nothing: the requested string comes back (or the lookup
    throws on an entry without a name); and when the capitalized list is absent the
    lookup throws, and the router, with no custom router in the way,
    writes the configured default model to the request. *)
Theorem compound_selector_capitalized_only (env : Imports) (config : Config)
    (lastUsage : option Usage) (system : jval) (w : World) (requested : string) :
  model (body (req w)) = Some requested ->
  JsString.includes "," requested = true ->
  (forall lower tokenCount,
     getUseModel tokenCount
       (mkConfig (Router config) (Providers config) lower
          (REWRITE_SYSTEM_PROMPT config) (CUSTOM_ROUTER_PATH config)) lastUsage w
     = getUseModel tokenCount config lastUsage w) /\
  (forall ps tokenCount,
     Providers config = Some ps ->
     (forall e p n, e ∈ ps -> deref (heap w) e = Some p -> Provider.name p = Some n ->
                    Some (JsString.toLowerCase n)
                      <> JsString.split "," requested !! 0%nat) ->
     getUseModel tokenCount config lastUsage w = (Ok (Some requested), w) \/
     exists e, getUseModel tokenCount config lastUsage w = (Throw e, w)) /\
  (forall ps tokenCount,
     Providers config = Some ps ->
     Forall (fun e => exists p n, deref (heap w) e = Some p /\ Provider.name p = Some n /\
                        Some (JsString.toLowerCase n)
                          <> JsString.split "," requested !! 0%nat) ps ->
     getUseModel tokenCount config lastUsage w = (Ok (Some requested), w)) /\
  (Providers config = None ->
   (forall tokenCount, exists e,
      getUseModel tokenCount config lastUsage w = (Throw e, w)) /\
   (configured (CUSTOM_ROUTER_PATH config) = false ->
    (routeModel env config lastUsage system w).1 = Ok tt /\
    model (body (req (routeModel env config lastUsage system w).2))
      = Policy.default (Router config))).
Proof.
  intros Hm Hi. split; [|split; [|split]].
  - intros lower tc. unfold getUseModel. by rewrite Hm, Hi.
  - intros ps tc Hp Hno. unfold getUseModel. rewrite Hm, Hi.
    unfold compoundSelector. rewrite Hp.
    destruct (findProvider_no_match _ _ _ Hno) as [->|[e ->]]; [by left|right; by eexists].
  - intros ps tc Hp Hall. unfold getUseModel. rewrite Hm, Hi.
    unfold compoundSelector. rewrite Hp, (findProvider_none _ _ _ Hall). done.
  - intros Hp.
    assert (Hthrow : forall tokenCount, exists e,
              getUseModel tokenCount config lastUsage w = (Throw e, w)).
    { intros tc. unfold getUseModel. rewrite Hm, Hi.
      unfold compoundSelector. rewrite Hp. by eexists. }
    split; [exact Hthrow|].
    intros Hc. by apply routeModel_getUseModel_throws.
Qed.

Lemma compound_selector_capitalized_only_witness :
  (routeModel sampleImports lowercaseOnlyConfig None (JArr [])
     (openaiWorld "openai,gpt-4")).1 = Ok tt /\
  model (body (req (routeModel sampleImports lowercaseOnlyConfig None (JArr [])
                      (openaiWorld "openai,gpt-4")).2))
    = Some "default-model".
Proof.
  exact (proj2 (proj2 (proj2 (proj2
           (compound_selector_capitalized_only sampleImports lowercaseOnlyConfig
              None (JArr []) (openaiWorld "openai,gpt-4") "openai,gpt-4"
              eq_refl eq_refl))) eq_refl) eq_refl).
Defined.

(** ** The provider registry *)

Section RegistryFacts.

Variable h : gmap loc Provider.t.

Lemma registerNamed_names (n : string) (l : loc) (m : list ProviderTarget.t) :
  map ProviderTarget.name (registerNamed n l m) =
  if bool_decide (n ∈ map ProviderTarget.name m)
  then map ProviderTarget.name m
  else map ProviderTarget.name m ++ [n].
Proof.
  induction m as [|t m IH]; simpl.
  - done.
  - destruct (String.eqb (ProviderTarget.name t) n) eqn:E.
    + apply String.eqb_eq in E. subst n.
      rewrite (bool_decide_true (_ ∈ _ :: _)) by (apply elem_of_cons; by left).
      by destruct (bool_decide (l ∈ ProviderTarget.references t)).
    + apply String.eqb_neq in E. simpl. rewrite IH.
      destruct (bool_decide (n ∈ map ProviderTarget.name m)) eqn:Hin.
      * apply bool_decide_eq_true in Hin.
        by rewrite bool_decide_true by (apply elem_of_cons; by right).
      * apply bool_decide_eq_false in Hin.
        rewrite bool_decide_false; [done|].
        rewrite elem_of_cons. intros [->|?]; done.
Qed.

Lemma registerNamed_ok (n : string) (l : loc) (m : list ProviderTarget.t) :
  Forall targetOk m -> Forall targetOk (registerNamed n l m).
Proof.
  induction 1 as [|t m (Hne & Hp & Hnd) Hm IH]; simpl.
  - constructor; [|constructor].
    repeat split; simpl; [done|by apply list_elem_of_singleton|apply NoDup_singleton].
  - destruct (String.eqb (ProviderTarget.name t) n).
    + constructor; [|done]. case_bool_decide as Hin; [done|].
      repeat split; simpl.
      * by destruct (ProviderTarget.references t).
      * apply elem_of_app. by left.
      * apply NoDup_app. repeat split; [done| |apply NoDup_singleton].
        intros x Hx ->%list_elem_of_singleton. done.
    + by constructor.
Qed.

Lemma registerNamed_covers (n : string) (l : loc) (m : list ProviderTarget.t) :
  covers (registerNamed n l m) n l.
Proof.
  induction m as [|t m (t' & Hin & Hn & Hl)]; simpl.
  - eexists. split; [apply elem_of_cons; by left|]. simpl.
    split; [done|]. by apply list_elem_of_singleton.
  - destruct (String.eqb (ProviderTarget.name t) n) eqn:E.
    + apply String.eqb_eq in E. eexists. split; [apply elem_of_cons; by left|].
      case_bool_decide; simpl; split; try done. apply elem_of_app. right.
      by apply list_elem_of_singleton.
    + exists t'. split; [apply elem_of_cons; by right|done].
Qed.

Lemma registerNamed_mono (n : string) (l : loc) (m : list ProviderTarget.t)
    (n' : string) (l' : loc) :
  covers m n' l' -> covers (registerNamed n l m) n' l'.
Proof.
  intros (t' & Hin & Hn & Hl). induction m as [|t m IH]; [by apply elem_of_nil in Hin|].
  simpl. apply elem_of_cons in Hin as [<-|Hin].
  - destruct (String.eqb (ProviderTarget.name t') n).
    + eexists. split; [apply elem_of_cons; by left|].
      case_bool_decide; simpl; split; try done. apply elem_of_app. by left.
    + exists t'. split; [apply elem_of_cons; by left|done].
  - destruct (String.eqb (ProviderTarget.name t) n).
    + exists t'. split; [apply elem_of_cons; by right|done].
    + destruct (IH Hin) as (t'' & ? & ? & ?).
      exists t''. split; [apply elem_of_cons; by right|done].
Qed.

Lemma registerNamed_sound (n : string) (l : loc) (m : list ProviderTarget.t)
    (D : list (string * loc)) :
  (forall t r, t ∈ m -> r ∈ ProviderTarget.references t ->
               (ProviderTarget.name t, r) ∈ D) ->
  forall t r, t ∈ registerNamed n l m -> r ∈ ProviderTarget.references t ->
              (ProviderTarget.name t, r) ∈ D ++ [(n, l)].
Proof.
  induction m as [|t0 m IH]; simpl; intros HD t r Ht Hr.
  - apply list_elem_of_singleton in Ht as ->. simpl in *.
    apply list_elem_of_singleton in Hr as ->. apply elem_of_app. right.
    by apply list_elem_of_singleton.
  - destruct (String.eqb (ProviderTarget.name t0) n) eqn:E.
    + apply String.eqb_eq in E. apply elem_of_cons in Ht as [->|Ht].
      * case_bool_decide; simpl in *.
        -- apply elem_of_app. left. apply HD; [apply elem_of_cons; by left|done].
        -- apply elem_of_app in Hr as [Hr|Hr]; apply elem_of_app.
           ++ left. apply HD; [apply elem_of_cons; by left|done].
           ++ right. apply list_elem_of_singleton in Hr as ->. rewrite E.
              by apply list_elem_of_singleton.
      * apply elem_of_app. left. apply HD; [apply elem_of_cons; by right|done].
    + apply elem_of_cons in Ht as [->|Ht].
      * apply elem_of_app. left. apply HD; [apply elem_of_cons; by left|done].
      * apply IH; [|done..]. intros. apply HD; [apply elem_of_cons; by right|done].
Qed.

Lemma seenStep_fold_elem (ns acc : list string) (x : string) :
  x ∈ foldl seenStep acc ns <-> x ∈ acc \/ x ∈ ns.
Proof.
  revert acc. induction ns as [|n ns IH]; intros acc; simpl.
  - rewrite elem_of_nil. tauto.
  - rewrite IH, elem_of_cons. unfold seenStep. case_bool_decide as Hin.
    + split; [tauto|]. intros [?|[->|?]]; tauto.
    + rewrite elem_of_app, list_elem_of_singleton. tauto.
Qed.

Lemma seenStep_fold_NoDup (ns acc : list string) :
  NoDup acc -> NoDup (foldl seenStep acc ns).
Proof.
  revert acc. induction ns as [|n ns IH]; intros acc Hnd; simpl; [done|].
  apply IH. unfold seenStep. case_bool_decide as Hin; [done|].
  apply NoDup_app. repeat split; [done| |apply NoDup_singleton].
  intros x Hx ->%list_elem_of_singleton. done.
Qed.

Lemma firstSeen_snoc (ns : list string) (n : string) :
  firstSeen (ns ++ [n]) = seenStep (firstSeen ns) n.
Proof. unfold firstSeen. by rewrite foldl_app. Qed.

Lemma firstSeen_elem (ns : list string) (x : string) : x ∈ firstSeen ns <-> x ∈ ns.
Proof.
  unfold firstSeen.
  rewrite (seenStep_fold_elem ns [] x), elem_of_nil. tauto.
Qed.

Lemma NoDup_map_eq {A B} (f : A -> B) (l : list A) (x y : A) :
  NoDup (map f l) -> x ∈ l -> y ∈ l -> f x = f y -> x = y.
Proof.
  induction l as [|a l IH]; simpl; [by intros _ ?%elem_of_nil|].
  intros [Ha Hnd]%NoDup_cons [->|Hx]%elem_of_cons [->|Hy]%elem_of_cons E; [done| | |by apply IH].
  - exfalso. apply Ha. rewrite E. by apply (list_elem_of_fmap_2 f).
  - exfalso. apply Ha. rewrite <- E. by apply (list_elem_of_fmap_2 f).
Qed.

(** A new target takes the registered entry as its primary; an
    existing one keeps its primary. *)
Lemma registerNamed_primary (n : string) (l : loc) (m : list ProviderTarget.t)
    (t : ProviderTarget.t) :
  t ∈ registerNamed n l m ->
  (exists t0, t0 ∈ m /\ ProviderTarget.name t = ProviderTarget.name t0 /\
              ProviderTarget.primary t = ProviderTarget.primary t0) \/
  (ProviderTarget.name t = n /\ ProviderTarget.primary t = l /\
   n ∉ map ProviderTarget.name m).
Proof.
  induction m as [|t0 m IH]; simpl.
  - intros ->%list_elem_of_singleton. right. repeat split. apply not_elem_of_nil.
  - destruct (String.eqb (ProviderTarget.name t0) n) eqn:E.
    + intros [->|Ht]%elem_of_cons; left.
      * exists t0. split; [apply elem_of_cons; by left|]. by case_bool_decide.
      * exists t. split; [apply elem_of_cons; by right|done].
    + apply String.eqb_neq in E. intros [->|Ht]%elem_of_cons.
      * left. exists t0. split; [apply elem_of_cons; by left|done].
      * destruct (IH Ht) as [(t1 & ? & ? & ?)|(? & ? & Hn)].
        -- left. exists t1. split; [apply elem_of_cons; by right|done].
        -- right. repeat split; try done. rewrite elem_of_cons. intros [?|?]; by subst.
Qed.

Lemma Registered_nil : Registered [] [].
Proof.
  split; try done.
  - intros n l Hin. by apply elem_of_nil in Hin.
  - intros t r Hin. by apply elem_of_nil in Hin.
  - intros t Hin. by apply elem_of_nil in Hin.
Qed.

Lemma Registered_step (D : list (string * loc)) (m : list ProviderTarget.t)
    (n : string) (l : loc) :
  Registered D m -> Registered (D ++ [(n, l)]) (registerNamed n l m).
Proof.
  intros [Hn Hok Hc Hs Hp]. split.
  - rewrite registerNamed_names, map_app. simpl map.
    rewrite firstSeen_snoc. unfold seenStep. by rewrite Hn.
  - by apply registerNamed_ok.
  - intros n' l' [Hin|[= -> ->]%list_elem_of_singleton]%elem_of_app.
    + apply registerNamed_mono. by apply Hc.
    + apply registerNamed_covers.
  - by apply registerNamed_sound.
  - intros t Ht. destruct (registerNamed_primary _ _ _ _ Ht) as [(t0 & Ht0 & En & Ep)|(En & Ep & Hnew)].
    + destruct (Hp t0 Ht0) as (D1 & D2 & -> & Hfresh).
      exists D1, (D2 ++ [(n, l)]). rewrite En, Ep. split; [|done].
      by rewrite <- app_assoc.
    + exists D, []. rewrite En, Ep. split; [done|].
      rewrite Hn in Hnew. by rewrite <- firstSeen_elem.
Qed.

Lemma Registered_fold (es : list entry) (D : list (string * loc))
    (m : list ProviderTarget.t) :
  Registered D m -> Registered (D ++ named h es) (foldl (registerProvider h) m es).
Proof.
  revert D m. induction es as [|e es IH]; intros D m HR; simpl.
  - by rewrite app_nil_r.
  - unfold named. simpl. unfold registerProvider at 2.
    destruct e as [l|]; simpl; [|by apply IH].
    destruct (entryName h (Some l)) as [n|]; simpl; [|by apply IH].
    rewrite (cons_middle (n, l)), app_assoc. apply IH. by apply Registered_step.
Qed.

Lemma Registered_providers (o : option (list entry)) (D : list (string * loc))
    (m : list ProviderTarget.t) :
  Registered D m -> Registered (D ++ named h (default [] o)) (registerProviders h o m).
Proof.
  destruct o as [es|]; simpl; [apply Registered_fold|]. by rewrite app_nil_r.
Qed.

End RegistryFacts.

Lemma named_elem (h : gmap loc Provider.t) (es : list entry) (n : string) (l : loc) :
  (n, l) ∈ named h es <-> Some l ∈ es /\ entryName h (Some l) = Some n.
Proof.
  unfold named. rewrite list_elem_of_omap. split.
  - intros ([l'|] & Hin & He); [|discriminate]. simpl in He.
    destruct (entryName h (Some l')) as [n'|] eqn:En; [|discriminate].
    simpl in He. by injection He as -> ->.
  - intros [Hin En]. exists (Some l). split; [done|]. simpl. by rewrite En.
Qed.

Lemma collectProviderTargets_registered (h : gmap loc Provider.t) (config : Config) :
  Registered (declared h config) (collectProviderTargets h config).
Proof.
  unfold collectProviderTargets, declared.
  apply Registered_providers.
  apply (Registered_providers h (Providers config) [] []), Registered_nil.
Qed.

(** C6. [collectProviderTargets] registers the capitalized list and then
    the lowercase list. The targets are keyed by name, in the order in
    which the names are first seen; every named entry is among the
    references of the target of its name, and every reference of a
    target is an entry declared under that name; two entries of the
    same name, one in each list, end up in one and the same target, the
    only one of that name; and in every target the references are not
    empty, hold no object twice and contain the primary, which is the
    first entry declared under the name. *)
Theorem collectProviderTargets_merge (h : gmap loc Provider.t) (config : Config) :
  let targets := collectProviderTargets h config in
  targets = registerProviders h (providers config)
              (registerProviders h (Providers config) []) /\
  map ProviderTarget.name targets = firstSeen (map fst (declared h config)) /\
  NoDup (map ProviderTarget.name targets) /\
  (forall n l, (n, l) ∈ declared h config ->
     exists t, t ∈ targets /\ ProviderTarget.name t = n /\
               l ∈ ProviderTarget.references t) /\
  (forall t r, t ∈ targets -> r ∈ ProviderTarget.references t ->
     (ProviderTarget.name t, r) ∈ declared h config) /\
  (forall n l1 l2,
     Some l1 ∈ default [] (Providers config) -> entryName h (Some l1) = Some n ->
     Some l2 ∈ default [] (providers config) -> entryName h (Some l2) = Some n ->
     exists t, t ∈ targets /\ ProviderTarget.name t = n /\
               l1 ∈ ProviderTarget.references t /\
               l2 ∈ ProviderTarget.references t /\
               forall t', t' ∈ targets -> ProviderTarget.name t' = n -> t' = t) /\
  (forall t, t ∈ targets ->
     ProviderTarget.references t <> [] /\
     ProviderTarget.primary t ∈ ProviderTarget.references t /\
     NoDup (ProviderTarget.references t) /\
     exists D1 D2,
       declared h config
         = D1 ++ (ProviderTarget.name t, ProviderTarget.primary t) :: D2 /\
       ProviderTarget.name t ∉ map fst D1).
Proof.
  intros targets.
  destruct (collectProviderTargets_registered h config) as [Hn Hok Hc Hs Hp].
  fold targets in Hn, Hok, Hc, Hs, Hp.
  assert (Hnd : NoDup (map ProviderTarget.name targets)).
  { rewrite Hn. apply seenStep_fold_NoDup, NoDup_nil_2. }
  split; [done|]. split; [done|]. split; [done|]. split; [exact Hc|].
  split; [exact Hs|]. split.
  - intros n l1 l2 H1 E1 H2 E2.
    destruct (Hc n l1) as (t & Ht & Etn & Hl1).
    { apply elem_of_app. left. by apply named_elem. }
    destruct (Hc n l2) as (t2 & Ht2 & Etn2 & Hl2).
    { apply elem_of_app. right. by apply named_elem. }
    assert (t2 = t) as ->.
    { apply (NoDup_map_eq ProviderTarget.name targets); [done..|congruence]. }
    exists t. repeat split; try done.
    intros t' Ht' En'. apply (NoDup_map_eq ProviderTarget.name targets); [done..|congruence].
  - intros t Ht. rewrite Forall_forall in Hok.
    destruct (Hok t Ht) as (? & ? & ?). repeat split; try done. by apply Hp.
Qed.

Lemma collectProviderTargets_merge_witness :
  exists t, t ∈ collectProviderTargets twoListHeap twoListConfig /\
            ProviderTarget.name t = "openai" /\
            0%nat ∈ ProviderTarget.references t /\
            1%nat ∈ ProviderTarget.references t /\
            forall t', t' ∈ collectProviderTargets twoListHeap twoListConfig ->
                       ProviderTarget.name t' = "openai" -> t' = t.
Proof.
  refine (proj1 (proj2 (proj2 (proj2 (proj2 (proj2
            (collectProviderTargets_merge twoListHeap twoListConfig))))))
          "openai" 0%nat 1%nat _ eq_refl _ eq_refl);
    apply list_elem_of_singleton; reflexivity.
Defined.

(** ** The credential overlay *)

Section OverlayFacts.

Variable getProvider : option (string -> bool).
Variable token : string.
Variable requestId : nat.

Lemma stackOf_snapshotStatic (p : Provider.t) : stackOf (snapshotStatic p) = stackOf p.
Proof. unfold snapshotStatic. by case_decide. Qed.

Lemma currentKey_initialised (p : Provider.t) :
  currentKey (initialised p) (stackOf (snapshotStatic p)) = effectiveCredential p.
Proof.
  rewrite stackOf_snapshotStatic. unfold effectiveCredential, currentKey, initialised.
  destruct (last (stackOf p)); [done|]. unfold snapshotStatic. by case_decide.
Qed.

Lemma initialised_id (p : Provider.t) :
  Provider._static_api_key p <> CUndef ->
  Provider._dynamic_api_key_stack p <> None ->
  initialised p = p.
Proof.
  intros Hs Hk. unfold initialised, snapshotStatic, stackOf.
  rewrite decide_False by done. destruct p as [n k1 k2 ms s [st|]]; simpl in *; done.
Qed.

Lemma writeKeys_lookup (references : list loc) (h : gmap loc Provider.t) (l : loc) :
  writeKeys token references h !! l =
  if bool_decide (l ∈ references) then Provider.set_keys token <$> h !! l else h !! l.
Proof.
  revert h. induction references as [|r rs IH]; intros h; simpl; [done|].
  rewrite IH, lookup_alter.
  destruct (decide (r = l)) as [->|Hne].
  - rewrite (bool_decide_true (l ∈ l :: rs)) by (apply elem_of_cons; by left).
    destruct (h !! l); simpl; by case_bool_decide.
  - destruct (bool_decide (l ∈ rs)) eqn:E.
    + apply bool_decide_eq_true in E.
      by rewrite bool_decide_true by (apply elem_of_cons; by right).
    + apply bool_decide_eq_false in E.
      rewrite bool_decide_false; [done|]. rewrite elem_of_cons. intros [?|?]; by subst.
Qed.

Lemma notifyService_heap (name : string) (w : World) :
  heap (notifyService getProvider token name w) = heap w /\
  req (notifyService getProvider token name w) = req w /\
  logged (notifyService getProvider token name w) = logged w.
Proof. unfold notifyService. destruct getProvider as [f|]; [|done]. by destruct (f name). Qed.

(** The loop body when the token is the credential in effect. *)
Lemma applyOverride_skip (target : ProviderTarget.t) (w : World) (p0 : Provider.t) :
  heap w !! ProviderTarget.primary target = Some p0 ->
  effectiveCredential p0 = CStr token ->
  applyOverride getProvider token requestId target w =
    (set_heap (<[ProviderTarget.primary target := initialised p0]> (heap w)) w, false).
Proof.
  intros Hp He. unfold applyOverride. rewrite Hp.
  cbv zeta. rewrite stackOf_snapshotStatic.
  fold (initialised p0).
  assert (Hk : currentKey (initialised p0) (stackOf p0) = CStr token).
  { by rewrite <- (stackOf_snapshotStatic p0), currentKey_initialised. }
  by rewrite decide_True.
Qed.

(** The loop body when it is not. *)
Lemma applyOverride_apply (target : ProviderTarget.t) (w : World) (p0 : Provider.t) :
  heap w !! ProviderTarget.primary target = Some p0 ->
  effectiveCredential p0 <> CStr token ->
  applyOverride getProvider token requestId target w =
    (notifyService getProvider token (ProviderTarget.name target)
       (set_heap
          (writeKeys token (ProviderTarget.references target)
             (<[ProviderTarget.primary target := pushed token requestId p0]> (heap w)))
          w),
     true).
Proof.
  intros Hp He. unfold applyOverride. rewrite Hp.
  cbv zeta. rewrite stackOf_snapshotStatic.
  fold (initialised p0).
  assert (Hk : currentKey (initialised p0) (stackOf p0) <> CStr token).
  { by rewrite <- (stackOf_snapshotStatic p0), currentKey_initialised. }
  rewrite decide_False by done. simpl heap.
  fold (pushed token requestId p0). by rewrite insert_insert_eq.
Qed.

End OverlayFacts.

Lemma static_snapshot (p : Provider.t) :
  Provider._static_api_key (snapshotStatic p) =
    (if decide (Provider._static_api_key p = CUndef)
     then orElse (Provider.api_key p) (orElse (Provider.apiKey p) CNull)
     else Provider._static_api_key p) /\
  Provider._static_api_key (snapshotStatic p) <> CUndef.
Proof.
  unfold snapshotStatic. case_decide as E; simpl; [|done]. split; [done|].
  by destruct (Provider.api_key p), (Provider.apiKey p).
Qed.

Lemma static_kept (p : Provider.t) :
  Provider._static_api_key p <> CUndef -> snapshotStatic p = p.
Proof. intros H. unfold snapshotStatic. by rewrite decide_False. Qed.

(** A snapshot, once taken, survives any application. *)
Lemma applyOverride_static_stable (getProvider : option (string -> bool))
    (token : string) (requestId : nat) (target : ProviderTarget.t)
    (w : World) (l : loc) (p : Provider.t) :
  heap w !! l = Some p ->
  Provider._static_api_key p <> CUndef ->
  exists p', heap (applyOverride getProvider token requestId target w).1 !! l = Some p' /\
             Provider._static_api_key p' = Provider._static_api_key p.
Proof.
  intros Hl Hs.
  destruct (heap w !! ProviderTarget.primary target) as [q0|] eqn:Hq.
  - destruct (decide (effectiveCredential q0 = CStr token)) as [He|He].
    + rewrite (applyOverride_skip _ _ _ _ _ _ Hq He). simpl.
      rewrite lookup_insert. case_decide as E; [|by eauto].
      subst l. rewrite Hq in Hl. injection Hl as ->.
      eexists. split; [done|]. unfold initialised. simpl. by rewrite static_kept.
    + rewrite (applyOverride_apply _ _ _ _ _ _ Hq He). simpl.
      rewrite (proj1 (notifyService_heap _ _ _ _)). simpl.
      rewrite writeKeys_lookup, lookup_insert.
      assert (exists q, (if decide (ProviderTarget.primary target = l)
                         then Some (pushed token requestId q0) else heap w !! l) = Some q /\
                        Provider._static_api_key q = Provider._static_api_key p)
        as (q & -> & Eq).
      { case_decide as E; [|by eauto]. subst l. rewrite Hq in Hl. injection Hl as ->.
        eexists. split; [done|]. unfold pushed, initialised. simpl. by rewrite static_kept. }
      case_bool_decide; simpl; eauto.
  - unfold applyOverride. rewrite Hq. simpl. eauto.
Qed.

Lemma applyLater_static_stable (later : list Application) (w : World)
    (l : loc) (p : Provider.t) :
  heap w !! l = Some p ->
  Provider._static_api_key p <> CUndef ->
  exists p', heap (applyLater later w) !! l = Some p' /\
             Provider._static_api_key p' = Provider._static_api_key p.
Proof.
  revert w p. induction later as [|a later IH]; intros w p Hl Hs; simpl; [by eauto|].
  destruct (applyOverride_static_stable (app_service a) (app_token a)
              (app_requestId a) (app_target a) w l p Hl Hs) as (p1 & H1 & E1).
  destruct (IH _ p1 H1) as (p2 & H2 & E2); [congruence|].
  exists p2. split; [exact H2|congruence].
Qed.

(** C4. When the loop body applies the token [T] to a target (it
    records an override), then afterwards: every reference of the target
    reports [T] under [api_key] and under [apiKey]; the entry
    [{requestId, newKey: T}] is on top of the stack of the primary, which
    grew by that entry alone; [_static_api_key] of the primary holds the
    credential the provider had when the first override reached it (the
    value it already held if it was set, else the raw credential of just
    before), and no later application of the overlay, with whatever
    token, changes it. *)
Theorem applyOverride_applied (getProvider : option (string -> bool))
    (token : string) (requestId : nat) (target : ProviderTarget.t) (w w' : World) :
  applyOverride getProvider token requestId target w = (w', true) ->
  exists p0 p',
    heap w !! ProviderTarget.primary target = Some p0 /\
    heap w' !! ProviderTarget.primary target = Some p' /\
    (forall r, r ∈ ProviderTarget.references target -> is_Some (heap w !! r) ->
       exists p, heap w' !! r = Some p /\
                 Provider.api_key p = CStr token /\ Provider.apiKey p = CStr token) /\
    last (stackOf p') = Some (StackEntry.mk requestId token) /\
    Provider._dynamic_api_key_stack p'
      = Some (stackOf p0 ++ [StackEntry.mk requestId token]) /\
    Provider._static_api_key p' =
      (if decide (Provider._static_api_key p0 = CUndef)
       then orElse (Provider.api_key p0) (orElse (Provider.apiKey p0) CNull)
       else Provider._static_api_key p0) /\
    Provider._static_api_key p' <> CUndef /\
    (forall later, exists p'',
       heap (applyLater later w') !! ProviderTarget.primary target = Some p'' /\
       Provider._static_api_key p'' = Provider._static_api_key p').
Proof.
  intros Happ.
  destruct (heap w !! ProviderTarget.primary target) as [p0|] eqn:Hp;
    [|unfold applyOverride in Happ; rewrite Hp in Happ; discriminate].
  destruct (decide (effectiveCredential p0 = CStr token)) as [He|He];
    [rewrite (applyOverride_skip _ _ _ _ _ _ Hp He) in Happ; discriminate|].
  rewrite (applyOverride_apply _ _ _ _ _ _ Hp He) in Happ. injection Happ as <-.
  pose proof (static_snapshot p0) as [Hs1 Hs2].
  assert (Hlook : forall r, heap (notifyService getProvider token (ProviderTarget.name target)
                      (set_heap (writeKeys token (ProviderTarget.references target)
                         (<[ProviderTarget.primary target := pushed token requestId p0]>
                            (heap w))) w)) !! r
                  = if bool_decide (r ∈ ProviderTarget.references target)
                    then Provider.set_keys token <$>
                           (if decide (ProviderTarget.primary target = r)
                            then Some (pushed token requestId p0) else heap w !! r)
                    else (if decide (ProviderTarget.primary target = r)
                          then Some (pushed token requestId p0) else heap w !! r)).
  { intros r. rewrite (proj1 (notifyService_heap _ _ _ _)). simpl.
    by rewrite writeKeys_lookup, lookup_insert. }
  assert (Hprim : exists p', heap (notifyService getProvider token (ProviderTarget.name target)
                      (set_heap (writeKeys token (ProviderTarget.references target)
                         (<[ProviderTarget.primary target := pushed token requestId p0]>
                            (heap w))) w)) !! ProviderTarget.primary target = Some p' /\
             Provider._dynamic_api_key_stack p'
               = Some (stackOf p0 ++ [StackEntry.mk requestId token]) /\
             Provider._static_api_key p' = Provider._static_api_key (snapshotStatic p0)).
  { rewrite Hlook, decide_True by done. case_bool_decide; simpl; eauto. }
  destruct Hprim as (p' & Hp' & Hstack & Hstatic).
  exists p0, p'. split; [done|]. split; [exact Hp'|]. split; [|split; [|split; [|split; [|split]]]].
  - intros r Hr [q Hq]. rewrite Hlook, bool_decide_true by done.
    destruct (decide (ProviderTarget.primary target = r)); simpl;
      [|rewrite Hq; simpl]; eauto.
  - unfold stackOf. rewrite Hstack. apply last_snoc.
  - exact Hstack.
  - by rewrite Hstatic.
  - by rewrite Hstatic.
  - intros later. apply applyLater_static_stable; [exact Hp'|by rewrite Hstatic].
Qed.

Lemma applyOverride_applied_witness :
  exists p',
    heap (applyOverride None "T" 7 openaiTarget twoListWorld).1 !! 0%nat = Some p' /\
    last (stackOf p') = Some (StackEntry.mk 7 "T") /\
    Provider._static_api_key p' <> CUndef /\
    (forall r, r ∈ [0%nat; 1%nat] -> is_Some (heap twoListWorld !! r) ->
       exists p, heap (applyOverride None "T" 7 openaiTarget twoListWorld).1 !! r = Some p /\
                 Provider.api_key p = CStr "T" /\ Provider.apiKey p = CStr "T").
Proof.
  assert (H : applyOverride None "T" 7 openaiTarget twoListWorld
              = ((applyOverride None "T" 7 openaiTarget twoListWorld).1, true)).
  { vm_compute. reflexivity. }
  destruct (applyOverride_applied None "T" 7 openaiTarget twoListWorld _ H)
    as (p0 & p' & _ & Hp' & Hrefs & Htop & _ & _ & Hdef & _).
  exists p'. repeat split; assumption.
Defined.

Section OverlayIdempotence.

Variable getProvider : option (string -> bool).
Variable token : string.

Lemma set_heap_same (w : World) : set_heap (heap w) w = w.
Proof. by destruct w. Qed.

(** A provider whose bookkeeping is in place and whose credential in
    effect is the token is left alone. *)
Lemma applyOverride_noop (requestId : nat) (target : ProviderTarget.t)
    (w : World) (p : Provider.t) :
  heap w !! ProviderTarget.primary target = Some p ->
  effectiveCredential p = CStr token ->
  Provider._static_api_key p <> CUndef ->
  Provider._dynamic_api_key_stack p <> None ->
  applyOverride getProvider token requestId target w = (w, false).
Proof.
  intros Hp He Hs Hk. rewrite (applyOverride_skip _ _ _ _ _ _ Hp He).
  rewrite initialised_id by done. rewrite insert_id by done. by rewrite set_heap_same.
Qed.

Lemma initialised_fields (p : Provider.t) :
  Provider.name (initialised p) = Provider.name p /\
  Provider.api_key (initialised p) = Provider.api_key p /\
  Provider.apiKey (initialised p) = Provider.apiKey p /\
  Provider.models (initialised p) = Provider.models p /\
  stackOf (initialised p) = stackOf p /\
  Provider._static_api_key (initialised p) <> CUndef /\
  Provider._dynamic_api_key_stack (initialised p) <> None /\
  effectiveCredential (initialised p) = effectiveCredential p.
Proof.
  unfold effectiveCredential, currentKey, initialised, snapshotStatic, stackOf.
  case_decide as E; simpl; repeat split; try done.
  by destruct (Provider.api_key p), (Provider.apiKey p).
Qed.

(** The world after one application, seen from the primary. *)
Lemma applyOverride_settled (requestId : nat) (target : ProviderTarget.t)
    (w : World) (p0 : Provider.t) :
  heap w !! ProviderTarget.primary target = Some p0 ->
  exists p1,
    heap (applyOverride getProvider token requestId target w).1
      !! ProviderTarget.primary target = Some p1 /\
    effectiveCredential p1 = CStr token /\
    Provider._static_api_key p1 <> CUndef /\
    Provider._dynamic_api_key_stack p1 <> None /\
    stackOf p1 =
      if (applyOverride getProvider token requestId target w).2
      then stackOf p0 ++ [StackEntry.mk requestId token] else stackOf p0.
Proof.
  intros Hp. pose proof (initialised_fields p0) as (_ & _ & _ & _ & Hst & Hs & Hk & He).
  destruct (decide (effectiveCredential p0 = CStr token)) as [E|E].
  - rewrite (applyOverride_skip _ _ _ _ _ _ Hp E). simpl.
    rewrite lookup_insert_eq. eexists. split; [done|]. by rewrite He.
  - rewrite (applyOverride_apply _ _ _ _ _ _ Hp E). simpl.
    rewrite (proj1 (notifyService_heap _ _ _ _)). simpl.
    rewrite writeKeys_lookup, lookup_insert_eq.
    assert (Hlast : last (stackOf p0 ++ [StackEntry.mk requestId token])
                    = Some (StackEntry.mk requestId token)) by apply last_snoc.
    case_bool_decide; simpl; eexists; (split; [done|]);
      unfold effectiveCredential, currentKey, stackOf; simpl; rewrite Hlast; done.
Qed.

End OverlayIdempotence.

(** C5, as stated, fails in its "nothing mutated" part: when the token
    already is the credential in effect the override is skipped, but the
    bookkeeping fields of the provider were initialised on the way. *)
Lemma guarded_application_mutates :
  let w := openaiWorld "claude-sonnet" in
  let w' := (applyOverride None "sk-static" 7 singleTarget w).1 in
  (effectiveCredential <$> heap w !! 0%nat) = Some (CStr "sk-static") /\
  (applyOverride None "sk-static" 7 singleTarget w).2 = false /\
  (Provider._static_api_key <$> heap w !! 0%nat) = Some CUndef /\
  (Provider._static_api_key <$> heap w' !! 0%nat) = Some (CStr "sk-static") /\
  w' <> w.
Proof.
  repeat split; try (vm_compute; reflexivity).
  intros H.
  apply (f_equal (fun w => Provider._static_api_key <$> heap w !! 0%nat)) in H.
  vm_compute in H. discriminate H.
Qed.

(** C5 (amended). Applying the same token twice to the same target
    pushes at most one stack entry and records at most one override (one
    of each when the token differs from the credential in effect): the
    second application changes nothing and reports "not applied". An
    application whose token already equals the credential in effect (the
    [newKey] on top of the stack, else the raw credential field, else
    [null]) pushes nothing, records nothing, and leaves the name, both
    credential fields, the models and the stack entries of every
    provider, the provider service, the request and the log as they
    were; it changes the world at most by initialising
    [_static_api_key] and an empty stack on the primary, and not at all
    when both are already in place. With an empty or blank bearer token
    the overlay does nothing. *)
Theorem applyOverride_idempotent_guarded (getProvider : option (string -> bool))
    (token : string) (requestId requestId' : nat) (target : ProviderTarget.t)
    (w : World) (p0 : Provider.t) :
  heap w !! ProviderTarget.primary target = Some p0 ->
  let first := applyOverride getProvider token requestId target w in
  applyOverride getProvider token requestId' target first.1 = (first.1, false) /\
  (exists p1, heap first.1 !! ProviderTarget.primary target = Some p1 /\
              stackOf p1 = if first.2
                           then stackOf p0 ++ [StackEntry.mk requestId token]
                           else stackOf p0) /\
  applyOverrides getProvider token requestId [target; target] w
    = (first.1, if first.2 then [Override.mk target requestId] else []) /\
  (first.2 = true <-> effectiveCredential p0 <> CStr token) /\
  (effectiveCredential p0 = CStr token ->
   first = (set_heap (<[ProviderTarget.primary target := initialised p0]> (heap w)) w,
            false) /\
   (forall l p, heap w !! l = Some p ->
      exists p', heap first.1 !! l = Some p' /\
                 Provider.name p' = Provider.name p /\
                 Provider.api_key p' = Provider.api_key p /\
                 Provider.apiKey p' = Provider.apiKey p /\
                 Provider.models p' = Provider.models p /\
                 stackOf p' = stackOf p) /\
   (Provider._static_api_key p0 <> CUndef ->
    Provider._dynamic_api_key_stack p0 <> None -> first.1 = w)) /\
  (forall config w0,
     tokenOf (bearerToken (req w0)) = "" ->
     applyDynamicApiKey getProvider config requestId w0 = (Ok tt, w0)).
Proof.
  intros Hp first.
  destruct (applyOverride_settled getProvider token requestId target w p0 Hp)
    as (p1 & Hp1 & He1 & Hs1 & Hk1 & Hst1). fold first in Hp1, Hst1.
  assert (Hsecond : forall rid, applyOverride getProvider token rid target first.1
                                = (first.1, false)).
  { intros rid. by apply (applyOverride_noop getProvider token rid target first.1 p1). }
  split; [apply Hsecond|]. split; [by eauto|]. split; [|split; [|split]].
  - unfold applyOverrides. simpl. fold first.
    destruct first as [w1 b] eqn:Ef. simpl in Hsecond. rewrite Hsecond.
    by destruct b.
  - unfold first. destruct (decide (effectiveCredential p0 = CStr token)) as [E|E].
    + rewrite (applyOverride_skip _ _ _ _ _ _ Hp E). simpl. split; [discriminate|done].
    + rewrite (applyOverride_apply _ _ _ _ _ _ Hp E). simpl. done.
  - intros E. unfold first. rewrite (applyOverride_skip _ _ _ _ _ _ Hp E).
    split; [done|]. simpl. split.
    + intros l p Hl. rewrite lookup_insert. case_decide as El; [|by eauto 10].
      subst l. rewrite Hp in Hl. injection Hl as ->.
      pose proof (initialised_fields p) as (? & ? & ? & ? & ? & _).
      eexists. split; [done|]. done.
    + intros Hs Hk. rewrite initialised_id by done. rewrite insert_id by done.
      apply set_heap_same.
  - intros config w0 Ht. unfold applyDynamicApiKey. rewrite Ht. simpl.
    by destruct (_ && _).
Qed.

Lemma applyOverride_idempotent_guarded_witness :
  applyOverride None "T" 8 openaiTarget (applyOverride None "T" 7 openaiTarget twoListWorld).1
    = ((applyOverride None "T" 7 openaiTarget twoListWorld).1, false) /\
  applyOverrides None "T" 7 [openaiTarget; openaiTarget] twoListWorld
    = ((applyOverride None "T" 7 openaiTarget twoListWorld).1,
       if (applyOverride None "T" 7 openaiTarget twoListWorld).2
       then [Override.mk openaiTarget 7] else []).
Proof.
  destruct (applyOverride_idempotent_guarded None "T" 7 8 openaiTarget twoListWorld
              openaiProvider eq_refl) as (H1 & _ & H2 & _).
  split; [exact H1|exact H2].
Defined.

(** ** Token estimation *)

Section EstimatorFacts.

Variable enc : string -> outcome (list nat).
Variable mis : jval -> outcome nat.
Variable jt : jval -> string.

Lemma outcome_bind_unfold {A B} (m : outcome A) (f : A -> outcome B) :
  (m ≫= f) = match m with Ok a => f a | Throw e => Throw e end.
Proof. reflexivity. Qed.

Lemma get_not_nullish (v : jval) (k : string) :
  Js.nullish v = false -> Js.get v k = Ok (Js.getOpt v k).
Proof. by destruct v. Qed.

Lemma encodeLength_nonneg (v : jval) : nonneg (encodeLength enc mis v).
Proof.
  destruct v; simpl; rewrite outcome_bind_unfold;
    try (destruct (mis _); simpl; try done; lia).
  destruct (enc s); simpl; try done; lia.
Qed.

Lemma JSON_stringify_isString (v : jval) :
  isUndef v = false -> Js.isString (JSON_stringify jt v) = true.
Proof. by destruct v. Qed.

Lemma tokensOf_nonneg (text : string) : (0 <= tokensOf enc text)%Z.
Proof. unfold tokensOf. destruct (enc text); lia. Qed.

Lemma tokenSum_nonneg (texts : list string) : (0 <= tokenSum enc texts)%Z.
Proof.
  induction texts as [|t ts IH]; simpl; [lia|].
  pose proof (tokensOf_nonneg t). lia.
Qed.

Lemma tokenSum_app (a b : list string) :
  tokenSum enc (a ++ b) = (tokenSum enc a + tokenSum enc b)%Z.
Proof. induction a as [|t ts IH]; simpl; [done|]. rewrite IH. lia. Qed.

(** Two estimates in a row, the second started where the first ended. *)
Lemma counts_then (o : outcome Z) (k : Z -> outcome Z) (acc : Z) (a b : list string) :
  counts enc o acc a ->
  (forall n, counts enc (k n) n b) ->
  counts enc (o ≫= k) acc (a ++ b).
Proof.
  intros Ho Hk. rewrite outcome_bind_unfold. unfold counts in *.
  rewrite forallb_app, tokenSum_app.
  destruct o as [n|e].
  - destruct Ho as [Ha ->]. specialize (Hk (acc + tokenSum enc a)%Z). rewrite Ha.
    destruct (k _) as [m|e]; [|done].
    destruct Hk as [Hb ->]. split; [done|lia].
  - by rewrite Ho.
Qed.

Lemma counts_shift (o : outcome Z) (acc : Z) (texts : list string) :
  counts enc o 0 texts -> counts enc (n ← o; Ok (acc + n)%Z) acc texts.
Proof.
  intros Ho. rewrite outcome_bind_unfold. destruct o as [n|e]; [|done].
  destruct Ho as [Ha ->]. split; [done|]. simpl. lia.
Qed.

Lemma counts_nothing (acc : Z) : counts enc (Ok acc) acc [].
Proof. split; [done|]. simpl. lia. Qed.

Lemma encodeLength_counts (v : jval) :
  Js.isString v = true -> counts enc (encodeLength enc mis v) 0 (asText v).
Proof.
  destruct v; try done. intros _. simpl. rewrite outcome_bind_unfold.
  unfold counts. simpl. unfold accepted, tokensOf.
  destruct (enc s) as [tokens|e]; simpl; [|done].
  split; [done|lia].
Qed.

Lemma forEachAdd_counts (f : jval -> outcome Z) (ok : jval -> bool)
    (texts : jval -> list string) (xs : list jval) (acc : Z) :
  (forall x, ok x = true -> counts enc (f x) 0 (texts x)) ->
  forallb ok xs = true ->
  counts enc (forEachAdd f xs acc) acc (flat_map texts xs).
Proof.
  intros Hf. revert acc. induction xs as [|x xs IH]; intros acc; simpl.
  { intros _. apply counts_nothing. }
  intros [Hx Hxs]%andb_true_iff. specialize (Hf x Hx).
  rewrite outcome_bind_unfold. unfold counts in *.
  rewrite forallb_app, tokenSum_app.
  destruct (f x) as [n|e].
  - destruct Hf as [Ha ->]. rewrite Ha. specialize (IH (acc + (0 + tokenSum enc (texts x)))%Z Hxs).
    destruct (forEachAdd f xs _) as [m|e]; [|done].
    destruct IH as [Hb ->]. split; [done|lia].
  - by rewrite Hf.
Qed.

Lemma forEachAdd_nonneg (f : jval -> outcome Z) (xs : list jval) (acc : Z) :
  (forall x, nonneg (f x)) -> (0 <= acc)%Z -> nonneg (forEachAdd f xs acc).
Proof.
  intros Hf. revert acc. induction xs as [|x xs IH]; intros acc Hacc; simpl; [done|].
  rewrite outcome_bind_unfold. specialize (Hf x).
  destruct (f x) as [n|]; simpl in *; [|done]. apply IH. lia.
Qed.

Lemma contentPartTokens_counts (part : jval) :
  partOk part = true ->
  counts enc (contentPartTokens enc mis jt part) 0 (partTexts jt part).
Proof.
  unfold contentPartTokens, partOk, partTexts. intros [Hn H]%andb_true_iff.
  apply negb_true_iff in Hn. rewrite (get_not_nullish _ _ Hn), outcome_bind_unfold.
  cbv zeta in *.
  destruct (Js.eqStr (Js.getOpt part "type") "text"); [by apply encodeLength_counts|].
  destruct (Js.eqStr (Js.getOpt part "type") "tool_use").
  { apply encodeLength_counts, JSON_stringify_isString. by apply negb_true_iff. }
  destruct (Js.eqStr (Js.getOpt part "type") "tool_result"); [|apply counts_nothing].
  apply encodeLength_counts. apply negb_true_iff in H.
  destruct (Js.isString (Js.getOpt part "content")) eqn:E; [done|].
  by apply JSON_stringify_isString.
Qed.

Lemma contentPartTokens_nonneg (part : jval) : nonneg (contentPartTokens enc mis jt part).
Proof.
  unfold contentPartTokens. rewrite outcome_bind_unfold.
  destruct (Js.get part "type"); [|done].
  repeat case_match; try apply encodeLength_nonneg; done.
Qed.

Lemma messageTokens_counts (message : jval) :
  messageOk message = true ->
  counts enc (messageTokens enc mis jt message) 0 (messageTexts jt message).
Proof.
  unfold messageTokens, messageOk, messageTexts. intros [Hn H]%andb_true_iff.
  apply negb_true_iff in Hn. rewrite (get_not_nullish _ _ Hn), outcome_bind_unfold.
  destruct (Js.getOpt message "content") as [| | | |s|parts| |]; try apply counts_nothing.
  - by apply (encodeLength_counts (JStr s)).
  - by apply (forEachAdd_counts _ partOk); [apply contentPartTokens_counts|].
Qed.

Lemma messageTokens_nonneg (message : jval) : nonneg (messageTokens enc mis jt message).
Proof.
  unfold messageTokens. rewrite outcome_bind_unfold.
  destruct (Js.get message "content") as [c|]; [|done].
  destruct c; try done; [apply encodeLength_nonneg|].
  apply forEachAdd_nonneg; [apply contentPartTokens_nonneg|done].
Qed.

Lemma textPart_counts (textPart : jval) :
  textPartOk textPart = true ->
  counts enc (encodeLength enc mis (if Js.truthy textPart then textPart else JStr ""))
         0 (textPartTexts textPart).
Proof.
  unfold textPartOk, textPartTexts. destruct (Js.truthy textPart); simpl.
  - apply encodeLength_counts.
  - intros _. by apply (encodeLength_counts (JStr "")).
Qed.

Lemma systemItemTokens_counts (item : jval) :
  systemItemOk item = true ->
  counts enc (systemItemTokens enc mis item) 0 (systemItemTexts item).
Proof.
  unfold systemItemTokens, systemItemOk, systemItemTexts. intros [Hn H]%andb_true_iff.
  apply negb_true_iff in Hn. rewrite (get_not_nullish _ _ Hn), outcome_bind_unfold.
  destruct (Js.eqStr (Js.getOpt item "type") "text"); simpl; [|apply counts_nothing].
  destruct (Js.getOpt item "text") as [| | | |s|textParts| |]; try apply counts_nothing.
  - by apply (encodeLength_counts (JStr s)).
  - by apply (forEachAdd_counts _ textPartOk); [apply textPart_counts|].
Qed.

Lemma systemItemTokens_nonneg (item : jval) : nonneg (systemItemTokens enc mis item).
Proof.
  unfold systemItemTokens. rewrite outcome_bind_unfold.
  destruct (Js.get item "type") as [ty|]; [|done].
  destruct (negb (Js.eqStr ty "text")); [done|].
  destruct (Js.getOpt item "text"); try done;
    try (apply forEachAdd_nonneg; [intros x; apply encodeLength_nonneg|done]).
  apply (encodeLength_nonneg (JStr s)).
Qed.

Lemma truthy_stringify_counts (v : jval) :
  counts enc (if Js.truthy v then encodeLength enc mis (JSON_stringify jt v) else Ok 0%Z)
         0 (if Js.truthy v then asText (JSON_stringify jt v) else []).
Proof.
  destruct (Js.truthy v) eqn:E; [|apply counts_nothing].
  apply encodeLength_counts. by destruct v.
Qed.

Lemma toolTokens_counts (tool : jval) :
  toolOk tool = true ->
  counts enc (toolTokens enc mis jt tool) 0 (toolTexts jt tool).
Proof.
  unfold toolTokens, toolOk, toolTexts. intros [Hn H]%andb_true_iff.
  apply negb_true_iff in Hn. rewrite (get_not_nullish _ _ Hn), outcome_bind_unfold.
  apply counts_then.
  - destruct (Js.truthy (Js.getOpt tool "description")); [|apply counts_nothing].
    by apply encodeLength_counts.
  - intros d. apply counts_shift, truthy_stringify_counts.
Qed.

Lemma toolTokens_nonneg (tool : jval) : nonneg (toolTokens enc mis jt tool).
Proof.
  unfold toolTokens. rewrite outcome_bind_unfold.
  destruct (Js.get tool "description") as [d|]; [|done].
  rewrite outcome_bind_unfold.
  assert (Hd : nonneg (if Js.truthy d
                       then encodeLength enc mis (Js.plus (Js.getOpt tool "name") d)
                       else Ok 0%Z)).
  { destruct (Js.truthy d); [apply encodeLength_nonneg|done]. }
  destruct (if Js.truthy d then _ else _) as [n|]; [|done].
  rewrite outcome_bind_unfold.
  assert (Hs : nonneg (if Js.truthy (Js.getOpt tool "input_schema")
                       then encodeLength enc mis
                              (JSON_stringify jt (Js.getOpt tool "input_schema"))
                       else Ok 0%Z)).
  { destruct (Js.truthy _); [apply encodeLength_nonneg|done]. }
  destruct (if Js.truthy (Js.getOpt tool "input_schema") then _ else _) as [s|]; [|done].
  simpl in *. lia.
Qed.

(** On a well-shaped input the estimator adds up the tokens of the
    texts it hands to the tokenizer, and fails when one is rejected. *)
Lemma calculateTokenCount_counts (messages system tools : jval) :
  wellShaped messages system tools = true ->
  counts enc (calculateTokenCount enc mis jt messages system tools) 0
         (tokenizerInputs jt messages system tools).
Proof.
  unfold calculateTokenCount, wellShaped, tokenizerInputs.
  intros [[Hm Hs]%andb_true_iff Ht]%andb_true_iff.
  assert (Hm' : counts enc (messagesTokens enc mis jt messages) 0
                  (match messages with
                   | JArr ms => flat_map (messageTexts jt) ms
                   | _ => []
                   end)).
  { destruct messages; try apply counts_nothing.
    by apply (forEachAdd_counts _ messageOk); [apply messageTokens_counts|]. }
  assert (Hs' : counts enc (systemTokens enc mis system) 0
                  (match system with
                   | JStr s => [s]
                   | JArr items => flat_map systemItemTexts items
                   | _ => []
                   end)).
  { destruct system as [| | | |s|items| |]; try apply counts_nothing.
    - by apply (encodeLength_counts (JStr s)).
    - by apply (forEachAdd_counts _ systemItemOk); [apply systemItemTokens_counts|]. }
  assert (Ht' : counts enc (toolsTokens enc mis jt tools) 0
                  (match tools with
                   | JArr ts => flat_map (toolTexts jt) ts
                   | _ => []
                   end)).
  { unfold toolsTokens. destruct (Js.truthy tools) eqn:E.
    - destruct tools; try done.
      by apply (forEachAdd_counts _ toolOk); [apply toolTokens_counts|].
    - destruct tools; try done; apply counts_nothing. }
  rewrite !outcome_bind_unfold. unfold counts in *.
  rewrite !forallb_app, !tokenSum_app.
  destruct (messagesTokens enc mis jt messages) as [m|]; [|by rewrite Hm'].
  destruct Hm' as [-> ->].
  destruct (systemTokens enc mis system) as [s|]; [|rewrite Hs'; by rewrite andb_false_r].
  destruct Hs' as [-> ->].
  destruct (toolsTokens enc mis jt tools) as [t|]; [|by rewrite Ht'].
  destruct Ht' as [-> ->]. split; [done|lia].
Qed.

Lemma calculateTokenCount_nonneg (messages system tools : jval) :
  nonneg (calculateTokenCount enc mis jt messages system tools).
Proof.
  unfold calculateTokenCount. rewrite !outcome_bind_unfold.
  assert (Hm : nonneg (messagesTokens enc mis jt messages)).
  { destruct messages; try done. apply forEachAdd_nonneg; [apply messageTokens_nonneg|done]. }
  assert (Hs : nonneg (systemTokens enc mis system)).
  { destruct system; try done; [apply (encodeLength_nonneg (JStr s))|].
    apply forEachAdd_nonneg; [apply systemItemTokens_nonneg|done]. }
  assert (Ht : nonneg (toolsTokens enc mis jt tools)).
  { unfold toolsTokens. destruct (Js.truthy tools); [|done].
    destruct tools; try done. apply forEachAdd_nonneg; [apply toolTokens_nonneg|done]. }
  destruct (messagesTokens enc mis jt messages) as [m|]; [|done].
  destruct (systemTokens enc mis system) as [s|]; [|done].
  destruct (toolsTokens enc mis jt tools) as [t|]; [|done].
  simpl in *. lia.
Qed.

End EstimatorFacts.

(** C7, as stated, fails: a [null] among the messages makes the
    estimator raise, and so does a [tools] value that is truthy and not
    an array; and a tokenizer that rejects the end-of-text marker, as
    the one of the router does, makes it raise on a message that holds
    the marker. *)
Lemma calculateTokenCount_raises :
  calculateTokenCount (enc_encode sampleImports) (enc_misuse sampleImports)
    (json_text sampleImports) (JArr [JNull]) JUndef JUndef
  = Throw (Js.typeError "Cannot read properties of undefined or null, reading content") /\
  calculateTokenCount (enc_encode sampleImports) (enc_misuse sampleImports)
    (json_text sampleImports) (JArr []) JUndef (JObj [])
  = Throw (Js.typeError "tools.forEach is not a function") /\
  isOk (calculateTokenCount (enc_encode sampleImports) (enc_misuse sampleImports)
          (json_text sampleImports) markerMessages JUndef JUndef) = false.
Proof. repeat split; reflexivity. Qed.

(** C7 (amended). On the well-shaped inputs (no nullish element in the
    arrays the estimator walks, text where a field goes to the tokenizer
    as it is, a value where its serialisation goes there, [tools] falsy
    or an array) of which the tokenizer accepts every text it is handed,
    the estimator returns an integer that is not negative: the number of
    tokens of those texts. On a well-shaped input with a text the
    tokenizer rejects it raises. An integer it returns is never
    negative. The shapes it does not recognise contribute zero: messages
    or a system prompt that are not of the expected kind, a message
    whose content is neither a string nor an array, a content part of
    another type, a system segment that is not a text segment or whose
    text is neither a string nor an array, falsy [tools], and a tool
    without description and input schema. *)
Theorem calculateTokenCount_wellShaped (enc : string -> outcome (list nat))
    (mis : jval -> outcome nat) (jt : jval -> string) (messages system tools : jval) :
  (wellShaped messages system tools = true ->
   forallb (accepted enc) (tokenizerInputs jt messages system tools) = true ->
   exists n, calculateTokenCount enc mis jt messages system tools = Ok n /\ (0 <= n)%Z /\
             n = tokenSum enc (tokenizerInputs jt messages system tools)) /\
  (wellShaped messages system tools = true ->
   forallb (accepted enc) (tokenizerInputs jt messages system tools) = false ->
   isOk (calculateTokenCount enc mis jt messages system tools) = false) /\
  (forall n, calculateTokenCount enc mis jt messages system tools = Ok n -> (0 <= n)%Z) /\
  (Js.isArray messages = false -> messagesTokens enc mis jt messages = Ok 0%Z) /\
  (forall message,
     Js.nullish message = false ->
     Js.isString (Js.getOpt message "content") = false ->
     Js.isArray (Js.getOpt message "content") = false ->
     messageTokens enc mis jt message = Ok 0%Z) /\
  (forall part,
     Js.nullish part = false ->
     Js.eqStr (Js.getOpt part "type") "text" = false ->
     Js.eqStr (Js.getOpt part "type") "tool_use" = false ->
     Js.eqStr (Js.getOpt part "type") "tool_result" = false ->
     contentPartTokens enc mis jt part = Ok 0%Z) /\
  (Js.isString system = false -> Js.isArray system = false ->
   systemTokens enc mis system = Ok 0%Z) /\
  (forall item,
     Js.nullish item = false ->
     Js.eqStr (Js.getOpt item "type") "text" = false \/
     (Js.isString (Js.getOpt item "text") = false /\
      Js.isArray (Js.getOpt item "text") = false) ->
     systemItemTokens enc mis item = Ok 0%Z) /\
  (Js.truthy tools = false -> toolsTokens enc mis jt tools = Ok 0%Z) /\
  (forall tool,
     Js.nullish tool = false ->
     Js.truthy (Js.getOpt tool "description") = false ->
     Js.truthy (Js.getOpt tool "input_schema") = false ->
     toolTokens enc mis jt tool = Ok 0%Z).
Proof.
  pose proof (calculateTokenCount_counts enc mis jt messages system tools) as Hc.
  pose proof (calculateTokenCount_nonneg enc mis jt messages system tools) as Hnn.
  split; [|split; [|split; [|split; [|split; [|split; [|split; [|split; [|split]]]]]]]].
  - intros Hw Ha. specialize (Hc Hw). unfold counts in Hc.
    destruct (calculateTokenCount enc mis jt messages system tools) as [n|];
      [|congruence].
    destruct Hc as [_ Hn]. exists n. split; [done|]. split; [exact Hnn|lia].
  - intros Hw Ha. specialize (Hc Hw). unfold counts in Hc.
    destruct (calculateTokenCount enc mis jt messages system tools) as [n|]; [|done].
    destruct Hc as [Hc _]. congruence.
  - intros n Hn. by rewrite Hn in Hnn.
  - by destruct messages.
  - intros message Hn Hs Ha. unfold messageTokens.
    rewrite (get_not_nullish _ _ Hn), outcome_bind_unfold.
    by destruct (Js.getOpt message "content").
  - intros part Hn H1 H2 H3. unfold contentPartTokens.
    rewrite (get_not_nullish _ _ Hn), outcome_bind_unfold. by rewrite H1, H2, H3.
  - by destruct system.
  - intros item Hn H. unfold systemItemTokens.
    rewrite (get_not_nullish _ _ Hn), outcome_bind_unfold.
    destruct (Js.eqStr (Js.getOpt item "type") "text"); simpl; [|done].
    destruct H as [H|[H1 H2]]; [discriminate|].
    by destruct (Js.getOpt item "text").
  - intros Ht. unfold toolsTokens. by rewrite Ht.
  - intros tool Hn Hd Hs. unfold toolTokens.
    rewrite (get_not_nullish _ _ Hn), outcome_bind_unfold. by rewrite Hd, Hs.
Qed.

Lemma calculateTokenCount_wellShaped_witness :
  exists n,
    calculateTokenCount (enc_encode sampleImports) (enc_misuse sampleImports)
      (json_text sampleImports) sampleMessages (JStr "be brief") describedTools = Ok n /\
    (0 <= n)%Z /\
    n = tokenSum (enc_encode sampleImports)
          (tokenizerInputs (json_text sampleImports) sampleMessages (JStr "be brief")
             describedTools).
Proof.
  exact (proj1 (calculateTokenCount_wellShaped (enc_encode sampleImports)
                  (enc_misuse sampleImports) (json_text sampleImports)
                  sampleMessages (JStr "be brief") describedTools)
           eq_refl eq_refl).
Defined.

(** ** The router as a whole *)

(** C1, as stated, fails: the prompt file is read ahead of the [try]
    block, so a file that cannot be read makes the router call fail,
    with nothing logged and no model written. *)
Lemma router_propagates_read_failure :
  let result := router sampleImports (mkContext rewriteConfig None) 7 (worldOf envRequest) in
  result.1 = Throw "ENOENT: no such file or directory" /\
  logged result.2 = [] /\
  model (body (req result.2)) = model (body envRequest).
Proof. vm_compute. repeat split; reflexivity. Qed.

Lemma customRoute_fails (env : Imports) (config : Config) (tokenCount : Z)
    (w : World) (e : string) :
  configured (CUSTOM_ROUTER_PATH config) = true ->
  customRouterFails env config tokenCount w e ->
  exists w',
    customRoute env config tokenCount w
      = (Ok None, add_logged (LogError ("failed to load custom router: " +:+ e)) w') /\
    body (req w') = body (req w) /\ heap w' = heap w /\ logged w' = logged w.
Proof.
  intros Hc Hf. unfold customRoute, tryCatch. rewrite Hc, M_bind_unfold. unfold lift at 1.
  destruct Hf as [Hr|(cr & Hr & Hcall)]; rewrite Hr.
  - by exists w.
  - rewrite M_bind_unfold. unfold modify at 1. rewrite M_bind_unfold. unfold reads at 1.
    unfold lift. simpl req. rewrite Hcall.
    by exists (set_req (set_tokenCount (Some tokenCount) (req w)) w).
Qed.

Lemma customRoute_answers (env : Imports) (config : Config) (tokenCount : Z)
    (w : World) (customRouter : CustomRouter) (answer : option string) :
  configured (CUSTOM_ROUTER_PATH config) = true ->
  require env (default "" (CUSTOM_ROUTER_PATH config)) = Ok customRouter ->
  customRouter (set_tokenCount (Some tokenCount) (req w)) config = Ok answer ->
  customRoute env config tokenCount w
  = (Ok answer, set_req (set_tokenCount (Some tokenCount) (req w)) w).
Proof.
  intros Hc Hr Ha. unfold customRoute, tryCatch. rewrite Hc, M_bind_unfold.
  unfold lift at 1. rewrite Hr, M_bind_unfold. unfold modify at 1.
  rewrite M_bind_unfold. unfold reads at 1. unfold lift. simpl req. by rewrite Ha.
Qed.

Lemma router_unfold (env : Imports) (context : Context) (requestId : nat) (w : World) :
  router env context requestId w =
  match preamble env context requestId w with
  | (Ok p, w1) => routeModel env (config context) p.1 p.2 w1
  | (Throw e, w1) => (Throw e, w1)
  end.
Proof. reflexivity. Qed.

Lemma routeModel_returns (env : Imports) (config : Config)
    (lastMessageUsage : option Usage) (system : jval) (w : World) :
  (routeModel env config lastMessageUsage system w).1 = Ok tt.
Proof.
  rewrite routeModel_unfold.
  destruct (routeModelBody env config lastMessageUsage system w) as [[[]|e] w']; done.
Qed.

(** The custom route never throws and leaves the body of the request
    and the provider objects as they are. *)
Lemma customRoute_returns (env : Imports) (config : Config) (tokenCount : Z) (w : World) :
  exists custom w',
    customRoute env config tokenCount w = (Ok custom, w') /\
    body (req w') = body (req w) /\ heap w' = heap w.
Proof.
  unfold customRoute, tryCatch.
  destruct (configured (CUSTOM_ROUTER_PATH config)); [|by eexists _, _].
  rewrite M_bind_unfold. unfold lift at 1.
  destruct (require env _) as [customRouter|e]; [|by eexists _, _].
  rewrite M_bind_unfold. unfold modify at 1. rewrite M_bind_unfold. unfold reads at 1.
  unfold lift. simpl req.
  destruct (customRouter _ config) as [answer|e]; by eexists _, _.
Qed.

Lemma configured_selector (name m : string) :
  configured (Some (name +:+ "," +:+ m)) = true.
Proof. by destruct name. Qed.

Lemma configured_includes (sep s : string) :
  JsString.includes sep s = true -> sep <> EmptyString -> configured (Some s) = true.
Proof.
  intros Hi Hne. destruct s; [|done].
  unfold JsString.includes in Hi. simpl in Hi. by rewrite prefix_nonempty in Hi.
Qed.

Lemma compoundSelector_identifier (h : gmap loc Provider.t) (config : Config)
    (requested : string) (m : option string) :
  JsString.includes "," requested = true ->
  compoundSelector h config requested = Ok m -> configured m = true.
Proof.
  intros Hi. pose proof (configured_includes _ _ Hi ltac:(discriminate)) as Hr.
  unfold compoundSelector. destruct (Providers config) as [ps|]; [|discriminate].
  rewrite outcome_bind_unfold.
  destruct (findProvider h _ ps) as [finalProvider|]; [|discriminate].
  cbv zeta.
  destruct finalProvider as [p|]; [|by intros [= <-]].
  destruct (findModel (Some p) _) as [fm|]; [|by intros [= <-]].
  destruct (negb (String.eqb fm "")); intros [= <-]; [apply configured_selector|done].
Qed.

Lemma laterRules_identifier (config : Config) (requested : string) (w w' : World)
    (m : option string) :
  configured (Policy.default (Router config)) = true ->
  laterRules config requested w = (Ok m, w') -> configured m = true.
Proof.
  intros Hd. unfold laterRules.
  repeat case_match; intros [= <- <-]; try exact Hd;
    match goal with
    | H : (_ && _) = true |- _ => by apply andb_true_iff in H as [_ H]
    end.
Qed.

(** With a default model configured, what model selection returns is a
    non-empty identifier, but for the empty identifier of a subagent
    directive. *)
Lemma getUseModel_identifier (tokenCount : Z) (config : Config)
    (lastUsage : option Usage) (w w' : World) (m : option string) :
  configured (Policy.default (Router config)) = true ->
  getUseModel tokenCount config lastUsage w = (Ok m, w') ->
  configured m = true \/ (m = Some "" /\ emptyDirective w).
Proof.
  intros Hd. unfold getUseModel.
  destruct (model (body (req w))) as [requested|]; [|discriminate].
  destruct (JsString.includes "," requested) eqn:Hi.
  { intros [= Hc <-]. left. by apply (compoundSelector_identifier _ _ _ _ Hi Hc). }
  destruct (longContextRule config tokenCount lastUsage) eqn:Hl.
  { intros [= <- <-]. left. unfold longContextRule in Hl.
    by apply andb_true_iff in Hl as [_ Hl]. }
  unfold subagentRule.
  destruct (subagentGuard (system (body (req w)))) as [[|]|]; [| |discriminate].
  - destruct (segmentText (system (body (req w)))) as [| | | |text| | |] eqn:Hs;
      try (intros H; left; exact (laterRules_identifier _ _ _ _ _ Hd H)).
    destruct (JsString.matchBetween SUBAGENT_OPEN SUBAGENT_CLOSE text) as [model1|] eqn:Hm;
      [|intros H; left; exact (laterRules_identifier _ _ _ _ _ Hd H)].
    intros [= <- <-]. destruct model1 as [|c model1]; [|by left].
    right. split; [done|]. by exists text.
  - intros H. left. exact (laterRules_identifier _ _ _ _ _ Hd H).
Qed.

(** C1 (amended). Once the steps ahead of the [try] block have
    completed (credential overlay, session id, prompt rewrite with its
    file read), the router call returns normally and has written the
    model of the request. An exception raised by the token estimation or
    by the built-in selection is caught and logged, and the configured
    default model is written. A custom router never stops the call: one
    that cannot be loaded or that throws is caught and logged and
    answers nothing; a non-empty answer is the model written; with no
    answer, or no custom router, the model written is the one the
    built-in selection returns. With a default model configured the
    request is left with a model identifier set: a non-empty string,
    but for the empty identifier a subagent directive may name. *)
Theorem router_guarded (env : Imports) (context : Context) (requestId : nat)
    (w w1 : World) (lastMessageUsage : option Usage) (sys : jval) :
  preamble env context requestId w = (Ok (lastMessageUsage, sys), w1) ->
  let result := router env context requestId w in
  let estimate :=
    calculateTokenCount (enc_encode env) (enc_misuse env) (json_text env)
      (messages (body (req w1))) sys (tools (body (req w1))) in
  result.1 = Ok tt /\
  (forall e, estimate = Throw e -> result.2 = caught (config context) e w1) /\
  (forall tokenCount, estimate = Ok tokenCount ->
     exists custom w1',
       customRoute env (config context) tokenCount w1 = (Ok custom, w1') /\
       body (req w1') = body (req w1) /\ heap w1' = heap w1 /\
       (configured (CUSTOM_ROUTER_PATH (config context)) = false ->
        custom = None /\ w1' = w1) /\
       (forall e,
          configured (CUSTOM_ROUTER_PATH (config context)) = true ->
          customRouterFails env (config context) tokenCount w1 e ->
          custom = None /\
          LogError ("failed to load custom router: " +:+ e) ∈ logged w1') /\
       (forall customRouter answer,
          configured (CUSTOM_ROUTER_PATH (config context)) = true ->
          require env (default "" (CUSTOM_ROUTER_PATH (config context))) = Ok customRouter ->
          customRouter (set_tokenCount (Some tokenCount) (req w1)) (config context)
            = Ok answer ->
          custom = answer) /\
       (configured custom = true -> result.2 = writeModel custom w1') /\
       (configured custom = false ->
        match getUseModel tokenCount (config context) lastMessageUsage w1' with
        | (Ok m, w2) => result.2 = writeModel m w2
        | (Throw e, w2) => result.2 = caught (config context) e w2
        end)) /\
  (configured (Policy.default (Router (config context))) = true ->
   configured (model (body (req result.2))) = true \/
   (model (body (req result.2)) = Some "" /\ emptyDirective w1)).
Proof.
  intros Hpre result estimate.
  assert (Hres : result = routeModel env (config context) lastMessageUsage sys w1).
  { unfold result. by rewrite router_unfold, Hpre. }
  assert (Hdecision : forall tokenCount, estimate = Ok tokenCount ->
     exists custom w1',
       customRoute env (config context) tokenCount w1 = (Ok custom, w1') /\
       body (req w1') = body (req w1) /\ heap w1' = heap w1 /\
       (configured custom = true -> result.2 = writeModel custom w1') /\
       (configured custom = false ->
        match getUseModel tokenCount (config context) lastMessageUsage w1' with
        | (Ok m, w2) => result.2 = writeModel m w2
        | (Throw e, w2) => result.2 = caught (config context) e w2
        end)).
  { intros tc Hest.
    destruct (customRoute_returns env (config context) tc w1) as (custom & w1' & Hc & Hb & Hh).
    exists custom, w1'. split; [exact Hc|]. split; [exact Hb|]. split; [exact Hh|].
    rewrite Hres, routeModel_unfold, routeModelBody_unfold. fold estimate.
    rewrite Hest, Hc. split; [by intros ->|].
    intros ->. by destruct (getUseModel tc (config context) lastMessageUsage w1')
                 as [[m|e] w2]. }
  split; [rewrite Hres; apply routeModel_returns|].
  split; [|split].
  - intros e Hest. rewrite Hres, routeModel_unfold, routeModelBody_unfold.
    fold estimate. by rewrite Hest.
  - intros tc Hest.
    destruct (Hdecision tc Hest) as (custom & w1' & Hc & Hb & Hh & Hyes & Hno).
    exists custom, w1'. split; [exact Hc|]. split; [exact Hb|]. split; [exact Hh|].
    split; [|split; [|split; [|by split]]].
    + intros Hoff. rewrite (customRoute_absent _ _ _ _ Hoff) in Hc. by injection Hc as <- <-.
    + intros e Hon Hf.
      destruct (customRoute_fails env (config context) tc w1 e Hon Hf)
        as (w' & Hcr & _). rewrite Hcr in Hc. injection Hc as <- <-.
      split; [done|]. simpl. apply elem_of_app. right. by apply list_elem_of_singleton.
    + intros customRouter answer Hon Hload Hanswer.
      rewrite (customRoute_answers _ _ _ _ _ _ Hon Hload Hanswer) in Hc.
      by injection Hc as <- <-.
  - intros Hd. destruct estimate as [tc|e] eqn:Hest.
    + destruct (Hdecision tc eq_refl) as (custom & w1' & Hc & Hb & Hh & Hyes & Hno).
      destruct (configured custom) eqn:Hcu.
      * left. by rewrite (Hyes eq_refl).
      * specialize (Hno eq_refl).
        destruct (getUseModel tc (config context) lastMessageUsage w1')
          as [[m|e] w2] eqn:Hg; rewrite Hno; [|by left].
        destruct (getUseModel_identifier _ _ _ _ _ _ Hd Hg) as [Hm|[-> He]]; [by left|].
        right. split; [done|]. unfold emptyDirective in *. by rewrite <- Hb.
    + left. rewrite Hres, routeModel_unfold, routeModelBody_unfold.
      fold estimate. by rewrite Hest.
Qed.

Lemma router_guarded_witness :
  let result := router sampleImports (mkContext longModelConfig None) 7
                  (worldOf (plainRequest "claude-sonnet")) in
  result.1 = Ok tt /\
  model (body (req result.2)) = Some "default-model".
Proof.
  intros result.
  destruct (router_guarded sampleImports (mkContext longModelConfig None) 7
              (worldOf (plainRequest "claude-sonnet"))
              (worldOf (plainRequest "claude-sonnet")) None (JArr []) eq_refl)
    as (Hret & _ & Hdec & _).
  split; [exact Hret|].
  destruct (Hdec 0%Z eq_refl) as (custom & w1' & _ & _ & _ & Hoff & _ & _ & _ & Hno).
  destruct (Hoff eq_refl) as [-> ->]. specialize (Hno eq_refl).
  assert (Hg : getUseModel 0 (config (mkContext longModelConfig None)) None
                 (worldOf (plainRequest "claude-sonnet"))
               = (Ok (Some "default-model"), worldOf (plainRequest "claude-sonnet")))
    by reflexivity.
  rewrite Hg in Hno. unfold result. by rewrite Hno.
Defined.

(** * Further properties of the router module *)

(** ** The order of the rules in [getUseModel] *)

Lemma getUseModel_later (config : Config) (tokenCount : Z) (lastUsage : option Usage)
    (w : World) (requested : string) :
  reachesLaterRules config tokenCount lastUsage w requested ->
  getUseModel tokenCount config lastUsage w = laterRules config requested w.
Proof.
  intros (Hm & Hi & Hl & Hs).
  rewrite (getUseModel_plain _ _ _ _ _ Hm Hi), Hl.
  unfold subagentRule. by rewrite Hs.
Qed.

(** X1. Behind the long-context and subagent rules the background rule
    comes first and the think rule second: a request for a model of the
    "claude-3-5-haiku" family gets the background model when one is
    configured, whatever its thinking flag and tools are; failing that,
    a request with a truthy [thinking] gets the think model when one is
    configured, whatever its tools are (they are not looked at, so
    malformed tools do no harm). Each logs its line. *)
Theorem later_rules_priority (config : Config) (tokenCount : Z)
    (lastUsage : option Usage) (w : World) (requested : string) :
  reachesLaterRules config tokenCount lastUsage w requested ->
  (JsString.startsWith "claude-3-5-haiku" requested = true ->
   configured (Policy.background (Router config)) = true ->
   getUseModel tokenCount config lastUsage w =
     (Ok (Policy.background (Router config)),
      add_logged (LogInfo ("Using background model for " +:+ requested)) w)) /\
  ((JsString.startsWith "claude-3-5-haiku" requested
    && configured (Policy.background (Router config))) = false ->
   Js.truthy (thinking (body (req w))) = true ->
   configured (Policy.think (Router config)) = true ->
   getUseModel tokenCount config lastUsage w =
     (Ok (Policy.think (Router config)),
      add_logged (LogInfo ("Using think model for "
                           +:+ Js.toString (thinking (body (req w))))) w)).
Proof.
  intros Hr. rewrite (getUseModel_later _ _ _ _ _ Hr). unfold laterRules. split.
  - intros -> ->. done.
  - intros -> -> ->. done.
Qed.

Lemma later_rules_priority_witness :
  getUseModel 0 fullConfig None
    (worldOf (haikuRequest (JBool true) (JArr [JNull])))
  = (Ok (Some "background-model"),
     add_logged (LogInfo "Using background model for claude-3-5-haiku-20241022")
       (worldOf (haikuRequest (JBool true) (JArr [JNull])))) /\
  getUseModel 0 fullConfig None
    (worldOf (sonnetRequest (JBool true) (JArr [JNull])))
  = (Ok (Some "think-model"),
     add_logged (LogInfo "Using think model for true")
       (worldOf (sonnetRequest (JBool true) (JArr [JNull])))).
Proof.
  split.
  - exact (proj1 (later_rules_priority fullConfig 0 None
                    (worldOf (haikuRequest (JBool true) (JArr [JNull])))
                    "claude-3-5-haiku-20241022"
                    (conj eq_refl (conj eq_refl (conj eq_refl eq_refl))))
             eq_refl eq_refl).
  - exact (proj2 (later_rules_priority fullConfig 0 None
                    (worldOf (sonnetRequest (JBool true) (JArr [JNull])))
                    "claude-sonnet"
                    (conj eq_refl (conj eq_refl (conj eq_refl eq_refl))))
             eq_refl eq_refl eq_refl).
Defined.

Lemma someWebSearch_passed (pre rest : list jval) :
  forallb passedTool pre = true ->
  someWebSearch (pre ++ rest) = someWebSearch rest.
Proof.
  induction pre as [|t pre IH]; simpl; [done|].
  intros [Ht Hpre]%andb_true_iff. rewrite <- (IH Hpre). clear IH Hpre.
  unfold passedTool in Ht. apply andb_true_iff in Ht as [Hn Ht].
  apply negb_true_iff in Hn. rewrite (get_not_nullish _ _ Hn), outcome_bind_unfold.
  cbv beta iota.
  destruct (Js.getOpt t "type"); try done.
  apply negb_true_iff in Ht. unfold startsWithOpt. by rewrite Ht.
Qed.

(** X2. The web-search rule, for a request that the earlier rules leave
    alone and whose tools are an array: the tools are searched left to
    right; once a tool whose type starts with "web_search" is reached
    past tools of other types, the web-search model is returned when one
    is configured and the default model else, nothing being logged; a
    nullish tool reached first makes the selection throw, even with no
    web-search model configured. *)
Theorem web_search_rule (config : Config) (tokenCount : Z)
    (lastUsage : option Usage) (w : World) (requested : string)
    (pre post : list jval) (tool : jval) :
  reachesLaterRules config tokenCount lastUsage w requested ->
  (JsString.startsWith "claude-3-5-haiku" requested
   && configured (Policy.background (Router config))) = false ->
  (Js.truthy (thinking (body (req w)))
   && configured (Policy.think (Router config))) = false ->
  tools (body (req w)) = JArr (pre ++ tool :: post) ->
  forallb passedTool pre = true ->
  (Js.nullish tool = false -> isWebSearchTool tool = true ->
   getUseModel tokenCount config lastUsage w =
     (Ok (if configured (Policy.webSearch (Router config))
          then Policy.webSearch (Router config)
          else Policy.default (Router config)), w)) /\
  (Js.nullish tool = true ->
   exists e, getUseModel tokenCount config lastUsage w = (Throw e, w)).
Proof.
  intros Hr Hb Hk Ht Hpre. rewrite (getUseModel_later _ _ _ _ _ Hr).
  unfold laterRules. rewrite Hb, Hk, Ht, (someWebSearch_passed _ _ Hpre).
  cbn [someWebSearch]. split.
  - intros Hn Hws. rewrite (get_not_nullish _ _ Hn), outcome_bind_unfold.
    unfold isWebSearchTool in Hws. cbv beta iota.
    destruct (Js.getOpt tool "type"); try done.
    unfold startsWithOpt. rewrite Hws. cbv beta iota. simpl andb.
    by destruct (configured (Policy.webSearch (Router config))).
  - intros Hn. destruct tool; try done; by eexists.
Qed.

Lemma web_search_rule_witness :
  getUseModel 0 fullConfig None (worldOf (sonnetRequest JUndef searchTools))
  = (Ok (Some "search-model"), worldOf (sonnetRequest JUndef searchTools)).
Proof.
  exact (proj1 (web_search_rule fullConfig 0 None
                  (worldOf (sonnetRequest JUndef searchTools)) "claude-sonnet"
                  [JObj [("name", JStr "bash")]] []
                  (JObj [("type", JStr "web_search_20250305"); ("name", JStr "web_search")])
                  (conj eq_refl (conj eq_refl (conj eq_refl eq_refl)))
                  eq_refl eq_refl eq_refl eq_refl)
           eq_refl eq_refl).
Defined.

(** ** What model selection leaves alone *)

Lemma laterRules_effect (config : Config) (requested : string) (w : World) :
  ((laterRules config requested w).2 = w \/
   exists e, (laterRules config requested w).2 = add_logged e w) /\
  (isOk (laterRules config requested w).1 = false -> (laterRules config requested w).2 = w).
Proof.
  unfold laterRules. repeat case_match; simpl; split; try discriminate; eauto.
Qed.

Lemma getUseModel_cases (tokenCount : Z) (config : Config)
    (lastUsage : option Usage) (w : World) :
  (isOk (getUseModel tokenCount config lastUsage w).1 = false ->
   (getUseModel tokenCount config lastUsage w).2 = w) /\
  ((getUseModel tokenCount config lastUsage w).2 = w \/
   (exists e, (getUseModel tokenCount config lastUsage w).2 = add_logged e w) \/
   (exists id s, (getUseModel tokenCount config lastUsage w).1 = Ok (Some id) /\
      (getUseModel tokenCount config lastUsage w).2
      = set_req (set_body (set_system s (body (req w))) (req w)) w)).
Proof.
  unfold getUseModel.
  destruct (model (body (req w))) as [requested|]; [|by split; [|left]].
  destruct (JsString.includes "," requested); [by split; [|left]|].
  destruct (longContextRule config tokenCount lastUsage).
  { split; [discriminate|]. right. left. by eexists. }
  pose proof (laterRules_effect config requested w) as [Hl1 Hl2].
  unfold subagentRule.
  destruct (subagentGuard (system (body (req w)))) as [[|]|]; [| |by split; [|left]].
  - destruct (segmentText (system (body (req w)))); try (split; [exact Hl2|tauto]).
    destruct (JsString.matchBetween SUBAGENT_OPEN SUBAGENT_CLOSE s);
      [|split; [exact Hl2|tauto]].
    split; [discriminate|]. right. right. by eexists _, _.
  - split; [exact Hl2|tauto].
Qed.

(** X3. Model selection never touches the provider objects or the
    provider service. It changes the world in one of three ways only:
    not at all, by one log line, or (returning the identifier of a
    subagent directive) by replacing the system prompt of the request;
    and when it throws it has changed nothing. *)
Theorem getUseModel_effect (tokenCount : Z) (config : Config)
    (lastUsage : option Usage) (w : World) :
  let result := getUseModel tokenCount config lastUsage w in
  heap result.2 = heap w /\
  updated result.2 = updated w /\
  (isOk result.1 = false -> result.2 = w) /\
  (result.2 = w \/
   (exists e, result.2 = add_logged e w) \/
   (exists id s, result.1 = Ok (Some id) /\
                 result.2 = set_req (set_body (set_system s (body (req w))) (req w)) w)).
Proof.
  intros result.
  destruct (getUseModel_cases tokenCount config lastUsage w) as [H1 H2].
  fold result in H1, H2.
  assert (Hheap : heap result.2 = heap w /\ updated result.2 = updated w).
  { destruct H2 as [->|[[e ->]|(id & s & _ & ->)]]; done. }
  tauto.
Qed.

(** ** A directive that is not closed *)

Lemma breakOn_drop_None (sep s : string) (n : nat) :
  JsString.breakOn sep s = None -> JsString.breakOn sep (JsString.drop n s) = None.
Proof.
  revert s. induction n as [|n IH]; intros s; [done|].
  destruct s as [|c s]; [done|]. simpl.
  destruct (JsString.startsWith sep (String c s)); [discriminate|].
  destruct (JsString.breakOn sep s) as [[a b]|] eqn:E; [discriminate|].
  intros _. by apply IH.
Qed.

Lemma matchBetween_absent (open close s : string) :
  JsString.includes close s = false -> JsString.matchBetween open close s = None.
Proof.
  unfold JsString.includes. induction s as [|c s IH]; intros Hs.
  - destruct (JsString.breakOn close "") as [[a b]|] eqn:E; [discriminate|].
    simpl. destruct (JsString.startsWith open ""); [|done].
    by rewrite (breakOn_drop_None _ _ _ E).
  - destruct (JsString.breakOn close (String c s)) as [[a b]|] eqn:E; [discriminate|].
    assert (Es : JsString.breakOn close s = None).
    { simpl in E. destruct (JsString.startsWith close (String c s)); [discriminate|].
      by destruct (JsString.breakOn close s) as [[??]|]. }
    simpl. rewrite (breakOn_drop_None _ _ (String.length open) E).
    destruct (JsString.startsWith open (String c s)); simpl; apply IH; by rewrite Es.
Qed.

(** X4. A directive without its closing marker is no directive: for a
    request that the earlier rules leave alone, a second system segment
    whose text opens with the marker but holds no closing marker is left
    as it is, and the later rules decide. *)
Theorem subagent_directive_unclosed (config : Config) (tokenCount : Z)
    (lastUsage : option Usage) (w : World) (requested : string)
    (segments : list jval) (fields : list (string * jval)) (text : string) :
  model (body (req w)) = Some requested ->
  JsString.includes "," requested = false ->
  longContextRule config tokenCount lastUsage = false ->
  system (body (req w)) = JArr segments ->
  segments !! 1%nat = Some (JObj fields) ->
  Js.assoc "text" fields = JStr text ->
  JsString.startsWith SUBAGENT_OPEN text = true ->
  JsString.includes SUBAGENT_CLOSE text = false ->
  getUseModel tokenCount config lastUsage w = laterRules config requested w /\
  system (body (req (getUseModel tokenCount config lastUsage w).2)) = JArr segments.
Proof.
  intros Hm Hi Hl Hs H1 Ht Ho Hc.
  assert (Hnth : nth 1 segments JUndef = JObj fields) by (by rewrite nth_lookup, H1).
  assert (Hlen : (1 < length segments)%nat) by (by eapply lookup_lt_Some).
  assert (Hg : getUseModel tokenCount config lastUsage w = laterRules config requested w).
  { rewrite (getUseModel_plain _ _ _ _ _ Hm Hi), Hl.
    unfold subagentRule, subagentGuard. rewrite Hs.
    assert (Hseg : segmentText (JArr segments) = JStr text).
    { unfold segmentText. simpl. rewrite Hnth. exact Ht. }
    assert (Hgt : Js.gt (Js.getOpt (JArr segments) "length") 1 = true).
    { simpl. apply Z.ltb_lt. lia. }
    simpl Js.nullish. cbv iota. rewrite Hgt, Hseg. unfold startsWithOpt.
    by rewrite Ho, (matchBetween_absent _ _ _ Hc). }
  split; [exact Hg|]. rewrite Hg.
  destruct (laterRules_effect config requested w) as [[->|[e ->]] _]; by rewrite <- Hs.
Qed.

Lemma subagent_directive_unclosed_witness :
  getUseModel 0 longModelConfig None (worldOf (directiveRequest unclosedDirective))
  = laterRules longModelConfig "claude-sonnet"
      (worldOf (directiveRequest unclosedDirective)) /\
  system (body (req (getUseModel 0 longModelConfig None
                       (worldOf (directiveRequest unclosedDirective))).2))
  = directiveSystem unclosedDirective.
Proof.
  exact (subagent_directive_unclosed longModelConfig 0 None
           (worldOf (directiveRequest unclosedDirective)) "claude-sonnet"
           [JObj [("type", JStr "text"); ("text", JStr "You are a coding agent.")];
            JObj [("type", JStr "text"); ("text", JStr unclosedDirective)]]
           [("type", JStr "text"); ("text", JStr unclosedDirective)]
           unclosedDirective
           eq_refl eq_refl eq_refl eq_refl eq_refl eq_refl eq_refl eq_refl).
Defined.

(** ** The compound selector when it resolves *)

Lemma findProvider_found (h : gmap loc Provider.t) (provider : string)
    (pre post : list entry) (e : entry) (p : Provider.t) (n : string) :
  Forall (passedEntry h provider) pre ->
  deref h e = Some p -> Provider.name p = Some n ->
  JsString.toLowerCase n = provider ->
  findProvider h (Some provider) (pre ++ e :: post) = Ok (Some p).
Proof.
  intros Hpre Hd Hn Hl. induction Hpre as [|e' pre (p' & n' & Hd' & Hn' & Hne) _ IH]; simpl.
  - rewrite Hd, Hn, decide_True; [done|by rewrite Hl].
  - rewrite Hd', Hn', decide_False; [exact IH|]. by intros [= ?].
Qed.

Lemma split_two_includes (s a b : string) (rest : list string) :
  JsString.split "," s = a :: b :: rest -> JsString.includes "," s = true.
Proof.
  intros Hs. unfold JsString.includes.
  destruct (JsString.breakOn "," s) as [[x y]|] eqn:E; [done|].
  rewrite (split_absent "," s) in Hs; [discriminate|discriminate|exact E].
Qed.

(** X5. A compound selector that resolves: when the first entry of the
    capitalized list whose lowered name is the requested provider part
    has a model whose lowered name is the requested model part, the
    result is "name,model" in the casing the configuration stores, built
    from the first two parts of the request alone. The selector comes
    ahead of every other rule, so the token count and the last usage
    play no part, nothing is logged and the request is left as it is. *)
Theorem compound_selector_resolves (config : Config) (tokenCount : Z)
    (lastUsage : option Usage) (w : World) (requested provider modelPart : string)
    (more : list string) (pre post : list entry) (e : entry) (p : Provider.t)
    (n m : string) (ms : list string) :
  model (body (req w)) = Some requested ->
  JsString.split "," requested = provider :: modelPart :: more ->
  Providers config = Some (pre ++ e :: post) ->
  Forall (passedEntry (heap w) provider) pre ->
  deref (heap w) e = Some p ->
  Provider.name p = Some n ->
  JsString.toLowerCase n = provider ->
  Provider.models p = Some ms ->
  find (fun m' => bool_decide (Some (JsString.toLowerCase m') = Some modelPart)) ms
    = Some m ->
  m <> "" ->
  getUseModel tokenCount config lastUsage w = (Ok (Some (n +:+ "," +:+ m)), w) /\
  JsString.toLowerCase m = modelPart.
Proof.
  intros Hm Hs Hp Hpre Hd Hn Hl Hms Hf Hne. split.
  - unfold getUseModel. rewrite Hm, (split_two_includes _ _ _ _ Hs).
    unfold compoundSelector. rewrite Hs, Hp. simpl lookup.
    rewrite (findProvider_found _ _ _ _ _ _ _ Hpre Hd Hn Hl), outcome_bind_unfold.
    unfold findModel. simpl. rewrite Hms. simpl. rewrite Hf, Hn. simpl.
    by rewrite (proj2 (String.eqb_neq m "") Hne).
  - apply find_some in Hf as [_ Hb]. apply bool_decide_eq_true in Hb. by injection Hb.
Qed.

Lemma compound_selector_resolves_witness :
  getUseModel 70000 mixedCaseConfig None
    (mkWorld (plainRequest "openrouter,anthropic/claude,extra") mixedCaseHeap [] [])
  = (Ok (Some "OpenRouter,Anthropic/Claude"),
     mkWorld (plainRequest "openrouter,anthropic/claude,extra") mixedCaseHeap [] []) /\
  JsString.toLowerCase "Anthropic/Claude" = "anthropic/claude".
Proof.
  refine (compound_selector_resolves mixedCaseConfig 70000 None
            (mkWorld (plainRequest "openrouter,anthropic/claude,extra") mixedCaseHeap [] [])
            "openrouter,anthropic/claude,extra" "openrouter" "anthropic/claude" ["extra"]
            [Some 0%nat] [] (Some 1%nat) mixedCaseProvider "OpenRouter" "Anthropic/Claude"
            ["Anthropic/Claude"; "gpt-4"]
            eq_refl eq_refl eq_refl _ eq_refl eq_refl eq_refl eq_refl eq_refl _).
  - constructor; [|constructor].
    exists openaiProvider, "openai". repeat split; discriminate.
  - discriminate.
Defined.

(** ** The custom router *)

(** X6. A custom router that loads and answers is handed the request
    with the token count on it. A non-empty answer becomes the model of
    the request and the built-in rules are not run: nothing is logged
    and the system prompt is not touched. An empty or absent answer
    hands the decision to the built-in rules, which see the request
    with the token count on it. *)
Theorem custom_router_answers (env : Imports) (config : Config)
    (lastMessageUsage : option Usage) (system : jval) (w : World)
    (tokenCount : Z) (customRouter : CustomRouter) (answer : option string) :
  calculateTokenCount (enc_encode env) (enc_misuse env) (json_text env)
    (messages (body (req w))) system (tools (body (req w))) = Ok tokenCount ->
  configured (CUSTOM_ROUTER_PATH config) = true ->
  require env (default "" (CUSTOM_ROUTER_PATH config)) = Ok customRouter ->
  customRouter (set_tokenCount (Some tokenCount) (req w)) config = Ok answer ->
  let w1 := set_req (set_tokenCount (Some tokenCount) (req w)) w in
  (configured answer = true ->
   routeModel env config lastMessageUsage system w = (Ok tt, writeModel answer w1)) /\
  (configured answer = false ->
   routeModelBody env config lastMessageUsage system w =
     match getUseModel tokenCount config lastMessageUsage w1 with
     | (Ok m, w2) => (Ok tt, writeModel m w2)
     | (Throw e, w2) => (Throw e, w2)
     end).
Proof.
  intros Hcalc Hc Hr Ha w1.
  pose proof (customRoute_answers env config tokenCount w customRouter answer Hc Hr Ha) as Hcr.
  split; intros Hans.
  - by rewrite routeModel_unfold, routeModelBody_unfold, Hcalc, Hcr, Hans.
  - by rewrite routeModelBody_unfold, Hcalc, Hcr, Hans.
Qed.

Lemma custom_router_answers_witness :
  routeModel customImports customRouterConfig None (directiveSystem directiveText)
    (worldOf (directiveRequest directiveText))
  = (Ok tt,
     writeModel (Some "custom-model")
       (set_req (set_tokenCount (Some directiveTokens) (directiveRequest directiveText))
          (worldOf (directiveRequest directiveText)))).
Proof.
  exact (proj1 (custom_router_answers customImports customRouterConfig None
                  (directiveSystem directiveText)
                  (worldOf (directiveRequest directiveText)) directiveTokens pickyRouter
                  (Some "custom-model") eq_refl eq_refl eq_refl eq_refl)
           eq_refl).
Defined.

(** ** The system prompt rewrite (router, lines 256-260) *)

Section StringLengths.
#[local] Arguments String.app !_ _ / : simpl nomatch.

Lemma string_length_app (a b : string) :
  String.length (a +:+ b) = (String.length a + String.length b)%nat.
Proof. induction a as [|c a IH]; simpl; [done|by rewrite IH]. Qed.

Lemma string_app_nil_r (a : string) : a +:+ "" = a.
Proof. induction a as [|c a IH]; simpl; [done|by rewrite IH]. Qed.

End StringLengths.

Lemma last_cons_Some {A} (x y : A) (l : list A) :
  last l = Some y -> last (x :: l) = Some y.
Proof. destruct l; [discriminate|done]. Qed.

(** The last piece of a split: it ends the string, holds no separator,
    and follows a separator when there is one. *)
Lemma splitGo_last (sep : string) (n : nat) (s : string) :
  sep <> EmptyString ->
  (String.length s <= n)%nat ->
  exists before tail,
    last (JsString.splitGo sep 0 s) = Some tail /\
    s = before +:+ tail /\
    JsString.includes sep tail = false /\
    (JsString.includes sep s = true -> exists x, before = x +:+ sep).
Proof.
  intros Hne. revert s. induction n as [|n IH]; intros s Hlen.
  - destruct s; [|simpl in Hlen; lia]. exists "", "".
    unfold JsString.includes. simpl. rewrite (prefix_nonempty _ Hne). by repeat split.
  - unfold JsString.includes.
    destruct (JsString.breakOn sep s) as [[a b]|] eqn:Hb.
    + pose proof (breakOn_Some _ _ _ _ Hb) as Hs.
      assert (Hlb : (String.length b <= n)%nat).
      { rewrite Hs, !string_length_app in Hlen.
        destruct sep; [done|]. simpl in Hlen. lia. }
      destruct (IH b Hlb) as (before & tail & Hlast & Hbt & Htail & Hsep).
      exists (a +:+ sep +:+ before), tail.
      rewrite (splitGo_breakOn_Some _ _ _ _ Hne Hb).
      split; [by apply last_cons_Some|]. split.
      { rewrite Hs, Hbt. by rewrite !string_app_assoc. }
      split; [exact Htail|]. intros _.
      unfold JsString.includes in Hsep.
      destruct (JsString.breakOn sep b) as [[a' b']|] eqn:Hb2.
      * destruct (Hsep eq_refl) as [x ->]. exists (a +:+ sep +:+ x).
        by rewrite !string_app_assoc.
      * rewrite (splitGo_breakOn_None _ _ Hb2) in Hlast. injection Hlast as <-.
        assert (before = "") as ->.
        { apply (f_equal String.length) in Hbt. rewrite string_length_app in Hbt.
          destruct before; [done|]. simpl in Hbt. lia. }
        exists a. by rewrite string_app_nil_r.
    + exists "", s. rewrite (splitGo_breakOn_None _ _ Hb).
      repeat split; try done. unfold JsString.includes. by rewrite Hb.
Qed.

(** X7. The rewrite of the system prompt, when a rewrite file is
    configured and the text of the second segment is a string: without
    the "<env>" marker in that text the file is not read and nothing
    changes; with the marker, a file that cannot be read fails the step
    with the request untouched, and a file that is read replaces the
    text by the file's content, the marker, and the part of the old text
    behind its last marker (a part that holds no marker and follows
    one); the other fields of the segment and the other segments
    stay. *)
Theorem rewriteSystemPrompt_keeps_tail (env : Imports) (config : Config) (w : World)
    (segments : list jval) (fields : list (string * jval)) (text : string) :
  configured (REWRITE_SYSTEM_PROMPT config) = true ->
  system (body (req w)) = JArr segments ->
  segments !! 1%nat = Some (JObj fields) ->
  Js.assoc "text" fields = JStr text ->
  (JsString.includes "<env>" text = false ->
   rewriteSystemPrompt env config w = (Ok (JArr segments), w)) /\
  (JsString.includes "<env>" text = true ->
   forall e, readFile env (default "" (REWRITE_SYSTEM_PROMPT config)) = Throw e ->
             rewriteSystemPrompt env config w = (Throw e, w)) /\
  (JsString.includes "<env>" text = true ->
   forall prompt,
     readFile env (default "" (REWRITE_SYSTEM_PROMPT config)) = Ok prompt ->
     exists before tail,
       text = before +:+ "<env>" +:+ tail /\
       JsString.includes "<env>" tail = false /\
       let system' :=
         JArr (<[1%nat := JObj (setField "text" (JStr (prompt +:+ "<env>" +:+ tail)) fields)]>
                 segments) in
       rewriteSystemPrompt env config w =
         (Ok system', set_req (set_body (set_system system' (body (req w))) (req w)) w)).
Proof.
  intros Hc Hs H1 Ht.
  assert (Hnth : nth 1 segments JUndef = JObj fields) by (by rewrite nth_lookup, H1).
  assert (Hlen : (1 < length segments)%nat) by (by eapply lookup_lt_Some).
  assert (Hseg : segmentText (JArr segments) = JStr text).
  { unfold segmentText. simpl. rewrite Hnth. exact Ht. }
  assert (Hgt : Js.gt (JNum (Z.of_nat (length segments))) 1 = true).
  { simpl. apply Z.ltb_lt. lia. }
  assert (Hunf : rewriteSystemPrompt env config w =
    if JsString.includes "<env>" text then
      match readFile env (default "" (REWRITE_SYSTEM_PROMPT config)) with
      | Throw e => (Throw e, w)
      | Ok prompt =>
          let tail := default "" (last (JsString.split "<env>" text)) in
          let system' := setSegmentText (JArr segments) (prompt +:+ "<env>" +:+ tail) in
          (Ok system', set_req (set_body (set_system system' (body (req w))) (req w)) w)
      end
    else (Ok (JArr segments), w)).
  { unfold rewriteSystemPrompt. rewrite Hs, Hc.
    change (Js.get (JArr segments) "length") with (Ok (JNum (Z.of_nat (length segments)))).
    cbv beta iota. rewrite Hgt, Hseg. unfold includesEnv.
    destruct (JsString.includes "<env>" text); [|done].
    by destruct (readFile env _). }
  rewrite Hunf. split; [by intros ->|]. split.
  - intros -> e ->. done.
  - intros Hi prompt Hr. rewrite Hi, Hr.
    destruct (splitGo_last "<env>" (String.length text) text)
      as (before & tail & Hlast & Hbt & Htail & Hsep); [discriminate|lia|].
    destruct (Hsep Hi) as [x ->].
    exists x, tail. split; [by rewrite Hbt, !string_app_assoc|]. split; [exact Htail|].
    change (JsString.split "<env>" text) with (JsString.splitGo "<env>" 0 text).
    rewrite Hlast. simpl default. unfold setSegmentText. by rewrite Hnth.
Qed.

Lemma rewriteSystemPrompt_keeps_tail_witness :
  exists before tail,
    envText = before +:+ "<env>" +:+ tail /\
    JsString.includes "<env>" tail = false /\
    let system' :=
      JArr (<[1%nat := JObj (setField "text"
                              (JStr ("You are a careful agent. " +:+ "<env>" +:+ tail))
                              [("type", JStr "text"); ("text", JStr envText)])]>
              [JObj [("type", JStr "text"); ("text", JStr "You are a coding agent.")];
               JObj [("type", JStr "text"); ("text", JStr envText)]]) in
    rewriteSystemPrompt customImports rewriteConfig envWorld =
      (Ok system',
       set_req (set_body (set_system system' (body (req envWorld))) (req envWorld)) envWorld).
Proof.
  exact (proj2 (proj2 (rewriteSystemPrompt_keeps_tail customImports rewriteConfig envWorld
                         [JObj [("type", JStr "text"); ("text", JStr "You are a coding agent.")];
                          JObj [("type", JStr "text"); ("text", JStr envText)]]
                         [("type", JStr "text"); ("text", JStr envText)] envText
                         eq_refl eq_refl eq_refl eq_refl))
           eq_refl "You are a careful agent. " eq_refl).
Defined.

(** ** The overlay pass over the provider targets *)

Section OverlayPass.

Variable getProvider : option (string -> bool).
Variable token : string.
Variable requestId : nat.

(** The heap behind one run of the loop body. *)
Lemma applyOverride_heap (target : ProviderTarget.t) (w : World) (p0 : Provider.t) (l : loc) :
  heap w !! ProviderTarget.primary target = Some p0 ->
  heap (applyOverride getProvider token requestId target w).1 !! l =
    if (applyOverride getProvider token requestId target w).2
    then (if bool_decide (l ∈ ProviderTarget.references target)
          then fmap (Provider.set_keys token) else id)
           (if decide (ProviderTarget.primary target = l)
            then Some (pushed token requestId p0) else heap w !! l)
    else (if decide (ProviderTarget.primary target = l)
          then Some (initialised p0) else heap w !! l).
Proof.
  intros Hp. destruct (decide (effectiveCredential p0 = CStr token)) as [E|E].
  - rewrite (applyOverride_skip _ _ _ _ _ _ Hp E). simpl. apply lookup_insert.
  - rewrite (applyOverride_apply _ _ _ _ _ _ Hp E). simpl.
    rewrite (proj1 (notifyService_heap _ _ _ _)). simpl.
    rewrite writeKeys_lookup, lookup_insert. by case_bool_decide.
Qed.

Lemma applyOverride_absent (target : ProviderTarget.t) (w : World) :
  heap w !! ProviderTarget.primary target = None ->
  applyOverride getProvider token requestId target w = (w, false).
Proof. intros Hp. unfold applyOverride. by rewrite Hp. Qed.

Lemma pushed_fields (p : Provider.t) :
  Provider.name (pushed token requestId p) = Provider.name p /\
  Provider.api_key (pushed token requestId p) = Provider.api_key p /\
  Provider.apiKey (pushed token requestId p) = Provider.apiKey p /\
  stackOf (pushed token requestId p) = stackOf p ++ [StackEntry.mk requestId token].
Proof.
  pose proof (initialised_fields p) as (? & ? & ? & _). unfold pushed. simpl. done.
Qed.

(** One run of the loop body keeps every object, with its name; an
    object that reports the token still does; and when the run records
    an override, every reference of its target reports the token. *)
Lemma applyOverride_step (target : ProviderTarget.t) (w : World) (l : loc) (p : Provider.t) :
  heap w !! l = Some p ->
  exists p', heap (applyOverride getProvider token requestId target w).1 !! l = Some p' /\
             Provider.name p' = Provider.name p /\
             (reports token p -> reports token p') /\
             ((applyOverride getProvider token requestId target w).2 = true ->
              l ∈ ProviderTarget.references target -> reports token p').
Proof.
  intros Hl.
  destruct (heap w !! ProviderTarget.primary target) as [p0|] eqn:Hp.
  - rewrite (applyOverride_heap target w p0 l Hp).
    pose proof (initialised_fields p0) as (Hn & Hk1 & Hk2 & _).
    pose proof (pushed_fields p0) as (Hn' & Hk1' & Hk2' & _).
    destruct (applyOverride getProvider token requestId target w).2.
    + assert (exists q, (if decide (ProviderTarget.primary target = l)
                         then Some (pushed token requestId p0) else heap w !! l) = Some q /\
                        Provider.name q = Provider.name p /\
                        (reports token p -> reports token q)) as (q & -> & Hq1 & Hq2).
      { case_decide as E; [|by eauto]. subst l. rewrite Hp in Hl. injection Hl as ->.
        eexists. split; [done|]. unfold reports. rewrite Hn', Hk1', Hk2'. done. }
      case_bool_decide as Hin; simpl; eexists; (split; [done|]).
      * split; [exact Hq1|]. by split.
      * split; [exact Hq1|]. split; [exact Hq2|]. by intros _ ?.
    + case_decide as E.
      * subst l. rewrite Hp in Hl. injection Hl as ->.
        eexists. split; [done|]. unfold reports. rewrite Hn, Hk1, Hk2.
        split; [done|split; [done|discriminate]].
      * eexists. split; [done|]. split; [done|split; [done|discriminate]].
  - rewrite (applyOverride_absent _ _ Hp). simpl. eexists. split; [done|].
    split; [done|split; [done|discriminate]].
Qed.

Lemma applyOverride_frame (target : ProviderTarget.t) (w : World) :
  req (applyOverride getProvider token requestId target w).1 = req w /\
  logged (applyOverride getProvider token requestId target w).1 = logged w /\
  updated (applyOverride getProvider token requestId target w).1 =
    updated w ++ notifications getProvider token
                   (if (applyOverride getProvider token requestId target w).2
                    then [Override.mk target requestId] else []).
Proof.
  assert (Hnil : notifications getProvider token [] = []).
  { unfold notifications. by destruct getProvider. }
  destruct (heap w !! ProviderTarget.primary target) as [p0|] eqn:Hp.
  - destruct (decide (effectiveCredential p0 = CStr token)) as [E|E].
    + rewrite (applyOverride_skip _ _ _ _ _ _ Hp E). simpl.
      by rewrite Hnil, app_nil_r.
    + rewrite (applyOverride_apply _ _ _ _ _ _ Hp E). simpl.
      unfold notifyService, notifications. destruct getProvider as [known|]; simpl.
      * destruct (known (ProviderTarget.name target)); simpl; by rewrite ?app_nil_r.
      * by rewrite app_nil_r.
  - rewrite (applyOverride_absent _ _ Hp). simpl. by rewrite Hnil, app_nil_r.
Qed.

Lemma applyOverrides_acc (targets : list ProviderTarget.t) (w : World)
    (overrides : list Override.t) :
  foldl (fun '(w, overrides) target =>
           let '(w', applied) := applyOverride getProvider token requestId target w in
           (w', if applied then overrides ++ [Override.mk target requestId]
                else overrides))
        (w, overrides) targets
  = ((applyOverrides getProvider token requestId targets w).1,
     overrides ++ (applyOverrides getProvider token requestId targets w).2).
Proof.
  unfold applyOverrides. revert w overrides.
  induction targets as [|t ts IH]; intros w overrides; simpl; [by rewrite app_nil_r|].
  destruct (applyOverride getProvider token requestId t w) as [w1 b].
  rewrite (IH w1 (if b then overrides ++ [Override.mk t requestId] else overrides)),
          (IH w1 (if b then [Override.mk t requestId] else [])).
  simpl. f_equal. destruct b; simpl; [by rewrite <- app_assoc|done].
Qed.

Lemma applyOverrides_cons (t : ProviderTarget.t) (ts : list ProviderTarget.t) (w : World) :
  applyOverrides getProvider token requestId (t :: ts) w =
    ((applyOverrides getProvider token requestId ts
        (applyOverride getProvider token requestId t w).1).1,
     (if (applyOverride getProvider token requestId t w).2
      then [Override.mk t requestId] else [])
     ++ (applyOverrides getProvider token requestId ts
           (applyOverride getProvider token requestId t w).1).2).
Proof.
  unfold applyOverrides at 1. simpl.
  destruct (applyOverride getProvider token requestId t w) as [w1 b]. simpl.
  rewrite applyOverrides_acc. by destruct b.
Qed.

End OverlayPass.

Section OverlayPassFacts.

Variable getProvider : option (string -> bool).
Variable token : string.
Variable requestId : nat.

Lemma applyOverride_step_None (target : ProviderTarget.t) (w : World) (l : loc) :
  heap w !! l = None ->
  heap (applyOverride getProvider token requestId target w).1 !! l = None.
Proof.
  intros Hl. destruct (heap w !! ProviderTarget.primary target) as [p0|] eqn:Hp.
  - rewrite (applyOverride_heap _ _ _ target w p0 l Hp).
    assert (ProviderTarget.primary target <> l) by congruence.
    destruct (applyOverride getProvider token requestId target w).2;
      rewrite decide_False by done; rewrite Hl; [by case_bool_decide|done].
  - by rewrite (applyOverride_absent _ _ _ _ _ Hp).
Qed.

Lemma notifications_app (a b : list Override.t) :
  notifications getProvider token (a ++ b)
  = notifications getProvider token a ++ notifications getProvider token b.
Proof.
  unfold notifications. destruct getProvider; [|done].
  by rewrite List.filter_app, map_app.
Qed.

(** What a pass over a list of targets does. *)
Lemma applyOverrides_invariant (targets : list ProviderTarget.t) (w : World) :
  req (applyOverrides getProvider token requestId targets w).1 = req w /\
  logged (applyOverrides getProvider token requestId targets w).1 = logged w /\
  updated (applyOverrides getProvider token requestId targets w).1
    = updated w ++ notifications getProvider token
                     (applyOverrides getProvider token requestId targets w).2 /\
  sublist (map Override.target (applyOverrides getProvider token requestId targets w).2)
          targets /\
  (forall o, o ∈ (applyOverrides getProvider token requestId targets w).2 ->
             Override.requestId o = requestId) /\
  (forall l, heap w !! l = None ->
             heap (applyOverrides getProvider token requestId targets w).1 !! l = None) /\
  (forall l p, heap w !! l = Some p ->
     exists p', heap (applyOverrides getProvider token requestId targets w).1 !! l = Some p' /\
                Provider.name p' = Provider.name p /\
                (reports token p -> reports token p')) /\
  (forall o r p, o ∈ (applyOverrides getProvider token requestId targets w).2 ->
     r ∈ ProviderTarget.references (Override.target o) ->
     heap w !! r = Some p ->
     exists p', heap (applyOverrides getProvider token requestId targets w).1 !! r = Some p' /\
                reports token p').
Proof.
  revert w. induction targets as [|t ts IH]; intros w.
  - unfold applyOverrides, notifications. simpl.
    split; [done|]. split; [done|]. split; [by destruct getProvider; rewrite app_nil_r|].
    split; [constructor|]. split; [by intros o ?%elem_of_nil|].
    split; [done|]. split; [by eauto|]. by intros o r p ?%elem_of_nil.
  - rewrite applyOverrides_cons. simpl fst. simpl snd.
    pose proof (applyOverride_frame getProvider token requestId t w) as (Hr & Hl & Hu).
    set (w1 := (applyOverride getProvider token requestId t w).1) in *.
    set (b := (applyOverride getProvider token requestId t w).2) in *.
    destruct (IH w1) as (IHr & IHl & IHu & IHs & IHi & IHn & IHk & IHo).
    split; [congruence|]. split; [congruence|]. split.
    { rewrite IHu, Hu, notifications_app. by rewrite app_assoc. }
    split.
    { destruct b; simpl; [by apply sublist_skip|by apply sublist_cons]. }
    split.
    { intros o [Ho|Ho]%elem_of_app; [|by apply IHi].
      destruct b; [|by apply elem_of_nil in Ho].
      by apply list_elem_of_singleton in Ho as ->. }
    split.
    { intros l Hn. apply IHn. by apply applyOverride_step_None. }
    split.
    { intros l p Hp.
      destruct (applyOverride_step getProvider token requestId t w l p Hp)
        as (p1 & Hp1 & Hn1 & Hk1 & _). fold w1 in Hp1.
      destruct (IHk l p1 Hp1) as (p2 & Hp2 & Hn2 & Hk2).
      exists p2. split; [done|]. split; [congruence|tauto]. }
    intros o r p [Ho|Ho]%elem_of_app Hin Hp.
    + destruct b eqn:Eb; [|by apply elem_of_nil in Ho].
      apply list_elem_of_singleton in Ho as ->. simpl in Hin.
      destruct (applyOverride_step getProvider token requestId t w r p Hp)
        as (p1 & Hp1 & _ & _ & Hrep). fold w1 b in Hp1, Hrep.
      destruct (IHk r p1 Hp1) as (p2 & Hp2 & _ & Hk2).
      exists p2. split; [done|]. apply Hk2, Hrep; [by rewrite Eb|done].
    + destruct (applyOverride_step getProvider token requestId t w r p Hp)
        as (p1 & Hp1 & _). fold w1 in Hp1.
      by apply (IHo o r p1).
Qed.

End OverlayPassFacts.

(** X8. A pass of the overlay with the token [T]: the overrides it
    records are for targets of the list, in the order of the list, and
    all under the request id of the call; at the end of the pass every
    reference of every recorded target reports [T] under both spellings
    of the credential field, whatever the later targets of the pass did;
    and the pass neither adds nor removes a provider object, nor changes
    a name. *)
Theorem applyOverrides_records (getProvider : option (string -> bool)) (token : string)
    (requestId : nat) (targets : list ProviderTarget.t) (w : World) :
  let result := applyOverrides getProvider token requestId targets w in
  sublist (map Override.target result.2) targets /\
  (forall o, o ∈ result.2 -> Override.requestId o = requestId) /\
  (forall o r p, o ∈ result.2 ->
     r ∈ ProviderTarget.references (Override.target o) ->
     heap w !! r = Some p ->
     exists p', heap result.1 !! r = Some p' /\ reports token p') /\
  (forall l, heap w !! l = None -> heap result.1 !! l = None) /\
  (forall l p, heap w !! l = Some p ->
     exists p', heap result.1 !! l = Some p' /\ Provider.name p' = Provider.name p).
Proof.
  intros result.
  destruct (applyOverrides_invariant getProvider token requestId targets w)
    as (_ & _ & _ & Hs & Hi & Hn & Hk & Ho).
  split; [exact Hs|]. split; [exact Hi|]. split; [exact Ho|]. split; [exact Hn|].
  intros l p Hp. destruct (Hk l p Hp) as (p' & ? & ? & _). by exists p'.
Qed.

(** X9. The provider service hears of a pass exactly this: one
    [updateProvider] call with the token for each recorded override
    whose provider it knows, in the order of the overrides; without a
    service, or for a provider it does not know, nothing. The pass
    leaves the request and the log as they were. *)
Theorem applyOverrides_notifies (getProvider : option (string -> bool)) (token : string)
    (requestId : nat) (targets : list ProviderTarget.t) (w : World) :
  let result := applyOverrides getProvider token requestId targets w in
  updated result.1 = updated w ++ notifications getProvider token result.2 /\
  (getProvider = None -> updated result.1 = updated w) /\
  req result.1 = req w /\
  logged result.1 = logged w.
Proof.
  intros result.
  destruct (applyOverrides_invariant getProvider token requestId targets w)
    as (Hr & Hl & Hu & _).
  split; [exact Hu|]. split; [|by split].
  intros ->. fold result in Hu. rewrite Hu. unfold notifications. by rewrite app_nil_r.
Qed.

(** ** The stack and the visible credential *)

(** The primary of a target the registry produces is an object of the
    heap and one of the target's references. *)
Lemma collected_primary (h : gmap loc Provider.t) (config : Config) (t : ProviderTarget.t) :
  t ∈ collectProviderTargets h config ->
  ProviderTarget.primary t ∈ ProviderTarget.references t /\
  exists p, h !! ProviderTarget.primary t = Some p.
Proof.
  intros Ht. destruct (collectProviderTargets_registered h config) as [_ Hok _ Hs _].
  rewrite Forall_forall in Hok. destruct (Hok t Ht) as (_ & Hin & _).
  split; [exact Hin|].
  specialize (Hs t _ Ht Hin). unfold declared in Hs.
  apply elem_of_app in Hs as [Hs|Hs]; apply named_elem in Hs as [_ Hn];
    unfold entryName, deref in Hn; simpl in Hn;
    destruct (h !! ProviderTarget.primary t) as [p|]; try discriminate; by exists p.
Qed.

(** X10. For every target the registry produces, one run of the loop
    body leaves the token as the credential in effect for its primary.
    The run records an override exactly when the token was not in
    effect before. When it does, the entry of the request with the
    token has been pushed on the primary's stack and is its top, and the
    two credential fields of the primary agree with it on the token;
    when it does not, the stack and the fields are as before, so a
    primary whose stack top agreed with its fields still has them
    agree. *)
Theorem applyOverride_coherent (getProvider : option (string -> bool)) (token : string)
    (requestId : nat) (config : Config) (target : ProviderTarget.t) (w : World) :
  target ∈ collectProviderTargets (heap w) config ->
  let result := applyOverride getProvider token requestId target w in
  exists p0 p1,
    heap w !! ProviderTarget.primary target = Some p0 /\
    heap result.1 !! ProviderTarget.primary target = Some p1 /\
    effectiveCredential p1 = CStr token /\
    (result.2 = true <-> effectiveCredential p0 <> CStr token) /\
    (result.2 = true ->
     stackOf p1 = stackOf p0 ++ [StackEntry.mk requestId token] /\
     last (stackOf p1) = Some (StackEntry.mk requestId token) /\
     coherent p1 /\ reports token p1) /\
    (result.2 = false ->
     effectiveCredential p0 = CStr token /\
     stackOf p1 = stackOf p0 /\
     Provider.api_key p1 = Provider.api_key p0 /\
     Provider.apiKey p1 = Provider.apiKey p0 /\
     (coherent p0 -> coherent p1)).
Proof.
  intros Ht result. destruct (collected_primary _ _ _ Ht) as [Hin [p0 Hp]].
  pose proof (applyOverride_heap getProvider token requestId target w p0
                (ProviderTarget.primary target) Hp) as Hh.
  fold result in Hh. rewrite bool_decide_true in Hh by done.
  destruct (decide (ProviderTarget.primary target = ProviderTarget.primary target))
    as [_|]; [|done].
  pose proof (initialised_fields p0) as (_ & Hk1 & Hk2 & _ & Hst & _ & _ & He).
  pose proof (pushed_fields token requestId p0) as (_ & _ & _ & Hst').
  destruct (decide (effectiveCredential p0 = CStr token)) as [E|E].
  - assert (Hres : result.2 = false).
    { unfold result. by rewrite (applyOverride_skip _ _ _ _ _ _ Hp E). }
    rewrite Hres in Hh. exists p0, (initialised p0).
    split; [done|]. split; [done|]. split; [by rewrite He|].
    split; [by rewrite Hres|]. split; [by rewrite Hres|].
    intros _. split; [done|]. split; [done|]. split; [done|]. split; [done|].
    unfold coherent, reports. by rewrite Hst, Hk1, Hk2.
  - assert (Hres : result.2 = true).
    { unfold result. by rewrite (applyOverride_apply _ _ _ _ _ _ Hp E). }
    rewrite Hres in Hh. simpl in Hh.
    assert (Hstack : stackOf (Provider.set_keys token (pushed token requestId p0))
                     = stackOf p0 ++ [StackEntry.mk requestId token]).
    { change (stackOf (Provider.set_keys token (pushed token requestId p0)))
        with (stackOf (pushed token requestId p0)). exact Hst'. }
    assert (Hlast : last (stackOf (Provider.set_keys token (pushed token requestId p0)))
                    = Some (StackEntry.mk requestId token)).
    { rewrite Hstack. apply last_snoc. }
    exists p0, (Provider.set_keys token (pushed token requestId p0)).
    split; [done|]. split; [done|]. split.
    { unfold effectiveCredential, currentKey. by rewrite Hlast. }
    split; [by rewrite Hres|]. split; [|by rewrite Hres].
    intros _. split; [exact Hstack|]. split; [exact Hlast|]. split; [|done].
    intros e He'. rewrite Hlast in He'. by injection He' as <-.
Qed.

Lemma applyOverride_coherent_witness :
  exists p0 p1,
    heap twoListWorld !! 0%nat = Some p0 /\
    heap (applyOverride None "T" 7 openaiTarget twoListWorld).1 !! 0%nat = Some p1 /\
    effectiveCredential p1 = CStr "T" /\
    last (stackOf p1) = Some (StackEntry.mk 7 "T") /\
    reports "T" p1.
Proof.
  assert (Hin : openaiTarget ∈ collectProviderTargets (heap twoListWorld) twoListConfig).
  { apply list_elem_of_singleton. reflexivity. }
  destruct (applyOverride_coherent None "T" 7 twoListConfig openaiTarget twoListWorld Hin)
    as (p0 & p1 & H0 & H1 & He & _ & Hrec & _).
  destruct (Hrec eq_refl) as (_ & Hlast & _ & Hrep).
  exists p0, p1. split; [exact H0|]. split; [exact H1|]. split; [exact He|].
  split; [exact Hlast|exact Hrep].
Defined.

(** ** The registry and the overlay together *)

Lemma registerProviders_ext (h1 h2 : gmap loc Provider.t) (o : option (list entry))
    (m : list ProviderTarget.t) :
  (forall e, entryName h1 e = entryName h2 e) ->
  registerProviders h1 o m = registerProviders h2 o m.
Proof.
  intros Hext. destruct o as [es|]; [|done]. simpl. revert m.
  induction es as [|e es IH]; intros m; simpl; [done|].
  assert (Hstep : registerProvider h1 m e = registerProvider h2 m e).
  { unfold registerProvider. destruct e as [l|]; [|done]. by rewrite Hext. }
  by rewrite Hstep, IH.
Qed.

(** Heaps that hold the same objects under the same names give the same
    targets. *)
Lemma collectProviderTargets_names (h1 h2 : gmap loc Provider.t) (config : Config) :
  (forall l, h1 !! l = None -> h2 !! l = None) ->
  (forall l p, h1 !! l = Some p ->
     exists p', h2 !! l = Some p' /\ Provider.name p' = Provider.name p) ->
  collectProviderTargets h2 config = collectProviderTargets h1 config.
Proof.
  intros Hnone Hsome.
  assert (Hext : forall e, entryName h2 e = entryName h1 e).
  { intros [l|]; [|done]. unfold entryName, deref. simpl.
    destruct (h1 !! l) as [p|] eqn:E.
    - destruct (Hsome l p E) as (p' & -> & Hn). simpl. by rewrite Hn.
    - by rewrite (Hnone l E). }
  unfold collectProviderTargets.
  rewrite (registerProviders_ext h2 h1 (Providers config) [] Hext).
  apply registerProviders_ext, Hext.
Qed.

(** X11. The credential overlay does not disturb the registry: after
    the overlay step of a call, with whatever token, every configuration
    yields the same provider targets as before, so each provider keeps
    its primary from call to call. *)
Theorem overlay_keeps_targets (getProvider : option (string -> bool)) (config : Config)
    (requestId : nat) (w : World) (config' : Config) :
  (applyDynamicApiKey getProvider config requestId w).1 = Ok tt /\
  collectProviderTargets (heap (applyDynamicApiKey getProvider config requestId w).2) config'
  = collectProviderTargets (heap w) config'.
Proof.
  unfold applyDynamicApiKey.
  destruct (Js.truthy (bearerToken (req w)) && _); [|done].
  destruct (negb (String.eqb (tokenOf (bearerToken (req w))) "")); [|done].
  pose proof (applyOverrides_invariant getProvider (tokenOf (bearerToken (req w)))
                requestId (collectProviderTargets (heap w) config) w)
    as (_ & _ & _ & _ & _ & Hn & Hk & _).
  destruct (applyOverrides getProvider _ requestId _ w) as [w' overrides].
  simpl in Hn, Hk.
  assert (Ht : collectProviderTargets (heap w') config'
               = collectProviderTargets (heap w) config').
  { apply collectProviderTargets_names; [exact Hn|].
    intros l p Hp. destruct (Hk l p Hp) as (p' & ? & ? & _). by exists p'. }
  by destruct (negb (Nat.eqb (length overrides) 0)).
Qed.

(** An entry that is registered already changes nothing. *)
Lemma registerNamed_registered (D : list (string * loc)) (m : list ProviderTarget.t)
    (n : string) (l : loc) :
  Registered D m -> (n, l) ∈ D -> registerNamed n l m = m.
Proof.
  intros [Hn _ Hc _ _] Hin.
  assert (Hnd : NoDup (map ProviderTarget.name m)).
  { rewrite Hn. apply seenStep_fold_NoDup, NoDup_nil_2. }
  destruct (Hc n l Hin) as (t & Ht & Etn & Hl). clear Hn Hc Hin D.
  induction m as [|t0 m IH]; [by apply elem_of_nil in Ht|]. simpl.
  apply NoDup_cons in Hnd as [Hfresh Hnd].
  destruct (String.eqb (ProviderTarget.name t0) n) eqn:E.
  - apply String.eqb_eq in E. apply elem_of_cons in Ht as [->|Ht].
    + by rewrite bool_decide_true.
    + exfalso. apply Hfresh. rewrite E, <- Etn. by apply (list_elem_of_fmap_2 ProviderTarget.name).
  - apply String.eqb_neq in E. apply elem_of_cons in Ht as [->|Ht]; [done|].
    by rewrite IH.
Qed.

Lemma registerProviders_registered (h : gmap loc Provider.t) (D : list (string * loc))
    (m : list ProviderTarget.t) (es : list entry) :
  Registered D m ->
  (forall n l, (n, l) ∈ named h es -> (n, l) ∈ D) ->
  foldl (registerProvider h) m es = m.
Proof.
  intros HR. induction es as [|e es IH]; intros Hsub; simpl; [done|].
  assert (Hstep : registerProvider h m e = m).
  { unfold registerProvider. destruct e as [l|]; [|done].
    destruct (entryName h (Some l)) as [n|] eqn:En; [|done].
    apply (registerNamed_registered D); [done|].
    apply Hsub, named_elem. split; [apply elem_of_cons; by left|done]. }
  rewrite Hstep. apply IH. intros n l Hin. apply Hsub.
  apply named_elem in Hin as [Hin En]. apply named_elem.
  split; [apply elem_of_cons; by right|done].
Qed.

(** X12. Entries are told apart by identity: a configuration that
    declares the same provider objects under both keys yields the
    targets of the capitalized list alone, and more generally a
    lowercase list that only repeats objects of the capitalized list
    adds nothing. *)
Theorem collectProviderTargets_repeated (h : gmap loc Provider.t) (config : Config)
    (es : list entry) :
  providers config = Some es ->
  (forall e, e ∈ es -> e ∈ default [] (Providers config)) ->
  collectProviderTargets h config = registerProviders h (Providers config) [].
Proof.
  intros Hp Hsub. unfold collectProviderTargets. rewrite Hp. simpl.
  apply (registerProviders_registered h (named h (default [] (Providers config)))).
  - apply (Registered_providers h (Providers config) [] []), Registered_nil.
  - intros n l [Hin En]%named_elem. apply named_elem. split; [by apply Hsub|done].
Qed.

Lemma collectProviderTargets_repeated_witness :
  collectProviderTargets twoListHeap
    (mkConfig longModelPolicy (Some [Some 0%nat; Some 1%nat]) (Some [Some 1%nat; Some 0%nat])
       None None)
  = registerProviders twoListHeap (Some [Some 0%nat; Some 1%nat]) [].
Proof.
  refine (collectProviderTargets_repeated twoListHeap
            (mkConfig longModelPolicy (Some [Some 0%nat; Some 1%nat])
               (Some [Some 1%nat; Some 0%nat]) None None)
            [Some 1%nat; Some 0%nat] eq_refl _).
  intros e He. simpl.
  apply elem_of_cons in He as [->|He]; [apply elem_of_cons; right; apply elem_of_cons; by left|].
  apply list_elem_of_singleton in He as ->. apply elem_of_cons. by left.
Defined.

(** ** The estimate of a growing conversation *)

Section EstimatorSums.

Variable enc : string -> outcome (list nat).
Variable mis : jval -> outcome nat.
Variable jt : jval -> string.

Lemma forEachAdd_shift (f : jval -> outcome Z) (xs : list jval) (acc : Z) :
  forEachAdd f xs acc = n ← forEachAdd f xs 0%Z; Ok (acc + n)%Z.
Proof.
  revert acc. induction xs as [|x xs IH]; intros acc.
  - change (Ok acc = Ok (acc + 0)%Z). f_equal. lia.
  - simpl. rewrite !outcome_bind_unfold. destruct (f x) as [n|e]; [|done].
    rewrite (IH (acc + n)%Z), (IH (0 + n)%Z), !outcome_bind_unfold.
    destruct (forEachAdd f xs 0%Z); [|done]. f_equal. lia.
Qed.

Lemma forEachAdd_app (f : jval -> outcome Z) (xs ys : list jval) (acc : Z) :
  forEachAdd f (xs ++ ys) acc = a ← forEachAdd f xs acc; forEachAdd f ys a.
Proof.
  revert acc. induction xs as [|x xs IH]; intros acc; simpl; [done|].
  rewrite !outcome_bind_unfold. destruct (f x); [apply IH|done].
Qed.

Lemma messagesTokens_app (ms1 ms2 : list jval) :
  messagesTokens enc mis jt (JArr (ms1 ++ ms2)) =
    n1 ← messagesTokens enc mis jt (JArr ms1);
    n2 ← messagesTokens enc mis jt (JArr ms2);
    Ok (n1 + n2)%Z.
Proof.
  simpl. rewrite forEachAdd_app, !outcome_bind_unfold.
  destruct (forEachAdd (messageTokens enc mis jt) ms1 0%Z) as [n1|e]; [|done].
  by rewrite forEachAdd_shift.
Qed.

End EstimatorSums.

(** X13. The estimate of a conversation grows with it: when the
    estimate of a request is [n] and the messages appended to it are
    worth [k] tokens on their own, the estimate of the longer request is
    [n + k], which is not less than [n]; and messages on which the
    estimator raises make it raise on every conversation that starts
    with them. *)
Theorem calculateTokenCount_append (enc : string -> outcome (list nat))
    (mis : jval -> outcome nat)
    (jt : jval -> string) (ms1 ms2 : list jval) (system tools : jval) :
  (forall n k,
     calculateTokenCount enc mis jt (JArr ms1) system tools = Ok n ->
     messagesTokens enc mis jt (JArr ms2) = Ok k ->
     calculateTokenCount enc mis jt (JArr (ms1 ++ ms2)) system tools = Ok (n + k)%Z /\
     (n <= n + k)%Z) /\
  (forall e,
     messagesTokens enc mis jt (JArr ms1) = Throw e ->
     calculateTokenCount enc mis jt (JArr (ms1 ++ ms2)) system tools = Throw e).
Proof.
  split.
  - intros n k Hn Hk.
    assert (Hk0 : (0 <= k)%Z).
    { pose proof (forEachAdd_nonneg (messageTokens enc mis jt) ms2 0%Z
                    (messageTokens_nonneg enc mis jt) (Z.le_refl 0)) as H.
      simpl in Hk. rewrite Hk in H. exact H. }
    split; [|lia].
    unfold calculateTokenCount in *. rewrite messagesTokens_app, Hk.
    rewrite !outcome_bind_unfold in *.
    destruct (messagesTokens enc mis jt (JArr ms1)) as [m|]; [|discriminate].
    destruct (systemTokens enc mis system) as [s|]; [|discriminate].
    destruct (toolsTokens enc mis jt tools) as [t|]; [|discriminate].
    injection Hn as <-. repeat (rewrite outcome_bind_unfold; cbv beta iota).
    f_equal. lia.
  - intros e He. unfold calculateTokenCount.
    by rewrite messagesTokens_app, He.
Qed.

Lemma calculateTokenCount_append_witness :
  calculateTokenCount (enc_encode sampleImports) (enc_misuse sampleImports)
    (json_text sampleImports)
    (JArr ([JObj [("role", JStr "user"); ("content", JStr "hello")]]
           ++ [JObj [("role", JStr "assistant"); ("content", JStr "hi")]]))
    (JStr "be brief") JNull = Ok (13 + 2)%Z /\
  (13 <= 13 + 2)%Z.
Proof.
  exact (proj1 (calculateTokenCount_append (enc_encode sampleImports)
                  (enc_misuse sampleImports) (json_text sampleImports)
                  [JObj [("role", JStr "user"); ("content", JStr "hello")]]
                  [JObj [("role", JStr "assistant"); ("content", JStr "hi")]]
                  (JStr "be brief") JNull)
           13%Z 2%Z eq_refl eq_refl).
Defined.

(** ** The router as a whole *)

Section Frames.

Variable R : World -> World -> Prop.
Hypothesis R_refl : forall w, R w w.
Hypothesis R_trans : forall w1 w2 w3, R w1 w2 -> R w2 w3 -> R w1 w3.

Lemma keeps_bind {A B} (m : M A) (f : A -> M B) :
  keeps R m -> (forall a, keeps R (f a)) -> keeps R (m ≫= f).
Proof.
  intros Hm Hf w. rewrite M_bind_unfold. specialize (Hm w).
  destruct (m w) as [[a|e] w1]; simpl in *; [|done].
  eapply R_trans; [exact Hm|apply Hf].
Qed.

Lemma keeps_tryCatch {A} (m : M A) (h : string -> M A) :
  keeps R m -> (forall e, keeps R (h e)) -> keeps R (tryCatch m h).
Proof.
  intros Hm Hh w. unfold tryCatch. specialize (Hm w).
  destruct (m w) as [[a|e] w1]; simpl in *; [done|].
  eapply R_trans; [exact Hm|apply Hh].
Qed.

Lemma keeps_still {A} (m : M A) : (forall w, (m w).2 = w) -> keeps R m.
Proof. intros Hm w. by rewrite Hm. Qed.

Lemma keeps_modify (f : World -> World) : (forall w, R w (f w)) -> keeps R (modify f).
Proof. intros Hf w. apply Hf. Qed.

End Frames.

Lemma untouched_refl (w : World) : untouched w w.
Proof. by repeat split. Qed.

Lemma untouched_trans (w1 w2 w3 : World) :
  untouched w1 w2 -> untouched w2 w3 -> untouched w1 w3.
Proof.
  unfold untouched, sameData, sameProviders.
  intros [(a1 & a2 & a3 & a4 & a5) [a6 a7]] [(b1 & b2 & b3 & b4 & b5) [b6 b7]].
  repeat split; congruence.
Qed.

Lemma untouched_log (e : LogEvent) (w : World) : untouched w (add_logged e w).
Proof. by repeat split. Qed.

Lemma untouched_model (m : option string) (w : World) : untouched w (writeModel m w).
Proof. by repeat split. Qed.

Lemma parseSessionId_untouched : keeps untouched parseSessionId.
Proof.
  intros w. unfold parseSessionId.
  repeat case_match; simpl; by repeat split.
Qed.

Lemma rewriteSystemPrompt_untouched (env : Imports) (config : Config) :
  keeps untouched (rewriteSystemPrompt env config).
Proof.
  intros w. unfold rewriteSystemPrompt.
  repeat case_match; simpl; by repeat split.
Qed.

Lemma customRoute_untouched (env : Imports) (config : Config) (tokenCount : Z) :
  keeps untouched (customRoute env config tokenCount).
Proof.
  unfold customRoute. destruct (configured (CUSTOM_ROUTER_PATH config)).
  - apply keeps_tryCatch; [apply untouched_trans| |].
    + apply keeps_bind; [apply untouched_trans|by apply keeps_still|intros customRouter].
      apply keeps_bind; [apply untouched_trans| |intros _].
      * apply keeps_modify. intros w. by repeat split.
      * apply keeps_bind; [apply untouched_trans|by apply keeps_still|intros r].
        by apply keeps_still.
    + intros e. apply keeps_bind; [apply untouched_trans| |intros _; by apply keeps_still].
      apply keeps_modify. intros w. apply untouched_log.
  - by apply keeps_still.
Qed.

Lemma getUseModel_untouched (tokenCount : Z) (config : Config) (lastUsage : option Usage) :
  keeps untouched (getUseModel tokenCount config lastUsage).
Proof.
  intros w. destruct (getUseModel_cases tokenCount config lastUsage w) as [_ H].
  destruct H as [->|[[e ->]|(id & s & _ & ->)]]; by repeat split.
Qed.

Lemma routeModel_untouched (env : Imports) (config : Config)
    (lastMessageUsage : option Usage) (system : jval) :
  keeps untouched (routeModel env config lastMessageUsage system).
Proof.
  unfold routeModel. apply keeps_tryCatch; [apply untouched_trans| |].
  - unfold routeModelBody.
    apply keeps_bind; [apply untouched_trans|by apply keeps_still|intros b].
    apply keeps_bind; [apply untouched_trans|by apply keeps_still|intros tokenCount].
    apply keeps_bind; [apply untouched_trans|apply customRoute_untouched|intros custom].
    apply keeps_bind; [apply untouched_trans| |intros m].
    + destruct (configured custom); [by apply keeps_still|apply getUseModel_untouched].
    + apply keeps_modify. intros w. apply untouched_model.
  - intros e. unfold routeModelHandler.
    apply keeps_bind; [apply untouched_trans| |intros _].
    + apply keeps_modify. intros w. apply untouched_log.
    + apply keeps_modify. intros w. apply untouched_model.
Qed.

(** The overlay returns, and leaves the request as it was but for the
    list of overrides. *)
Lemma applyDynamicApiKey_request (getProvider : option (string -> bool)) (config : Config)
    (requestId : nat) (w : World) :
  (applyDynamicApiKey getProvider config requestId w).1 = Ok tt /\
  body (req (applyDynamicApiKey getProvider config requestId w).2) = body (req w) /\
  bearerToken (req (applyDynamicApiKey getProvider config requestId w).2)
    = bearerToken (req w) /\
  sessionId (req (applyDynamicApiKey getProvider config requestId w).2)
    = sessionId (req w) /\
  tokenCount (req (applyDynamicApiKey getProvider config requestId w).2)
    = tokenCount (req w).
Proof.
  unfold applyDynamicApiKey.
  destruct (Js.truthy (bearerToken (req w)) && _); [|done].
  destruct (negb (String.eqb (tokenOf (bearerToken (req w))) "")); [|done].
  pose proof (applyOverrides_invariant getProvider (tokenOf (bearerToken (req w)))
                requestId (collectProviderTargets (heap w) config) w) as (Hr & _).
  destruct (applyOverrides _ _ _ _ w) as [w' overrides]. simpl in Hr.
  destruct (negb (length overrides =? 0)%nat); simpl; by rewrite Hr.
Qed.

(** The router, behind the overlay. *)
Lemma router_behind_overlay (env : Imports) (context : Context) (requestId : nat)
    (w : World) :
  router env context requestId w =
  match parseSessionId
          (applyDynamicApiKey (getProvider context) (config context) requestId w).2 with
  | (Throw e, w2) => (Throw e, w2)
  | (Ok _, w2) =>
      match rewriteSystemPrompt env (config context) w2 with
      | (Throw e, w3) => (Throw e, w3)
      | (Ok system, w3) =>
          routeModel env (config context)
            (cacheGet (sessionUsageCache env) (sessionId (req w2))) system w3
      end
  end.
Proof.
  rewrite router_unfold. unfold preamble. rewrite M_bind_unfold.
  pose proof (applyDynamicApiKey_request (getProvider context) (config context)
                requestId w) as [Hok _].
  destruct (applyDynamicApiKey _ _ _ w) as [o w1]. simpl in Hok. subst o. simpl.
  rewrite M_bind_unfold.
  destruct (parseSessionId w1) as [[[]|e] w2]; [|done].
  rewrite M_bind_unfold. unfold reads at 1. rewrite M_bind_unfold.
  by destruct (rewriteSystemPrompt env (config context) w2) as [[system|e] w3].
Qed.

(** X14. A user identifier that is truthy but not a string stops the
    router: the split of line 250 is no method of it, the line stands
    ahead of the [try] block, and the call throws. The credential
    overlay has run by then; nothing else has: no session id, no model,
    no log line. *)
Theorem router_rejects_user_id (env : Imports) (context : Context) (requestId : nat)
    (w : World) :
  Js.truthy (Js.getOpt (metadata (body (req w))) "user_id") = true ->
  Js.isString (Js.getOpt (metadata (body (req w))) "user_id") = false ->
  router env context requestId w =
    (Throw (Js.typeError "user_id.split is not a function"),
     (applyDynamicApiKey (getProvider context) (config context) requestId w).2).
Proof.
  intros Ht Hs. rewrite router_behind_overlay.
  pose proof (applyDynamicApiKey_request (getProvider context) (config context)
                requestId w) as (_ & Hb & _).
  unfold parseSessionId. rewrite Hb, Ht.
  by destruct (Js.getOpt (metadata (body (req w))) "user_id").
Qed.

Lemma router_rejects_user_id_witness :
  router sampleImports (mkContext openaiConfig None) 7
         (mkWorld numericUserRequest openaiHeap [] [])
  = (Throw (Js.typeError "user_id.split is not a function"),
     (applyDynamicApiKey None openaiConfig 7
        (mkWorld numericUserRequest openaiHeap [] [])).2).
Proof.
  exact (router_rejects_user_id sampleImports (mkContext openaiConfig None) 7
           (mkWorld numericUserRequest openaiHeap [] []) eq_refl eq_refl).
Defined.

(** X15. What the router only reads: the messages, the tools, the
    thinking settings, the metadata and the bearer token of the request
    are after the call what they were before it, however the call ends;
    and the provider objects and the provider service are changed by
    the credential overlay alone, the rest of the call leaves them as
    the overlay left them. (A custom router module is a function of the
    request here.) *)
Theorem router_frame (env : Imports) (context : Context) (requestId : nat) (w : World) :
  let overlaid :=
    (applyDynamicApiKey (getProvider context) (config context) requestId w).2 in
  sameData w (router env context requestId w).2 /\
  sameProviders overlaid (router env context requestId w).2.
Proof.
  intros overlaid.
  assert (H : untouched overlaid (router env context requestId w).2).
  { rewrite router_behind_overlay. fold overlaid.
    pose proof (parseSessionId_untouched overlaid) as H1.
    destruct (parseSessionId overlaid) as [[[]|e] w2]; simpl in H1; [|done].
    pose proof (rewriteSystemPrompt_untouched env (config context) w2) as H2.
    destruct (rewriteSystemPrompt env (config context) w2) as [[system|e] w3];
      simpl in H2; [|by eapply untouched_trans].
    eapply untouched_trans; [exact H1|]. eapply untouched_trans; [exact H2|].
    apply routeModel_untouched. }
  destruct H as [(a1 & a2 & a3 & a4 & a5) Hp]. split; [|exact Hp].
  pose proof (applyDynamicApiKey_request (getProvider context) (config context)
                requestId w) as (_ & Hb & Hbt & _).
  fold overlaid in Hb, Hbt. unfold sameData. rewrite a1, a2, a3, a4, a5, Hb.
  by rewrite Hbt.
Qed.

(** X16. The usage of the session decides through the whole call: for a
    request whose user identifier splits into a second piece [sid], with
    a usage recorded for [sid] above the threshold, an estimate above
    20000 and a long-context model configured, the router (no prompt
    rewrite, no custom router, a plain model name) returns, stores
    [sid] as the session id, logs the decision and writes the
    long-context model; whatever the bearer token made the overlay do. *)
Theorem router_session_long_context (env : Imports) (context : Context) (requestId : nat)
    (w : World) (user_id sid requested : string) (u : Usage) (n : Z) :
  configured (REWRITE_SYSTEM_PROMPT (config context)) = false ->
  configured (CUSTOM_ROUTER_PATH (config context)) = false ->
  Js.getOpt (metadata (body (req w))) "user_id" = JStr user_id ->
  JsString.split SESSION_DELIMITER user_id !! 1%nat = Some sid ->
  cacheLookup (sessionUsageCache env) sid = Some u ->
  (longContextThreshold (config context) < input_tokens u)%Z ->
  calculateTokenCount (enc_encode env) (enc_misuse env) (json_text env)
    (messages (body (req w))) (localSystem (body (req w))) (tools (body (req w))) = Ok n ->
  (20000 < n)%Z ->
  configured (Policy.longContext (Router (config context))) = true ->
  model (body (req w)) = Some requested ->
  JsString.includes "," requested = false ->
  let overlaid :=
    (applyDynamicApiKey (getProvider context) (config context) requestId w).2 in
  router env context requestId w =
    (Ok tt,
     writeModel (Policy.longContext (Router (config context)))
       (add_logged
          (LogInfo ("Using long context model due to token count: "
                    +:+ Js.decimal n +:+ ", threshold: "
                    +:+ Js.decimal (longContextThreshold (config context))))
          (set_req (set_sessionId (Some sid) (req overlaid)) overlaid))).
Proof.
  intros Hrw Hcr Hu Hsid Hc Hin Hn H20 Hlc Hm Hi overlaid.
  pose proof (applyDynamicApiKey_request (getProvider context) (config context)
                requestId w) as (_ & Hb & _).
  fold overlaid in Hb.
  rewrite router_behind_overlay. fold overlaid.
  assert (Hp : parseSessionId overlaid
               = (Ok tt, set_req (set_sessionId (Some sid) (req overlaid)) overlaid)).
  { unfold parseSessionId. rewrite Hb, Hu.
    assert (Ht : Js.truthy (JStr user_id) = true).
    { destruct user_id; [|done]. vm_compute in Hsid. discriminate. }
    rewrite Ht, Hsid.
    apply lookup_lt_Some in Hsid. apply Nat.ltb_lt in Hsid. by rewrite Hsid. }
  rewrite Hp.
  set (w2 := set_req (set_sessionId (Some sid) (req overlaid)) overlaid).
  assert (Hb2 : body (req w2) = body (req w)) by exact Hb.
  assert (Hr : rewriteSystemPrompt env (config context) w2
               = (Ok (localSystem (body (req w))), w2)).
  { unfold rewriteSystemPrompt. by rewrite Hrw, Hb2. }
  rewrite Hr, routeModel_unfold, routeModelBody_unfold, Hb2, Hn.
  rewrite (customRoute_absent _ _ _ _ Hcr). simpl configured. cbv iota.
  assert (Hm2 : model (body (req w2)) = Some requested) by (by rewrite Hb2).
  rewrite (getUseModel_plain _ _ _ _ _ Hm2 Hi).
  assert (Hrule : longContextRule (config context) n
                    (cacheGet (sessionUsageCache env) (sessionId (req w2))) = true).
  { unfold longContextRule, lastUsageThreshold. simpl. rewrite Hc, Hlc.
    apply Z.ltb_lt in Hin, H20. by rewrite Hin, H20. }
  by rewrite Hrule.
Qed.

Lemma router_session_long_context_witness :
  router sessionImports (mkContext openaiConfig None) 7 sessionWorld =
    (Ok tt,
     writeModel (Some "long-model")
       (add_logged
          (LogInfo "Using long context model due to token count: 22000, threshold: 60000")
          (set_req (set_sessionId (Some "abc")
                      (req (applyDynamicApiKey None openaiConfig 7 sessionWorld).2))
                   (applyDynamicApiKey None openaiConfig 7 sessionWorld).2))).
Proof.
  exact (router_session_long_context sessionImports (mkContext openaiConfig None) 7
           sessionWorld "user_42_session_abc" "abc" "claude-sonnet" (mkUsage 70000) 22000
           eq_refl eq_refl eq_refl eq_refl eq_refl eq_refl eq_refl eq_refl eq_refl
           eq_refl eq_refl).
Defined.
